(** * labtools: frequency-response sweep and single-frequency DFT

    A shallow embedding of [tasks/freqresp.py] and of the parts of
    [instruments/DS1054Z.py] it drives.

    Numbers.  Python [float] and numpy [float64]/[complex128] values are
    modelled by the real numbers [R] (and pairs of reals): rounding
    error, overflow of finite operations and signed zeros are outside the
    model, and the real 0 stands for the float +0.0.  Python [int] is [Z].  Where Python raises on a
    real-valued input (division by zero, logarithm of a non-positive
    number, reduction of an empty array, a sleep of negative length) the
    model raises the same exception.  Where numpy's division by zero
    yields an infinity or NaN instead, the value is an [xfloat]; a
    frequency is a [number], which tells a Python float from a
    numpy.float64.

    Effects.  Every instrument command goes through [port.write] /
    [port.query]; the model records them in a chronological trace of
    [event]s and reads the instrument's answers from an oracle indexed by
    the trace so far.  The port is taken as open: the identification
    check of the [port] property is not modelled.  The generator driver
    ([instruments.awg], JDS6600) is only called, through
    [set_frequency]; the call is recorded as an event.

    Generators.  [freqresp_iter] is a generator; its run is the sequence
    of rows it yields, ended by its return or by the exception that leaves
    it.

    External packages.  [sigfig.round] is a parameter of the sweep. *)

From Stdlib Require Import Reals Lra Lia ZArith List.
From Stdlib Require Import Zfloor.
Import ListNotations.

Local Open Scope R_scope.

(** ** Exceptions and outcomes *)

(** The exceptions the modelled code can raise.  The two [Exception]s of
    [DS1054Z.dft_at_freq] carry the values formatted into their message. *)
Inductive exn : Type :=
| ZeroDivisionError
| ValueError_math_domain                       (* math.log, math.log10 *)
| ValueError_empty_reduction                   (* numpy.max of an empty array *)
| ValueError_empty_min                         (* min() of an empty sequence *)
| ValueError_sleep                             (* time.sleep: negative or NaN *)
| OverflowError_sleep                          (* time.sleep: beyond the clock *)
| Exception_too_large_timestep (sample_interval freq : R)
    (* "DS1054Z too large timestep %g for freq %f" *)
| Exception_too_small_timestep (sample_interval freq : R)
    (* "DS1054Z too small timestep %g for freq %f" *).

Inductive outcome (A : Type) : Type :=
| Ok (a : A)
| Raise (e : exn).
Arguments Ok {A} a.
Arguments Raise {A} e.

Definition obind {A B} (o : outcome A) (k : A -> outcome B) : outcome B :=
  match o with
  | Ok a => k a
  | Raise e => Raise e
  end.

(** ** Python and numpy primitives *)

(** A float that may be infinite or not a number: what numpy's division
    yields where Python's raises. *)
Inductive xfloat : Type :=
| Finite (x : R)
| PosInf
| NegInf
| NaN.

Module Py.

(** [a / b] on floats. *)
Definition truediv (a b : R) : outcome R :=
  if Req_dec_T b 0 then Raise ZeroDivisionError else Ok (a / b).

(** [round(x)] with one argument: nearest integer, ties to even. *)
Definition round (x : R) : Z :=
  let f := Zfloor x in
  let d := x - IZR f in
  if Rlt_dec d (1 / 2) then f
  else if Rlt_dec (1 / 2) d then (f + 1)%Z
  else if Z.even f then f else (f + 1)%Z.

(** [a % b] on floats, for [b <> 0]: the result has the sign of [b]. *)
Definition fmod (a b : R) : R := a - b * IZR (Zfloor (a / b)).

(** [math.log(x)] *)
Definition log (x : R) : outcome R :=
  if Rlt_dec 0 x then Ok (ln x) else Raise ValueError_math_domain.

(** [math.log10(x)] *)
Definition log10 (x : R) : outcome R :=
  if Rlt_dec 0 x then Ok (ln x / ln 10) else Raise ValueError_math_domain.

(** [math.log10(x)] for a float that may be infinite or NaN. *)
Definition log10x (x : xfloat) : outcome xfloat :=
  match x with
  | Finite v => obind (log10 v) (fun l => Ok (Finite l))
  | PosInf => Ok PosInf
  | NegInf => Raise ValueError_math_domain
  | NaN => Ok NaN
  end.

(** [10.0 * x] for a float that may be infinite or NaN. *)
Definition times10 (x : xfloat) : xfloat :=
  match x with
  | Finite v => Finite (10 * v)
  | other => other
  end.

(** [a + x] for a float [x] that may be infinite or NaN. *)
Definition addx (a : R) (x : xfloat) : xfloat :=
  match x with
  | Finite v => Finite (a + v)
  | other => other
  end.

(** [min(l, key = key)]: the first element whose key is minimal. *)
Definition min_key {A} (key : A -> R) (l : list A) : outcome A :=
  match l with
  | [] => Raise ValueError_empty_min
  | x :: tl =>
      Ok (fold_left (fun best y => if Rlt_dec (key y) (key best) then y else best)
                    tl x)
  end.

(** [range(start, stop, step)] for a positive [step]. *)
Definition range (start stop step : Z) : list Z :=
  map (fun i => (start + Z.of_nat i * step)%Z)
      (seq 0 (Z.to_nat ((stop - start + step - 1) / step))).

End Py.

(** Complex numbers as numpy.complex128 / Python complex. *)
Module Cx.

Definition C : Type := (R * R)%type.

Definition re (z : C) : R := fst z.
Definition im (z : C) : R := snd z.

Definition of_R (x : R) : C := (x, 0).
Definition j : C := (0, 1).

Definition add (a b : C) : C := (re a + re b, im a + im b).
Definition mul (a b : C) : C :=
  (re a * re b - im a * im b, re a * im b + im a * re b).

(** division of a complex by a real scalar *)
Definition div_real (a : C) (n : R) : C := (re a / n, im a / n).

(** [numpy.exp] at a complex argument *)
Definition exp (z : C) : C := (Rtrigo_def.exp (re z) * cos (im z),
                               Rtrigo_def.exp (re z) * sin (im z)).

(** [abs(z)] *)
Definition abs (z : C) : R := sqrt (re z * re z + im z * im z).

(** [math.atan2(y, x)] on reals, values in (-PI, PI]. *)
Definition atan2 (y x : R) : R :=
  if Rlt_dec 0 x then atan (y / x)
  else if Rlt_dec x 0 then
         (if Rle_dec 0 y then atan (y / x) + PI else atan (y / x) - PI)
  else if Rlt_dec 0 y then PI / 2
  else if Rlt_dec y 0 then - (PI / 2)
  else 0.

(** [cmath.phase(z)] *)
Definition phase (z : C) : R := atan2 (im z) (re z).

(** [numpy.sum] of a complex array *)
Definition sum (l : list C) : C := fold_right add (0, 0) l.

End Cx.

Module Np.

(** [math.tau] *)
Definition tau : R := 2 * PI.

(** [numpy.degrees(x)] *)
Definition degrees (x : R) : R := x * 180 / PI.

(** [numpy.linspace(start, stop, num, endpoint = False)]:
    [arange(num) * ((stop - start) / num) + start]. *)
Definition linspace (start stop : R) (num : nat) : list R :=
  map (fun k => INR k * ((stop - start) / INR num) + start) (seq 0 num).

(** [numpy.arange(start, stop, step)] on floats:
    [ceil((stop - start) / step)] points [start + i * step]. *)
Definition arange (start stop step : R) : list R :=
  map (fun k => start + INR k * step)
      (seq 0 (Z.to_nat (Zceil ((stop - start) / step)))).

(** [numpy.multiply(a, b)] of a complex array by a real array of the same
    length. *)
Definition multiply (a : list Cx.C) (b : list R) : list Cx.C :=
  map (fun p => Cx.mul (fst p) (Cx.of_R (snd p))) (combine a b).

(** [a / b] on numpy floats: it does not raise; a zero divisor gives an
    infinity with the sign of [a], and NaN for [0 / 0]. *)
Definition divide (a b : R) : xfloat :=
  if Req_dec_T b 0
  then if Req_dec_T a 0 then NaN
       else if Rlt_dec 0 a then PosInf else NegInf
  else Finite (a / b).

(** [numpy.max(numpy.abs(a))] *)
Definition max_abs (a : list R) : outcome R :=
  match a with
  | [] => Raise ValueError_empty_reduction
  | x :: tl => Ok (fold_left (fun m y => Rmax m (Rabs y)) tl (Rabs x))
  end.

End Np.

(** A frequency as [measure_response] receives it: a Python float (an
    element of the logarithmic list, or the argument of a direct call), or
    a numpy.float64 (an element of [numpy.arange]). *)
Inductive number : Type :=
| PyFloat (x : R)
| NpFloat64 (x : R).

(** [float(n)] *)
Definition float_of (n : number) : R :=
  match n with
  | PyFloat x | NpFloat64 x => x
  end.

(** [a / n] for a Python float [a]: Python's division for a Python float
    [n], numpy's for a numpy.float64. *)
Definition truediv_number (a : R) (n : number) : outcome xfloat :=
  match n with
  | PyFloat x => obind (Py.truediv a x) (fun q => Ok (Finite q))
  | NpFloat64 x => Ok (Np.divide a x)
  end.

(** ** DS1054Z.dft_at_freq, the computation after the data was fetched
    (lines 213-232). *)

Definition samples_per_period (freq sample_interval : R) : outcome Z :=
  obind (Py.truediv 1 freq) (fun period =>
  obind (Py.truediv period sample_interval) (fun q =>
  Ok (Py.round q))).

Definition dft_coefficient (data : list R) (periods samples : Z) : Cx.C :=
  let exp := map (fun t => Cx.exp (Cx.mul (Cx.mul (Cx.of_R Np.tau) Cx.j) (Cx.of_R t)))
                 (Np.linspace 0 (IZR periods) (Z.to_nat samples)) in
  Cx.div_real (Cx.sum (Np.multiply exp (firstn (Z.to_nat samples) data)))
              (IZR samples).

Definition dft_calc (data : list R) (sample_interval freq : R)
  : outcome (R * R) :=
  obind (samples_per_period freq sample_interval) (fun spp =>
  if (spp <? 5)%Z then Raise (Exception_too_large_timestep sample_interval freq)
  else
    let periods := (Z.of_nat (length data) / spp)%Z in
    let samples := (periods * spp)%Z in
    if (periods <? 1)%Z
    then Raise (Exception_too_small_timestep sample_interval freq)
    else
      let dft := dft_coefficient data periods samples in
      let amplitude := 4 * Cx.abs dft in
      let phase := Np.degrees (Cx.phase dft) in
      Ok (amplitude, phase)).

(** ** Instrument commands, the trace and the state-and-exception monad *)

(** The command strings the modelled methods pass to [port.write], with
    their formatted arguments as payload. *)
Inductive scpi : Type :=
| TIM_SCAL (timebase : R)                (* "TIM:SCAL %s" *)
| CHAN_SCAL (channel : Z) (scale : R)    (* "CHAN%d:SCAL %s" *)
| RUN                                    (* "RUN" *)
| STOP                                   (* "STOP" *)
| TFORCE                                 (* "TFORCE" *)
| ACQ_MDEPTH_AUTO                        (* "ACQ:MDEPTH AUTO" *)
| ACQ_MDEPTH (depth : Z)                 (* "ACQ:MDEPTH %d" *)
| WAV_SOUR (channel : Z)                 (* "WAV:SOUR CHAN%d" *)
| WAV_MODE_NORM                          (* "WAV:MODE NORM" *)
| WAV_MODE_RAW                           (* "WAV:MODE RAW" *)
| WAV_FORM_BYTE                          (* "WAV:FORM BYTE" *)
| WAV_STAR (n : Z)                       (* "WAV:STAR 1" *)
| WAV_START (n : Z)                      (* "WAV:START %d" *)
| WAV_STOP (n : Z).                      (* "WAV:STOP %d" *)

(** The queries whose answer is parsed with [float(...)]. *)
Inductive fquery : Type :=
| WAV_YINC                               (* "WAV:YINC?" *)
| WAV_YOR                                (* "WAV:YOR?" *)
| WAV_YREF                               (* "WAV:YREF?" *)
| WAV_XINC.                              (* "WAV:XINC?" *)

Inductive event : Type :=
| AwgSetFrequency (channel : Z) (freq : R)   (* instruments.awg.set_frequency *)
| Write (c : scpi)                           (* scope.port.write *)
| QueryFloat (q : fquery)                    (* scope.port.query, float(...) *)
| QueryMdepth                                (* "ACQ:MDEPTH?", int(...) *)
| QueryData                                  (* "WAV:DATA?", datatype 'B' *)
| Sleep (seconds : R).                       (* time.sleep *)

Definition trace : Type := list event.

(** The oscilloscope at the other end of the port: what it answers to a
    query after the commands of the trace so far. *)
Record scope : Type := {
  answer_float : fquery -> trace -> R;
  answer_mdepth : trace -> Z;
  answer_data : trace -> list Z            (* unsigned bytes *)
}.

Definition M (W A : Type) : Type := W -> outcome A * W.

Definition ret {W A} (a : A) : M W A := fun w => (Ok a, w).

Definition bind {W A B} (c : M W A) (k : A -> M W B) : M W B :=
  fun w => match c w with
           | (Ok a, w') => k a w'
           | (Raise e, w') => (Raise e, w')
           end.

Definition lift {W A} (o : outcome A) : M W A := fun w => (o, w).

Definition emit (e : event) : M trace unit := fun tr => (Ok tt, tr ++ [e]).

Declare Scope prog_scope.
Delimit Scope prog_scope with prog.
Notation "x <- c ;; k" := (bind c (fun x => k))
  (at level 61, c at next level, right associativity) : prog_scope.
Notation "c ;; k" := (bind c (fun _ => k))
  (at level 61, right associativity) : prog_scope.
Local Open Scope prog_scope.

(** [time.sleep] converts the length to nanoseconds in a signed 64-bit
    integer: the lengths from [- sleep_max] up to, but excluding,
    [sleep_max] seconds fit. *)
Definition sleep_max : R := 2 ^ 63 / 10 ^ 9.

(** [time.sleep(secs)]: OverflowError for a length that does not fit,
    then ValueError for a negative length; ValueError for NaN. *)
Definition time_sleep (secs : xfloat) : M trace unit :=
  match secs with
  | Finite s =>
      if Rle_dec sleep_max s then lift (Raise OverflowError_sleep)
      else if Rlt_dec s (- sleep_max) then lift (Raise OverflowError_sleep)
      else if Rlt_dec s 0 then lift (Raise ValueError_sleep)
      else emit (Sleep s)
  | PosInf | NegInf => lift (Raise OverflowError_sleep)
  | NaN => lift (Raise ValueError_sleep)
  end.

(** ** instruments/DS1054Z.py *)

Module DS1054Z.

Definition timebases : list R :=
  [ 2e-9; 5e-9;
    1e-8; 2e-8; 5e-8;
    1e-7; 2e-7; 5e-7;
    1e-6; 2e-6; 5e-6;
    1e-5; 2e-5; 5e-5;
    1e-4; 2e-4; 5e-4;
    1e-3; 2e-3; 5e-3;
    1e-2; 2e-2; 5e-2;
    1e-1; 2e-1; 5e-1;
    1e-0; 2e-0; 5e-0;
    1e+1; 2e+1; 5e+1 ].

Definition vertical_scales : list R :=
  [ 1e-2; 2e-2; 5e-2;
    1e-1; 2e-1; 5e-1;
    1e-0; 2e-0; 5e-0;
    1e+1; 2e+1; 5e+1;
    1e+2 ].

Definition write (c : scpi) : M trace unit := emit (Write c).

Definition query_float (sc : scope) (q : fquery) : M trace R :=
  fun tr => (Ok (answer_float sc q tr), tr ++ [QueryFloat q]).

Definition query_mdepth (sc : scope) : M trace Z :=
  fun tr => (Ok (answer_mdepth sc tr), tr ++ [QueryMdepth]).

Definition query_data (sc : scope) : M trace (list Z) :=
  fun tr => (Ok (answer_data sc tr), tr ++ [QueryData]).

(** [min(values, key = lambda x: abs(x - target))] *)
Definition nearest (values : list R) (target : R) : outcome R :=
  Py.min_key (fun x => Rabs (x - target)) values.

Definition set_timebase (timebase : R) (round : bool) : M trace unit :=
  timebase <- (if round then lift (nearest timebases timebase)
               else ret timebase) ;;
  write (TIM_SCAL timebase).

(** [min(values, key = lambda x: abs(x - target))] for a target that may
    be infinite or NaN: then every key is infinite or NaN, no key is
    smaller than another, and [min] returns the first element. *)
Definition nearest_x (values : list R) (target : xfloat) : outcome R :=
  match target with
  | Finite t => nearest values t
  | PosInf | NegInf | NaN => Py.min_key (fun _ => 0) values
  end.

(** [set_timebase(timebase)], with the default [round = True], for a
    request that may be infinite or NaN. *)
Definition set_timebase_x (timebase : xfloat) : M trace unit :=
  timebase <- lift (nearest_x timebases timebase) ;;
  write (TIM_SCAL timebase).

Definition set_channel_scale (channel : Z) (scale : R) (round : bool)
  : M trace unit :=
  scale <- (if round then lift (nearest vertical_scales scale)
            else ret scale) ;;
  write (CHAN_SCAL channel scale).

Definition run : M trace unit := write RUN.
Definition stop : M trace unit := write STOP.
Definition force_trigger : M trace unit := write TFORCE.

(** [depth] is [None] for automatic; [if not depth] also takes 0. *)
Definition set_memdepth (depth : option Z) : M trace unit :=
  match depth with
  | None => write ACQ_MDEPTH_AUTO
  | Some d => if (d =? 0)%Z then write ACQ_MDEPTH_AUTO else write (ACQ_MDEPTH d)
  end.

Definition sample_interval (sc : scope) : M trace R :=
  query_float sc WAV_XINC.

(** [(numpy.array(data) - sample_ref - sample_offset) * sample_scale] *)
Definition to_volts (data : list Z) (sample_ref sample_offset sample_scale : R)
  : list R :=
  map (fun b => (IZR b - sample_ref - sample_offset) * sample_scale) data.

Definition fetch_data (sc : scope) (channel : Z) : M trace (list R) :=
  write (WAV_SOUR channel) ;;
  write WAV_MODE_NORM ;;
  write WAV_FORM_BYTE ;;
  write (WAV_STAR 1) ;;
  write (WAV_STOP 1200) ;;
  sample_scale <- query_float sc WAV_YINC ;;
  sample_offset <- query_float sc WAV_YOR ;;
  sample_ref <- query_float sc WAV_YREF ;;
  data <- query_data sc ;;
  ret (to_volts data sample_ref sample_offset sample_scale).

Definition maxblocklen : Z := 250000.

(** The block loop of [fetch_data_raw]: [alldata += block] per block. *)
Fixpoint fetch_blocks (sc : scope) (end_ : Z) (blockstarts : list Z)
         (alldata : list Z) : M trace (list Z) :=
  match blockstarts with
  | [] => ret alldata
  | blockstart :: rest =>
      write (WAV_START blockstart) ;;
      write (WAV_STOP (Z.min (blockstart + maxblocklen) end_)) ;;
      block <- query_data sc ;;
      fetch_blocks sc end_ rest (alldata ++ block)
  end.

Definition fetch_data_raw (sc : scope) (channel : Z) (start : Z)
           (end_ : option Z) : M trace (list R) :=
  write STOP ;;
  write (WAV_SOUR channel) ;;
  write WAV_MODE_RAW ;;
  write WAV_FORM_BYTE ;;
  sample_scale <- query_float sc WAV_YINC ;;
  sample_offset <- query_float sc WAV_YOR ;;
  sample_ref <- query_float sc WAV_YREF ;;
  end_ <- (match end_ with
           | None => query_mdepth sc
           | Some e => ret e
           end) ;;
  alldata <- fetch_blocks sc end_ (Py.range start end_ maxblocklen) [] ;;
  ret (to_volts alldata sample_ref sample_offset sample_scale).

Definition dft_at_freq (sc : scope) (channel : Z) (freq : R) (use_raw : bool)
  : M trace (R * R) :=
  data <- (if use_raw then fetch_data_raw sc channel 1 None
           else fetch_data sc channel) ;;
  sample_interval <- sample_interval sc ;;
  lift (dft_calc data sample_interval freq).

End DS1054Z.

(** ** tasks/freqresp.py *)

(** Line 39: [((p1 - p2) + 180.0) % 360.0 - 180.0]. *)
Definition phase_delta (p1 p2 : R) : R :=
  Py.fmod ((p1 - p2) + 180) 360 - 180.

(** Lines 21-30, the body of [if autorange:]. *)
Definition autorange_block (sc : scope) (delay : xfloat) : M trace unit :=
  DS1054Z.set_channel_scale 1 1 true ;;
  DS1054Z.set_channel_scale 2 1 true ;;
  DS1054Z.force_trigger ;;
  time_sleep delay ;;
  DS1054Z.stop ;;
  d1 <- DS1054Z.fetch_data sc 1 ;;
  a1 <- lift (Np.max_abs d1) ;;
  d2 <- DS1054Z.fetch_data sc 2 ;;
  a2 <- lift (Np.max_abs d2) ;;
  DS1054Z.set_channel_scale 1 (a1 / 4) true ;;
  DS1054Z.set_channel_scale 2 (a2 / 4) true ;;
  DS1054Z.run.

(** Lines 32-40: the capture with the adjusted [delay] and the two DFTs
    ([dft_at_freq] takes [float(freq)]).  The final [a1 / a2] divides two
    numpy floats, which does not raise. *)
Definition measure_dft (sc : scope) (freq : R) (delay : xfloat)
  : M trace (xfloat * R) :=
  DS1054Z.force_trigger ;;
  time_sleep delay ;;
  DS1054Z.stop ;;
  r1 <- DS1054Z.dft_at_freq sc 1 freq true ;;
  r2 <- DS1054Z.dft_at_freq sc 2 freq true ;;
  let '(a1, p1) := r1 in
  let '(a2, p2) := r2 in
  ret (Np.divide a1 a2, phase_delta p1 p2).

(** Lines 20-40 of [measure_response]: the optional auto-ranging, then
    the measured capture. *)
Definition measure_capture (sc : scope) (freq : R) (delay : xfloat)
           (autorange : bool) : M trace (xfloat * R) :=
  (if autorange then autorange_block sc delay else ret tt) ;;
  measure_dft sc freq delay.

(** [measure_response(freq, delay, autorange, memdepth)]: lines 14-18,
    then the capture with [delay += 40.0 / freq]. *)
Definition measure_response (sc : scope) (freq : number) (delay : R)
           (autorange : bool) (memdepth : option Z) : M trace (xfloat * R) :=
  emit (AwgSetFrequency 1 (float_of freq)) ;;
  DS1054Z.run ;;
  DS1054Z.set_memdepth memdepth ;;
  timebase <- lift (truediv_number 1 freq) ;;
  DS1054Z.set_timebase_x timebase ;;
  extra <- lift (truediv_number 40 freq) ;;
  measure_capture sc (float_of freq) (Py.addx delay extra) autorange.

(** The default value of [memdepth]. *)
Definition default_memdepth : option Z := Some 120000%Z.

(** A yielded row: [{'freq': .., 'amplitude': .., 'dB': .., 'phase': ..}]. *)
Record row : Type := {
  row_freq : R;
  row_amplitude : R;
  row_dB : R;
  row_phase : R
}.

(** What a generator does when it is iterated to its end: the rows it
    yields, in order, and how it stops. *)
Inductive gen (Row W : Type) : Type :=
| Yield (r : Row) (rest : gen Row W)
| Return (w : W)                  (* the generator is exhausted *)
| Throw (e : exn) (w : W).        (* an exception leaves the generator *)
Arguments Yield {Row W} r rest.
Arguments Return {Row W} w.
Arguments Throw {Row W} e w.

Section Sweep.

(** [sigfig.round(x, sigfigs = n)] of the external package [sigfig]. *)
Variable sigfig_round : R -> Z -> R.

(** Lines 47-54: the list of frequencies.  [lin_interval] is [None] or a
    float; [if lin_interval] is false for both [None] and 0. *)
Definition log_freqs (freq_min freq_max : R) (log_stepsdec : Z)
  : outcome (list R) :=
  let sigfigs := Zceil (IZR log_stepsdec / 10 + 1) in
  obind (Py.truediv 1 (IZR log_stepsdec)) (fun e =>
  let base := Rpower 10 e in
  obind (Py.truediv freq_max freq_min) (fun ratio =>
  obind (Py.log ratio) (fun lr =>
  obind (Py.log base) (fun lb =>
  obind (Py.truediv lr lb) (fun s =>
  let steps := Zceil s in
  obind (Py.log freq_min) (fun lf =>
  obind (Py.truediv lf lb) (fun first =>
  Ok (map (fun x => sigfig_round (Rpower base (first + IZR x)) sigfigs)
          (Py.range 0 (steps + 1) 1))))))))).

Definition sweep_freqs (freq_min freq_max : R) (log_stepsdec : Z)
           (lin_interval : option R) : outcome (list R) :=
  match lin_interval with
  | Some step =>
      if Req_dec_T step 0 then log_freqs freq_min freq_max log_stepsdec
      else Ok (Np.arange freq_min freq_max step)
  | None => log_freqs freq_min freq_max log_stepsdec
  end.

Variable W : Type.

(** [measure(freq, **kwargs)], the keyword arguments already applied: a
    callback whose results are finite floats. *)
Variable measure : R -> M W (R * R).

(** Lines 58-61: the loop over the frequencies. *)
Fixpoint sweep_rows (freqs : list R) (w : W) : gen row W :=
  match freqs with
  | [] => Return w
  | freq :: rest =>
      match measure freq w with
      | (Raise e, w') => Throw e w'
      | (Ok (a, p), w') =>
          match Py.log10 a with
          | Raise e => Throw e w'
          | Ok l =>
              Yield {| row_freq := freq; row_amplitude := a;
                       row_dB := 10 * l; row_phase := p |}
                    (sweep_rows rest w')
          end
      end
  end.

Definition freqresp_iter (freq_min freq_max : R) (log_stepsdec : Z)
           (lin_interval : option R) (w : W) : gen row W :=
  match sweep_freqs freq_min freq_max log_stepsdec lin_interval with
  | Raise e => Throw e w
  | Ok freqs => sweep_rows freqs w
  end.

End Sweep.

(** *** The sweep over a measurement with numpy results

    [measure_response] returns the ratio of two numpy floats, which may
    be infinite or NaN; [math.log10] accepts such values, and the row
    carries them. *)

(** A yielded row whose amplitude and dB may be infinite or NaN. *)
Record xrow : Type := {
  xrow_freq : R;
  xrow_amplitude : xfloat;
  xrow_dB : xfloat;
  xrow_phase : R
}.

Section SweepX.

Variable sigfig_round : R -> Z -> R.
Variable W : Type.
Variable measure : R -> M W (xfloat * R).

(** Lines 58-61: the loop over the frequencies. *)
Fixpoint sweep_rows_x (freqs : list R) (w : W) : gen xrow W :=
  match freqs with
  | [] => Return w
  | freq :: rest =>
      match measure freq w with
      | (Raise e, w') => Throw e w'
      | (Ok (a, p), w') =>
          match Py.log10x a with
          | Raise e => Throw e w'
          | Ok l =>
              Yield {| xrow_freq := freq; xrow_amplitude := a;
                       xrow_dB := Py.times10 l; xrow_phase := p |}
                    (sweep_rows_x rest w')
          end
      end
  end.

Definition freqresp_iter_x (freq_min freq_max : R) (log_stepsdec : Z)
           (lin_interval : option R) (w : W) : gen xrow W :=
  match sweep_freqs sigfig_round freq_min freq_max log_stepsdec
                    lin_interval with
  | Raise e => Throw e w
  | Ok freqs => sweep_rows_x freqs w
  end.

End SweepX.

(** A callback with finite results, as a callback with numpy results,
    and the row it gives rise to. *)
Definition finite_measure {W} (measure : R -> M W (R * R))
  : R -> M W (xfloat * R) :=
  fun freq w =>
    match measure freq w with
    | (Ok (a, p), w') => (Ok (Finite a, p), w')
    | (Raise e, w') => (Raise e, w')
    end.

Definition finite_row (r : row) : xrow :=
  {| xrow_freq := row_freq r; xrow_amplitude := Finite (row_amplitude r);
     xrow_dB := Finite (row_dB r); xrow_phase := row_phase r |}.

(** The elements of [numpy.arange] are numpy.float64; those of the
    logarithmic list are Python floats. *)
Definition sweep_number (lin_interval : option R) (freq : R) : number :=
  match lin_interval with
  | Some step => if Req_dec_T step 0 then PyFloat freq else NpFloat64 freq
  | None => PyFloat freq
  end.

(** [measure = measure_response] with the keyword arguments [delay] and
    [autorange], as the sweep calls it. *)
Definition default_measure (sc : scope) (lin_interval : option R) (delay : R)
           (autorange : bool) (freq : R) : M trace (xfloat * R) :=
  measure_response sc (sweep_number lin_interval freq) delay autorange
                   default_memdepth.

(** Observations of a generator run: the rows received by a consumer
    ([for row in freqresp_iter(...)]), the exception that ended it, if
    any, and the final state. *)
Fixpoint rows_of {Row W} (g : gen Row W) : list Row :=
  match g with
  | Yield r rest => r :: rows_of rest
  | Return _ | Throw _ _ => []
  end.

Fixpoint error_of {Row W} (g : gen Row W) : option exn :=
  match g with
  | Yield _ rest => error_of rest
  | Return _ => None
  | Throw e _ => Some e
  end.

Fixpoint final_of {Row W} (g : gen Row W) : W :=
  match g with
  | Yield _ rest => final_of rest
  | Return w | Throw _ w => w
  end.

(** ** The spectral extractor as the specification words it *)

(** [big_sum n f] is f 0 + ... + f (n - 1). *)
Fixpoint big_sum (n : nat) (f : nat -> R) : R :=
  match n with
  | O => 0
  | S m => big_sum m f + f m
  end.

(** The number of full turns reached at sample [k] of [n]: linear in
    [k], 0 at the first sample, [periods] at [k = n]. *)
Definition turns (periods : Z) (n k : nat) : R :=
  IZR periods * (INR k / INR n).

(** The point of the unit circle after [t] turns. *)
Definition unit_exp (t : R) : Cx.C := (cos (2 * PI * t), sin (2 * PI * t)).

(** The average over the first [periods * spp] samples of the sample
    times the unit exponential. *)
Definition spec_coefficient (data : list R) (spp : Z) : Cx.C :=
  let periods := (Z.of_nat (length data) / spp)%Z in
  let n := Z.to_nat (periods * spp) in
  (big_sum n (fun k => nth k data 0 * Cx.re (unit_exp (turns periods n k))) / INR n,
   big_sum n (fun k => nth k data 0 * Cx.im (unit_exp (turns periods n k))) / INR n).

(** ** Measurement callbacks used as test doubles *)

(** A stub measurement: fixed (ratio, phase) pairs, and a log of the
    frequencies it was called with. *)
Definition stub_measure (freq : R) : M (list R) (R * R) :=
  fun log =>
    (Ok (if Req_dec_T freq 100 then (1, 0)
         else if Req_dec_T freq 200 then (10, 90)
         else (100, -90)),
     log ++ [freq]).

(** A measurement that succeeds with amplitude ratio 0 (no signal on the
    measurement channel). *)
Definition silent_measure (freq : R) : M (list R) (R * R) :=
  fun log => (Ok (0, 0), log ++ [freq]).

(** A measurement that fails below 1 kHz with an exception that carries
    no data, and succeeds with ratio 1 from there on. *)
Definition lowcut_measure (freq : R) : M (list R) (R * R) :=
  fun log =>
    (if Rlt_dec freq 1000 then Raise ValueError_empty_reduction else Ok (1, 0),
     log ++ [freq]).

(** The row expected for frequency [freq]: its amplitude ratio and phase
    are an answer of the measurement callback for [freq], the ratio is
    positive, and [dB = 10 * log10(ratio)]. *)
Definition row_for {W} (measure : R -> M W (R * R)) (freq : R) (r : row)
  : Prop :=
  row_freq r = freq /\
  (exists w w', measure freq w = (Ok (row_amplitude r, row_phase r), w')) /\
  0 < row_amplitude r /\
  row_dB r = 10 * (ln (row_amplitude r) / ln 10).

(** ** Observations of a run on the instruments *)

(** [emits P c]: from every trace, [c] only appends events, and every
    event it appends satisfies [P]; whether [c] returns or raises. *)
Definition emits (P : event -> Prop) {A} (c : M trace A) : Prop :=
  forall tr, exists evs, snd (c tr) = tr ++ evs /\ Forall P evs.

(** The event is neither a sleep nor a forced trigger. *)
Definition quiet (e : event) : Prop :=
  (forall s, e <> Sleep s) /\ e <> Write TFORCE.

(** Every vertical scale sent is one of the instrument's scales. *)
Definition scales_valid (e : event) : Prop :=
  forall channel v, e = Write (CHAN_SCAL channel v) ->
                    In v DS1054Z.vertical_scales.

(** An oscilloscope with a flat trace at the centre of the screen on
    every channel: every sample byte equals the reference level. *)
Definition flat_scope : scope := {|
  answer_float := fun q _ =>
    match q with
    | WAV_YINC => 0.04
    | WAV_YOR => 0
    | WAV_YREF => 128
    | WAV_XINC => 1e-6
    end;
  answer_mdepth := fun _ => 4%Z;
  answer_data := fun _ => [128; 128; 128; 128]%Z
|}.

(** ** Sample buffers of a periodic signal *)

(** The buffer of [len] samples of the signal [x] that starts at sample
    [start]. *)
Definition window (x : nat -> R) (start len : nat) : list R :=
  map x (seq start len).

(** [x] repeats every [p] samples. *)
Definition periodic (p : nat) (x : nat -> R) : Prop :=
  forall k, x (k + p)%nat = x k.

(** A sawtooth that repeats every 5 samples. *)
Definition sawtooth (k : nat) : R := INR (k mod 5).

(** ** Rounding to significant figures (the external package [sigfig]) *)

(** What the sweep needs of [sigfig.round(x, sigfigs = n)] for a positive
    [x] in the decade [10^d <= x < 10^(d + 1)]: the result is a multiple
    [m * 10^(d - n + 1)] of the unit of the [n]-th significant figure,
    and no further from [x] than half that unit.  Nothing is assumed on
    the direction in which a tie is rounded. *)
Definition rounds_to_sigfigs (sigfig_round : R -> Z -> R) : Prop :=
  forall (x : R) (n d : Z),
    (1 <= n)%Z ->
    powerRZ 10 d <= x < powerRZ 10 (d + 1) ->
    exists m : Z,
      sigfig_round x n = IZR m * powerRZ 10 (d - n + 1) /\
      Rabs (x - IZR m * powerRZ 10 (d - n + 1)) <= powerRZ 10 (d - n + 1) / 2.

(** One such rounding, for positive [x]: ties go to the even multiple. *)
Definition sigfig_half_even (x : R) (n : Z) : R :=
  let d := Zfloor (ln x / ln 10) in
  let unit := powerRZ 10 (d - n + 1) in
  IZR (Py.round (x / unit)) * unit.

(** The logarithmic frequency list as the specification words it:
    [base ^ (first + i)] for [i = 0 .. steps], each rounded to
    [ceil(log_stepsdec / 10 + 1)] significant figures. *)
Definition spec_log_freqs (sigfig_round : R -> Z -> R)
           (freq_min freq_max : R) (log_stepsdec : Z) : list R :=
  let base := Rpower 10 (1 / IZR log_stepsdec) in
  let steps := Zceil (ln (freq_max / freq_min) / ln base) in
  let first := ln freq_min / ln base in
  let sigfigs := Zceil (IZR log_stepsdec / 10 + 1) in
  map (fun i => sigfig_round (Rpower base (first + INR i)) sigfigs)
      (seq 0 (Z.to_nat (steps + 1))).

(** The frequencies of the default sweep: 10 steps per decade from 100 Hz
    to 100 kHz, two significant figures. *)
Definition default_freqs : list R :=
  [100; 130; 160; 200; 250; 320; 400; 500; 630; 790;
   1000; 1300; 1600; 2000; 2500; 3200; 4000; 5000; 6300; 7900;
   10000; 13000; 16000; 20000; 25000; 32000; 40000; 50000; 63000; 79000;
   100000].

(** [l] is strictly increasing. *)
Fixpoint increasing (l : list R) : Prop :=
  match l with
  | [] => True
  | x :: tl => match tl with
               | [] => True
               | y :: _ => x < y /\ increasing tl
               end
  end.

(** ** Test signals for the spectral extractor *)

(** The angle of the measured frequency at sample [k], for [p] samples
    per period. *)
Definition angle_at (p k : nat) : R := 2 * PI * (INR k / INR p).

(** A sampled cosine of amplitude [A] and phase [phi] at the measured
    frequency, on an offset [d]. *)
Definition sinusoid (p : nat) (A phi d : R) (k : nat) : R :=
  d + A * cos (angle_at p k + phi).

(** The [h]-th harmonic of the measured frequency, amplitude [B], phase
    [psi]. *)
Definition harmonic (p h : nat) (B psi : R) (k : nat) : R :=
  B * cos (INR h * angle_at p k + psi).

(** The buffer [data] with the signal [y] added sample by sample. *)
Definition add_signal (y : nat -> R) (data : list R) : list R :=
  map (fun k => nth k data 0 + y k) (seq 0 (length data)).

(** ** Observations of a raw fetch *)

(** What [fetch_data_raw] sends for the block that starts at
    [blockstart]. *)
Definition block_events (end_ blockstart : Z) : list event :=
  [Write (WAV_START blockstart);
   Write (WAV_STOP (Z.min (blockstart + DS1054Z.maxblocklen) end_));
   QueryData].

(** ** Observations of a failing run *)

(** [raises Q c]: every exception that leaves [c] satisfies [Q]. *)
Definition raises (Q : exn -> Prop) {W A} (c : M W A) : Prop :=
  forall w e, fst (c w) = Raise e -> Q e.

(** The event is not a vertical-scale command. *)
Definition no_scale_command (e : event) : Prop :=
  forall channel v, e <> Write (CHAN_SCAL channel v).

(** ** Acquisition state along a trace *)

(** Whether the oscilloscope acquires after the events [evs], when it did
    ([running = true]) or did not before them: "RUN" starts and "STOP"
    stops the acquisition. *)
Fixpoint acquiring (running : bool) (evs : trace) : bool :=
  match evs with
  | [] => running
  | Write RUN :: rest => acquiring true rest
  | Write STOP :: rest => acquiring false rest
  | _ :: rest => acquiring running rest
  end.

(** Every "WAV:DATA?" of [evs] is sent while the acquisition is stopped. *)
Fixpoint reads_while_stopped (running : bool) (evs : trace) : bool :=
  match evs with
  | [] => true
  | QueryData :: rest => negb running && reads_while_stopped running rest
  | e :: rest => reads_while_stopped (acquiring running [e]) rest
  end.

(** [c], started in acquisition state [b], reads data only while stopped
    and, when it returns, leaves the oscilloscope in state [b']. *)
Definition stops_to_read {A} (b : bool) (c : M trace A) (b' : bool) : Prop :=
  forall tr, exists evs,
    snd (c tr) = tr ++ evs /\
    reads_while_stopped b evs = true /\
    (forall a, fst (c tr) = Ok a -> acquiring b evs = b').

(** ** The consumers of the generator: freqresp and freqresp_cli *)

(** Lines 80-81 and 94 of [freqresp]: [data.append(row)] for every row of
    the generator, then [pandas.DataFrame(data)], here the list of rows.
    The notebook display of lines 83-92 and 96-98 produces no value and
    is left out. *)
Fixpoint collect_rows {W} (g : gen row W) (data : list row)
  : outcome (list row) * W :=
  match g with
  | Yield r rest => collect_rows rest (data ++ [r])
  | Return w => (Ok data, w)
  | Throw e w => (Raise e, w)
  end.

(** [freqresp(freq_min, freq_max, log_stepsdec, lin_interval, measure,
    delay, autorange)]: [measure] is called with the keyword arguments
    [delay] and [autorange]. *)
Definition freqresp {W} (sigfig_round : R -> Z -> R)
           (measure : R -> R -> bool -> M W (R * R))
           (freq_min freq_max : R) (log_stepsdec : Z)
           (lin_interval : option R) (delay : R) (autorange : bool) (w : W)
  : outcome (list row) * W :=
  collect_rows
    (freqresp_iter sigfig_round W (fun freq => measure freq delay autorange)
                   freq_min freq_max log_stepsdec lin_interval w)
    [].

(** A line written by [click.echo]: the header, or the four values of a
    row that are formatted with "%15.3f  %15.9f  %15.3f  %15.3f". *)
Inductive line : Type :=
| Header
| DataLine (freq : R) (amplitude dB : xfloat) (phase : R).

Definition line_of (r : xrow) : line :=
  DataLine (xrow_freq r) (xrow_amplitude r) (xrow_dB r) (xrow_phase r).

(** Lines 113-115 of [freqresp_cli]: one [click.echo] per row. *)
Fixpoint echo_rows {W} (g : gen xrow W) (out : list line)
  : outcome unit * W * list line :=
  match g with
  | Yield r rest => echo_rows rest (out ++ [line_of r])
  | Return w => (Ok tt, w, out)
  | Throw e w => (Raise e, w, out)
  end.

(** [freqresp_cli]: the header, then the sweep with the default
    measurement and the options [delay] and [autorange]. *)
Definition freqresp_cli (sigfig_round : R -> Z -> R) (sc : scope)
           (freq_min freq_max : R) (log_stepsdec : Z)
           (lin_interval : option R) (delay : R) (autorange : bool)
           (tr : trace) : outcome unit * trace * list line :=
  echo_rows
    (freqresp_iter_x sigfig_round trace
                     (default_measure sc lin_interval delay autorange)
                     freq_min freq_max log_stepsdec lin_interval tr)
    [Header].

(** ** DS1054Z.autoscale and DS1054Z.wait_stopped: the polling loops *)

(** What the two methods send and how long they sleep. *)
Inductive poll_event : Type :=
| WriteAutoscale                 (* port.write("AUTOSCALE") *)
| QueryOpc                       (* port.query("*OPC?") *)
| QueryTrigStat                  (* port.query("TRIG:STAT?") *)
| PollSleep (seconds : R).       (* time.sleep *)

(** [for i in range(n): if <test on the answer to q>: stop; sleep(0.5)].
    [ready tr] tells whether the answer to a query sent after the events
    [tr] passes the test (['1' in answer], ['STOP' in answer]). *)
Fixpoint poll (q : poll_event) (ready : list poll_event -> bool) (n : nat)
         (tr : list poll_event) : list poll_event :=
  match n with
  | O => tr
  | S m =>
      if ready tr then tr ++ [q]
      else poll q ready m ((tr ++ [q]) ++ [PollSleep 0.5])
  end.

(** Lines 80-87; the [break] leads to the final [time.sleep(1)]. *)
Definition autoscale (opc_has_1 : list poll_event -> bool)
           (tr : list poll_event) : list poll_event :=
  poll QueryOpc opc_has_1 20 (tr ++ [WriteAutoscale]) ++ [PollSleep 1].

(** Lines 101-105; the method returns [None] on both ways out. *)
Definition wait_stopped (stat_has_stop : list poll_event -> bool)
           (tr : list poll_event) : list poll_event :=
  poll QueryTrigStat stat_has_stop 20 tr.

(** [k] unsuccessful polls: the query, then the sleep of 0.5 s. *)
Fixpoint cycles (q : poll_event) (k : nat) : list poll_event :=
  match k with
  | O => []
  | S j => q :: PollSleep 0.5 :: cycles q j
  end.

(** The total time slept during the events. *)
Fixpoint slept (evs : list poll_event) : R :=
  match evs with
  | [] => 0
  | PollSleep s :: rest => s + slept rest
  | _ :: rest => slept rest
  end.

(** ** Lists in steps of at most 2.5 *)

(** [x :: tl] is increasing and each element is at most 2.5 times the one
    before it, as in the 1-2-5 sequences of the oscilloscope. *)
Fixpoint steps_125 (x : R) (tl : list R) : Prop :=
  match tl with
  | [] => True
  | y :: rest => x < y <= 2.5 * x /\ steps_125 y rest
  end.

(** The frequencies the signal generator was set to, in order. *)
Fixpoint awg_frequencies (tr : trace) : list R :=
  match tr with
  | [] => []
  | AwgSetFrequency _ freq :: rest => freq :: awg_frequencies rest
  | _ :: rest => awg_frequencies rest
  end.

(** The event does not set the signal generator. *)
Definition no_awg_command (e : event) : Prop :=
  forall channel freq, e <> AwgSetFrequency channel freq.

(** * Properties *)

(** ** Arithmetic helpers *)

Lemma fmod_bounds (a b : R) : 0 < b -> 0 <= Py.fmod a b < b.
Proof.
  intros Hb. unfold Py.fmod.
  pose proof (Zfloor_bound (a / b)) as [Hlo Hhi].
  assert (Ha : a = b * (a / b)) by (field; lra).
  split.
  - assert (b * IZR (Zfloor (a / b)) <= b * (a / b))
      by (apply Rmult_le_compat_l; lra).
    lra.
  - assert (b * (a / b) < b * (IZR (Zfloor (a / b)) + 1))
      by (apply Rmult_lt_compat_l; lra).
    lra.
Qed.

Lemma fmod_eq (a b : R) (k : Z) :
  0 < b -> IZR k * b <= a < (IZR k + 1) * b -> Py.fmod a b = a - b * IZR k.
Proof.
  intros Hb [Hlo Hhi]. unfold Py.fmod.
  replace (Zfloor (a / b)) with k; [reflexivity|].
  symmetry. apply Zfloor_eq. split.
  - apply Rmult_le_reg_r with b; [lra|].
    replace (a / b * b) with a by (field; lra). lra.
  - apply Rmult_lt_reg_r with b; [lra|].
    replace (a / b * b) with a by (field; lra). lra.
Qed.

(** ** Phase difference (measure_response, line 39) *)

Lemma phase_delta_170 : phase_delta 170 (-170) = -20.
Proof.
  unfold phase_delta. rewrite (fmod_eq _ _ 1%Z); lra.
Qed.

Lemma phase_delta_0_180 : phase_delta 0 180 = -180.
Proof.
  unfold phase_delta. rewrite (fmod_eq _ _ 0%Z); lra.
Qed.

(** C2, as stated, fails: for [p1 = 170], [p2 = -170] the computed delta
    is not 20, and for [p1 = 0], [p2 = 180] the computed delta is -180,
    outside (-180, 180]. *)
Lemma phase_delta_not_20_nor_half_open_above :
  phase_delta 170 (-170) <> 20 /\
  ~ (-180 < phase_delta 0 180 <= 180).
Proof.
  rewrite phase_delta_170, phase_delta_0_180. split; lra.
Qed.

(** C2, amended: the phase difference is
    [((p1 - p2) + 180) mod 360 - 180], it differs from [p1 - p2] by a
    whole number of turns, it lies in [-180, 180), and for [p1 = 170],
    [p2 = -170] it is -20. *)
Theorem phase_delta_wraps (p1 p2 : R) :
  phase_delta p1 p2 = Py.fmod ((p1 - p2) + 180) 360 - 180 /\
  (exists k : Z, phase_delta p1 p2 = (p1 - p2) - 360 * IZR k) /\
  -180 <= phase_delta p1 p2 < 180 /\
  phase_delta 170 (-170) = -20.
Proof.
  split; [reflexivity|]. split; [|split].
  - exists (Zfloor ((p1 - p2 + 180) / 360)).
    unfold phase_delta, Py.fmod. lra.
  - pose proof (fmod_bounds (p1 - p2 + 180) 360 ltac:(lra)).
    unfold phase_delta. lra.
  - exact phase_delta_170.
Qed.

(** ** Rounding a requested scale to the instrument's list *)

Section MinKey.

Context {A : Type} (key : A -> R).

Let pick (best y : A) : A := if Rlt_dec (key y) (key best) then y else best.

Lemma fold_pick_spec (tl : list A) (x : A) :
  In (fold_left pick tl x) (x :: tl) /\
  forall y, In y (x :: tl) -> key (fold_left pick tl x) <= key y.
Proof.
  revert x. induction tl as [|z tl IH]; intros x; simpl.
  - split; [now left|]. intros y [<-|[]]. lra.
  - destruct (IH (pick x z)) as [Hin Hmin]. split.
    + destruct Hin as [Heq|Hin]; [|now right; right].
      rewrite <- Heq. unfold pick. destruct Rlt_dec; [right; now left|now left].
    + intros y Hy.
      assert (Hp : key (pick x z) <= key x /\ key (pick x z) <= key z)
        by (unfold pick; destruct Rlt_dec; lra).
      pose proof (Hmin (pick x z) (or_introl eq_refl)) as H0.
      destruct Hy as [<-|[<-|Hy]]; [lra|lra|].
      apply Hmin. now right.
Qed.

Lemma min_key_spec (l : list A) (v : A) :
  Py.min_key key l = Ok v ->
  In v l /\ forall y, In y l -> key v <= key y.
Proof.
  destruct l as [|x tl]; simpl; [discriminate|].
  intros [= <-]. apply fold_pick_spec.
Qed.

Lemma min_key_total (l : list A) :
  l <> [] -> exists v, Py.min_key key l = Ok v.
Proof.
  destruct l as [|x tl]; [congruence|]. intros _. simpl. eauto.
Qed.

End MinKey.

Lemma nearest_spec (values : list R) (target v : R) :
  DS1054Z.nearest values target = Ok v ->
  In v values /\ forall x, In x values -> Rabs (v - target) <= Rabs (x - target).
Proof. apply (min_key_spec (fun x => Rabs (x - target))). Qed.

Lemma vertical_scales_pos (x : R) : In x DS1054Z.vertical_scales -> 0 < x.
Proof.
  unfold DS1054Z.vertical_scales. simpl.
  intros H. repeat (destruct H as [<-|H]; [lra|]). destruct H.
Qed.

Lemma timebases_pos (x : R) : In x DS1054Z.timebases -> 0 < x.
Proof.
  unfold DS1054Z.timebases. simpl.
  intros H. repeat (destruct H as [<-|H]; [lra|]). destruct H.
Qed.

Lemma nearest_total (values : list R) (target : R) :
  values <> [] -> exists v, DS1054Z.nearest values target = Ok v.
Proof. apply (min_key_total (fun x => Rabs (x - target))). Qed.

(** Finds the nearest element of a concrete list: it is a member, and no
    other member is as close as the candidate [c]. *)
Ltac nearest_is c :=
  match goal with
  | |- DS1054Z.nearest ?l ?t = Ok _ =>
      let v := fresh "v" in
      let Hv := fresh "Hv" in
      let Hin := fresh "Hin" in
      let Hmin := fresh "Hmin" in
      destruct (nearest_total l t) as [v Hv]; [discriminate|];
      rewrite Hv; f_equal;
      destruct (nearest_spec _ _ _ Hv) as [Hin Hmin];
      assert (Hc : In c l) by (repeat first [left; reflexivity | right]);
      specialize (Hmin c Hc); clear Hv Hc;
      revert Hmin; unfold Rabs; repeat destruct Rcase_abs; intros Hmin;
      simpl in Hin;
      repeat (destruct Hin as [Hin|Hin]; [lra|]);
      destruct Hin
  end.

Lemma nearest_scale_of_0 : DS1054Z.nearest DS1054Z.vertical_scales 0 = Ok 1e-2.
Proof. unfold DS1054Z.vertical_scales. nearest_is 1e-2. Qed.

Lemma set_channel_scale_rounds (channel : Z) (scale : R) (tr : trace) :
  exists v,
    DS1054Z.nearest DS1054Z.vertical_scales scale = Ok v /\
    DS1054Z.set_channel_scale channel scale true tr
    = (Ok tt, tr ++ [Write (CHAN_SCAL channel v)]).
Proof.
  destruct (nearest_total DS1054Z.vertical_scales scale) as [v Hv];
    [discriminate|].
  exists v. split; [exact Hv|].
  unfold DS1054Z.set_channel_scale, bind, lift, DS1054Z.write, emit.
  rewrite Hv. reflexivity.
Qed.

Lemma set_timebase_rounds (timebase : R) (tr : trace) :
  exists v,
    DS1054Z.nearest DS1054Z.timebases timebase = Ok v /\
    DS1054Z.set_timebase timebase true tr
    = (Ok tt, tr ++ [Write (TIM_SCAL v)]).
Proof.
  destruct (nearest_total DS1054Z.timebases timebase) as [v Hv];
    [discriminate|].
  exists v. split; [exact Hv|].
  unfold DS1054Z.set_timebase, bind, lift, DS1054Z.write, emit.
  rewrite Hv. reflexivity.
Qed.

(** C10: with rounding enabled, [set_channel_scale] sends the element of
    [vertical_scales] = 0.01, 0.02, 0.05, ..., 50, 100 nearest to the
    requested scale and [set_timebase] the element of [timebases]
    nearest to the requested timebase; the value sent is positive, and a
    requested scale of 0 sends 0.01. *)
Theorem rounded_scale_commands (channel : Z) (s t : R) (tr : trace) :
  DS1054Z.vertical_scales
  = [0.01; 0.02; 0.05; 0.1; 0.2; 0.5; 1; 2; 5; 10; 20; 50; 100] /\
  (exists v,
      DS1054Z.set_channel_scale channel s true tr
      = (Ok tt, tr ++ [Write (CHAN_SCAL channel v)]) /\
      In v DS1054Z.vertical_scales /\
      (forall x, In x DS1054Z.vertical_scales -> Rabs (v - s) <= Rabs (x - s)) /\
      0 < v) /\
  (exists v,
      DS1054Z.set_timebase t true tr = (Ok tt, tr ++ [Write (TIM_SCAL v)]) /\
      In v DS1054Z.timebases /\
      (forall x, In x DS1054Z.timebases -> Rabs (v - t) <= Rabs (x - t)) /\
      0 < v) /\
  DS1054Z.set_channel_scale channel 0 true tr
  = (Ok tt, tr ++ [Write (CHAN_SCAL channel 0.01)]).
Proof.
  split; [|split; [|split]].
  - unfold DS1054Z.vertical_scales.
    repeat (f_equal; try lra).
  - destruct (set_channel_scale_rounds channel s tr) as [v [Hv Hrun]].
    destruct (nearest_spec _ _ _ Hv) as [Hin Hmin].
    exists v. repeat split; auto using vertical_scales_pos.
  - destruct (set_timebase_rounds t tr) as [v [Hv Hrun]].
    destruct (nearest_spec _ _ _ Hv) as [Hin Hmin].
    exists v. repeat split; auto using timebases_pos.
  - destruct (set_channel_scale_rounds channel 0 tr) as [v [Hv Hrun]].
    rewrite nearest_scale_of_0 in Hv. injection Hv as <-.
    rewrite Hrun. reflexivity.
Qed.

(** ** The single-frequency DFT (DS1054Z.dft_at_freq) *)

Lemma samples_per_period_defined (freq sample_interval : R) :
  freq <> 0 -> sample_interval <> 0 ->
  samples_per_period freq sample_interval
  = Ok (Py.round (1 / (freq * sample_interval))).
Proof.
  intros Hf Hs. unfold samples_per_period, Py.truediv.
  destruct (Req_dec_T freq 0) as [?|_]; [contradiction|]. simpl.
  destruct (Req_dec_T sample_interval 0) as [?|_]; [contradiction|]. simpl.
  do 2 f_equal. field. split; assumption.
Qed.

Lemma tau_j_exp (t : R) :
  Cx.exp (Cx.mul (Cx.mul (Cx.of_R Np.tau) Cx.j) (Cx.of_R t))
  = unit_exp t.
Proof.
  unfold Cx.exp, Cx.mul, Cx.of_R, Cx.j, Cx.re, Cx.im, Np.tau, unit_exp. simpl.
  match goal with
  | |- (Rtrigo_def.exp ?a * cos ?b, _) = _ =>
      replace a with 0 by ring; replace b with (2 * PI * t) by ring
  end.
  rewrite exp_0. f_equal; ring.
Qed.

Lemma unit_exp_abs (t : R) : Cx.abs (unit_exp t) = 1.
Proof.
  unfold Cx.abs, unit_exp, Cx.re, Cx.im. simpl.
  pose proof (sin2_cos2 (2 * PI * t)) as H. unfold Rsqr in H.
  replace (cos (2 * PI * t) * cos (2 * PI * t) + sin (2 * PI * t) * sin (2 * PI * t))
    with 1 by lra.
  apply sqrt_1.
Qed.

Lemma big_sum_ext (n : nat) (f g : nat -> R) :
  (forall k, (k < n)%nat -> f k = g k) -> big_sum n f = big_sum n g.
Proof.
  induction n as [|n IH]; intros H; simpl; [reflexivity|].
  rewrite IH by (intros; apply H; lia). rewrite H by lia. reflexivity.
Qed.

Lemma cx_sum_snoc (l : list Cx.C) (z : Cx.C) :
  Cx.sum (l ++ [z]) = Cx.add (Cx.sum l) z.
Proof.
  induction l as [|a l IH]; unfold Cx.sum in *; simpl.
  - unfold Cx.add, Cx.re, Cx.im; simpl. f_equal; ring.
  - rewrite IH. unfold Cx.add, Cx.re, Cx.im; simpl. f_equal; ring.
Qed.

Lemma cx_sum_seq (n : nat) (f : nat -> Cx.C) :
  Cx.sum (map f (seq 0 n))
  = (big_sum n (fun k => Cx.re (f k)), big_sum n (fun k => Cx.im (f k))).
Proof.
  induction n as [|n IH]; [reflexivity|].
  rewrite seq_S, map_app. cbn [map Nat.add].
  rewrite cx_sum_snoc, IH. reflexivity.
Qed.

Lemma multiply_seq (h : nat -> Cx.C) (n : nat) :
  forall (data : list R) (s : nat),
    (n <= length data)%nat ->
    Np.multiply (map h (seq s n)) (firstn n data)
    = map (fun k => Cx.mul (h k) (Cx.of_R (nth (k - s) data 0))) (seq s n).
Proof.
  unfold Np.multiply.
  induction n as [|n IH]; intros data s Hlen; [reflexivity|].
  destruct data as [|x data]; [simpl in Hlen; lia|].
  simpl in Hlen. simpl. rewrite Nat.sub_diag. f_equal.
  rewrite IH by lia. apply map_ext_in. intros k Hk. apply in_seq in Hk.
  replace (k - s)%nat with (S (k - S s)) by lia. reflexivity.
Qed.

(** The coefficient computed with numpy's array operations is the
    average of the specification. *)
Lemma dft_coefficient_spec (data : list R) (spp : Z) :
  (0 <= spp)%Z ->
  let periods := (Z.of_nat (length data) / spp)%Z in
  dft_coefficient data periods (periods * spp) = spec_coefficient data spp.
Proof.
  intros Hspp periods.
  assert (Hper : (0 <= periods)%Z).
  { unfold periods. destruct (Z.eq_dec spp 0) as [->|Hne].
    - rewrite Z.div_0_r. lia.
    - apply Z.div_pos; lia. }
  assert (Hle : (periods * spp <= Z.of_nat (length data))%Z).
  { unfold periods. destruct (Z.eq_dec spp 0) as [->|Hne]; [lia|].
    rewrite Z.mul_comm. apply Z.mul_div_le. lia. }
  assert (Hn : (Z.to_nat (periods * spp) <= length data)%nat) by lia.
  unfold dft_coefficient, spec_coefficient. fold periods.
  set (n := Z.to_nat (periods * spp)) in *.
  assert (HN : IZR (periods * spp) = INR n).
  { unfold n. rewrite INR_IZR_INZ, Z2Nat.id by lia. reflexivity. }
  unfold Np.linspace. rewrite map_map.
  rewrite (map_ext _ (fun k => unit_exp (turns periods n k))).
  2:{ intros k. rewrite tau_j_exp. f_equal. unfold turns, Rdiv. ring. }
  rewrite multiply_seq by exact Hn.
  rewrite cx_sum_seq, HN. unfold Cx.div_real. cbn [Cx.re Cx.im fst snd].
  f_equal; f_equal; apply big_sum_ext; intros k _; rewrite Nat.sub_0_r;
    unfold Cx.mul, Cx.of_R; cbn [Cx.re Cx.im fst snd]; ring.
Qed.

Lemma atan2_bounds (y x : R) : - PI < Cx.atan2 y x <= PI.
Proof.
  pose proof PI_RGT_0 as HPI. unfold Cx.atan2.
  destruct (Rlt_dec 0 x) as [Hx|Hx].
  - pose proof (atan_bound (y / x)). lra.
  - destruct (Rlt_dec x 0) as [Hx'|Hx'].
    + destruct (Rle_dec 0 y) as [Hy|Hy].
      * assert (y / x <= 0).
        { unfold Rdiv. pose proof (Rinv_lt_0_compat x Hx'). nra. }
        pose proof (atan_bound (y / x)).
        assert (atan (y / x) <= 0).
        { destruct (Req_dec (y / x) 0) as [->|Hne]; [rewrite atan_0; lra|].
          left. rewrite <- atan_0. apply atan_increasing. lra. }
        lra.
      * assert (0 < y / x).
        { unfold Rdiv. pose proof (Rinv_lt_0_compat x Hx'). nra. }
        pose proof (atan_bound (y / x)).
        assert (0 < atan (y / x)).
        { rewrite <- atan_0. apply atan_increasing. lra. }
        lra.
    + destruct (Rlt_dec 0 y); [lra|]. destruct (Rlt_dec y 0); lra.
Qed.

Lemma degrees_phase_bounds (z : Cx.C) :
  -180 < Np.degrees (Cx.phase z) <= 180.
Proof.
  pose proof PI_RGT_0 as HPI.
  pose proof (atan2_bounds (Cx.im z) (Cx.re z)) as [Hlo Hhi].
  unfold Np.degrees, Cx.phase. set (a := Cx.atan2 _ _) in *.
  split.
  - apply Rmult_lt_reg_r with PI; [exact HPI|].
    replace (a * 180 / PI * PI) with (a * 180) by (field; lra). lra.
  - apply Rmult_le_reg_r with PI; [exact HPI|].
    replace (a * 180 / PI * PI) with (a * 180) by (field; lra). lra.
Qed.

(** [Cx.phase] is the angle of its argument: polar form. *)
Lemma atan2_polar (y x : R) :
  x = sqrt (x * x + y * y) * cos (Cx.atan2 y x) /\
  y = sqrt (x * x + y * y) * sin (Cx.atan2 y x).
Proof.
  unfold Cx.atan2.
  destruct (Rlt_dec 0 x) as [Hx|Hx]; [|destruct (Rlt_dec x 0) as [Hx'|Hx']].
  - assert (Hs : 0 < sqrt (1 + (y / x)²)).
    { apply sqrt_lt_R0. unfold Rsqr. nra. }
    assert (Hr : sqrt (x * x + y * y) = x * sqrt (1 + (y / x)²)).
    { replace (x * x + y * y) with ((x * x) * (1 + (y / x)²))
        by (unfold Rsqr; field; lra).
      rewrite sqrt_mult by (unfold Rsqr; nra).
      rewrite sqrt_square by lra. reflexivity. }
    rewrite Hr, cos_atan, sin_atan.
    set (s := sqrt (1 + (y / x)²)) in *. clearbody s.
    split; field; lra.
  - assert (Hs : 0 < sqrt (1 + (y / x)²)).
    { apply sqrt_lt_R0. unfold Rsqr. nra. }
    assert (Hr : sqrt (x * x + y * y) = - x * sqrt (1 + (y / x)²)).
    { replace (x * x + y * y) with ((- x * - x) * (1 + (y / x)²))
        by (unfold Rsqr; field; lra).
      rewrite sqrt_mult by (unfold Rsqr; nra).
      rewrite sqrt_square by lra. reflexivity. }
    rewrite Hr.
    destruct (Rle_dec 0 y) as [Hy|Hy].
    + rewrite neg_cos, neg_sin, cos_atan, sin_atan.
      set (s := sqrt (1 + (y / x)²)) in *. clearbody s.
      split; field; lra.
    + rewrite cos_minus, sin_minus, cos_PI, sin_PI, cos_atan, sin_atan.
      set (s := sqrt (1 + (y / x)²)) in *. clearbody s.
      split; field; lra.
  - assert (x = 0) by lra. subst x.
    replace (0 * 0 + y * y) with (y * y) by ring.
    destruct (Rlt_dec 0 y) as [Hy|Hy]; [|destruct (Rlt_dec y 0) as [Hy'|Hy']].
    + rewrite sqrt_square, cos_PI2, sin_PI2 by lra. lra.
    + replace (y * y) with (- y * - y) by ring.
      rewrite sqrt_square, cos_neg, sin_neg, cos_PI2, sin_PI2 by lra. lra.
    + assert (y = 0) by lra. subst y.
      replace (0 * 0) with 0 by ring. rewrite sqrt_0. lra.
Qed.

Lemma phase_polar (z : Cx.C) :
  z = (Cx.abs z * cos (Cx.phase z), Cx.abs z * sin (Cx.phase z)).
Proof.
  destruct z as [x y]. unfold Cx.abs, Cx.phase, Cx.re, Cx.im. simpl.
  destruct (atan2_polar y x) as [H1 H2]. rewrite <- H1, <- H2. reflexivity.
Qed.

Lemma dft_calc_ok (data : list R) (sample_interval freq : R) (spp : Z) :
  samples_per_period freq sample_interval = Ok spp ->
  (5 <= spp)%Z -> (1 <= Z.of_nat (length data) / spp)%Z ->
  dft_calc data sample_interval freq
  = Ok (4 * Cx.abs (spec_coefficient data spp),
        Np.degrees (Cx.phase (spec_coefficient data spp))).
Proof.
  intros Hspp H5 H1. unfold dft_calc. rewrite Hspp. simpl.
  destruct (Z.ltb_spec spp 5); [lia|].
  destruct (Z.ltb_spec (Z.of_nat (length data) / spp) 1); [lia|].
  rewrite dft_coefficient_spec by lia. reflexivity.
Qed.

(** C1: for [sample_interval > 0] and [target_freq > 0] with at least 5
    samples per period and at least one whole period in the buffer, the
    extractor returns amplitude 4 |c| and phase = the angle of c in
    degrees, within (-180, 180], where c is the average over the first
    [periods * samples_per_period] samples of the sample times a
    unit-magnitude exponential whose angle grows linearly from 0 to
    [periods] turns.  The unit is the degree: [phase * pi / 180] is the
    angle of c in radians, that is, c = |c| (cos, sin) of it, and 180
    times the angle in radians is [phase * pi]. *)
Theorem dft_calc_amplitude_phase (data : list R) (sample_interval freq : R) :
  0 < sample_interval -> 0 < freq ->
  let spp := Py.round (1 / (freq * sample_interval)) in
  let periods := (Z.of_nat (length data) / spp)%Z in
  let n := Z.to_nat (periods * spp) in
  let c := spec_coefficient data spp in
  (5 <= spp)%Z -> (1 <= periods)%Z ->
  exists amplitude phase,
    dft_calc data sample_interval freq = Ok (amplitude, phase) /\
    amplitude = 4 * Cx.abs c /\
    phase = Np.degrees (Cx.phase c) /\
    -180 < phase <= 180 /\
    c = (Cx.abs c * cos (Cx.phase c), Cx.abs c * sin (Cx.phase c)) /\
    c = (big_sum n (fun k => nth k data 0 * Cx.re (unit_exp (turns periods n k)))
         / INR n,
         big_sum n (fun k => nth k data 0 * Cx.im (unit_exp (turns periods n k)))
         / INR n) /\
    (forall k, Cx.abs (unit_exp (turns periods n k)) = 1) /\
    turns periods n 0 = 0 /\
    turns periods n n = IZR periods /\
    (forall k, turns periods n (S k) - turns periods n k = IZR periods / INR n) /\
    phase * PI = 180 * Cx.phase c /\
    - PI < phase * PI / 180 <= PI /\
    c = (Cx.abs c * cos (phase * PI / 180),
         Cx.abs c * sin (phase * PI / 180)).
Proof.
  intros Hsi Hf spp periods n c H5 H1.
  exists (4 * Cx.abs c), (Np.degrees (Cx.phase c)).
  assert (Hn : (0 < n)%nat) by (unfold n; nia).
  assert (HnR : 0 < INR n) by (apply lt_0_INR; exact Hn).
  pose proof PI_RGT_0 as HPI.
  assert (Hrad : Np.degrees (Cx.phase c) * PI / 180 = Cx.phase c)
    by (unfold Np.degrees; field; lra).
  rewrite Hrad.
  repeat split.
  - apply dft_calc_ok; try assumption.
    apply samples_per_period_defined; lra.
  - apply degrees_phase_bounds.
  - apply degrees_phase_bounds.
  - apply phase_polar.
  - intros k. apply unit_exp_abs.
  - unfold turns. simpl. unfold Rdiv. ring.
  - unfold turns. field. lra.
  - intros k. unfold turns. rewrite S_INR. field. lra.
  - unfold Np.degrees. field. lra.
  - apply atan2_bounds.
  - apply atan2_bounds.
  - apply phase_polar.
Qed.

(** The hypotheses of C1 hold for 10 samples at 5 samples per period. *)
Lemma dft_calc_amplitude_phase_witness :
  exists amplitude phase,
    dft_calc [0; 1; 0; -1; 0; 0; 1; 0; -1; 0] 1 (1 / 5) = Ok (amplitude, phase) /\
    -180 < phase <= 180.
Proof.
  assert (Hr : Py.round (1 / (1 / 5 * 1)) = 5%Z).
  { unfold Py.round. replace (1 / (1 / 5 * 1)) with (IZR 5) by (simpl; lra).
    rewrite ZfloorZ. destruct (Rlt_dec (5 - 5) (1 / 2)); [reflexivity|lra]. }
  destruct (dft_calc_amplitude_phase [0; 1; 0; -1; 0; 0; 1; 0; -1; 0] 1 (1 / 5))
    as (a & p & H & _ & _ & Hb & _); try lra.
  - rewrite Hr. lia.
  - rewrite Hr. cbn [length]. now vm_compute.
  - exists a, p. split; assumption.
Defined.

Lemma dft_calc_zero_division (data : list R) (sample_interval freq : R) :
  freq = 0 \/ sample_interval = 0 ->
  dft_calc data sample_interval freq = Raise ZeroDivisionError.
Proof.
  intros H. unfold dft_calc, samples_per_period, Py.truediv.
  destruct (Req_dec_T freq 0) as [?|Hf]; [reflexivity|]. simpl.
  destruct (Req_dec_T sample_interval 0) as [?|Hs]; [reflexivity|].
  destruct H; contradiction.
Qed.

Lemma dft_calc_cases (data : list R) (sample_interval freq : R) (spp : Z) :
  samples_per_period freq sample_interval = Ok spp ->
  dft_calc data sample_interval freq
  = if (spp <? 5)%Z
    then Raise (Exception_too_large_timestep sample_interval freq)
    else if (Z.of_nat (length data) / spp <? 1)%Z
         then Raise (Exception_too_small_timestep sample_interval freq)
         else Ok (4 * Cx.abs (spec_coefficient data spp),
                  Np.degrees (Cx.phase (spec_coefficient data spp))).
Proof.
  intros Hspp.
  destruct (Z.ltb_spec spp 5) as [H5|H5].
  - unfold dft_calc. rewrite Hspp. simpl.
    destruct (Z.ltb_spec spp 5); [reflexivity|lia].
  - destruct (Z.ltb_spec (Z.of_nat (length data) / spp) 1) as [H1|H1].
    + unfold dft_calc. rewrite Hspp. simpl.
      destruct (Z.ltb_spec spp 5); [lia|].
      destruct (Z.ltb_spec (Z.of_nat (length data) / spp) 1); [reflexivity|lia].
    + apply dft_calc_ok; assumption.
Qed.

(** C3: for a non-zero frequency and sample interval, with
    [samples_per_period = round(1 / (target_freq * sample_interval))]:
    the extractor raises "too large timestep" (InsufficientResolution)
    exactly when [samples_per_period < 5]; given [samples_per_period >= 5]
    it raises "too small timestep" (InsufficientDuration) exactly when
    [periods = len(samples) // samples_per_period < 1]; in every other
    case it returns an (amplitude, phase) pair, and it raises nothing
    else. *)
Theorem dft_calc_failures (data : list R) (sample_interval freq : R) :
  sample_interval <> 0 -> freq <> 0 ->
  let spp := Py.round (1 / (freq * sample_interval)) in
  let periods := (Z.of_nat (length data) / spp)%Z in
  (dft_calc data sample_interval freq
   = Raise (Exception_too_large_timestep sample_interval freq)
   <-> (spp < 5)%Z) /\
  ((5 <= spp)%Z ->
   (dft_calc data sample_interval freq
    = Raise (Exception_too_small_timestep sample_interval freq)
    <-> (periods < 1)%Z)) /\
  ((5 <= spp)%Z -> (1 <= periods)%Z ->
   exists amplitude phase,
     dft_calc data sample_interval freq = Ok (amplitude, phase)) /\
  (forall e, dft_calc data sample_interval freq = Raise e ->
             e = Exception_too_large_timestep sample_interval freq \/
             e = Exception_too_small_timestep sample_interval freq).
Proof.
  intros Hs Hf spp periods.
  pose proof (samples_per_period_defined freq sample_interval Hf Hs) as Hspp.
  rewrite (dft_calc_cases _ _ _ _ Hspp). fold spp. fold periods.
  destruct (Z.ltb_spec spp 5) as [H5|H5];
    [|destruct (Z.ltb_spec periods 1) as [H1|H1]].
  - split; [tauto|]. split; [intros; lia|]. split; [intros; lia|].
    intros e [= <-]. now left.
  - split; [split; [discriminate|lia]|].
    split; [tauto|]. split; [intros; lia|].
    intros e [= <-]. now right.
  - split; [split; [discriminate|lia]|].
    split; [intros _; split; [discriminate|lia]|].
    split; [eauto|]. discriminate.
Qed.

(** Two samples at 5 samples per period hold no whole period. *)
Lemma dft_calc_failures_witness :
  dft_calc [0; 1] 1 (1 / 5) = Raise (Exception_too_small_timestep 1 (1 / 5)).
Proof.
  assert (Hr : Py.round (1 / (1 / 5 * 1)) = 5%Z).
  { unfold Py.round. replace (1 / (1 / 5 * 1)) with (IZR 5) by (simpl; lra).
    rewrite ZfloorZ. destruct (Rlt_dec (5 - 5) (1 / 2)); [reflexivity|lra]. }
  destruct (dft_calc_failures [0; 1] 1 (1 / 5)) as (_ & H & _); try lra.
  rewrite Hr in H. apply H; [lia|]. cbn [length]. now vm_compute.
Defined.

(** ** The sweep loop (freqresp_iter, lines 56-61) *)

Section SweepFacts.

Context {W : Type} (measure : R -> M W (R * R)).

Lemma sweep_rows_step_ok (freq a p : R) (rest : list R) (w w' : W) :
  measure freq w = (Ok (a, p), w') -> 0 < a ->
  sweep_rows W measure (freq :: rest) w
  = Yield {| row_freq := freq; row_amplitude := a;
             row_dB := 10 * (ln a / ln 10); row_phase := p |}
          (sweep_rows W measure rest w').
Proof.
  intros Hm Ha. simpl. rewrite Hm. unfold Py.log10.
  destruct (Rlt_dec 0 a); [reflexivity|contradiction].
Qed.

Lemma sweep_rows_step_raise (freq : R) (rest : list R) (w w' : W) (e : exn) :
  measure freq w = (Raise e, w') ->
  sweep_rows W measure (freq :: rest) w = Throw e w'.
Proof. intros Hm. simpl. rewrite Hm. reflexivity. Qed.

Lemma sweep_rows_step_domain (freq a p : R) (rest : list R) (w w' : W) :
  measure freq w = (Ok (a, p), w') -> a <= 0 ->
  sweep_rows W measure (freq :: rest) w = Throw ValueError_math_domain w'.
Proof.
  intros Hm Ha. simpl. rewrite Hm. unfold Py.log10.
  destruct (Rlt_dec 0 a); [lra|reflexivity].
Qed.

(** Every emitted row belongs to the frequency at its position, whether
    or not the sweep completes. *)
Lemma sweep_rows_prefix (freqs : list R) (w : W) :
  Forall2 (row_for measure)
          (firstn (length (rows_of (sweep_rows W measure freqs w))) freqs)
          (rows_of (sweep_rows W measure freqs w)).
Proof.
  revert w. induction freqs as [|freq rest IH]; intros w; simpl.
  - constructor.
  - destruct (measure freq w) as [[[a p]|e] w'] eqn:Hm; simpl; [|constructor].
    unfold Py.log10. destruct (Rlt_dec 0 a) as [Ha|Ha]; simpl; [|constructor].
    constructor; [|apply IH].
    unfold row_for; simpl. repeat split; eauto.
Qed.

(** A sweep that ends without exception has emitted one row per
    frequency. *)
Lemma sweep_rows_complete (freqs : list R) (w : W) :
  error_of (sweep_rows W measure freqs w) = None ->
  length (rows_of (sweep_rows W measure freqs w)) = length freqs.
Proof.
  revert w. induction freqs as [|freq rest IH]; intros w; simpl;
    [reflexivity|].
  destruct (measure freq w) as [[[a p]|e] w'] eqn:Hm; simpl; [|discriminate].
  unfold Py.log10. destruct (Rlt_dec 0 a) as [Ha|Ha]; simpl; [|discriminate].
  intros H. f_equal. apply IH. exact H.
Qed.

Lemma sweep_rows_all_ok (freqs : list R) :
  (forall freq w, In freq freqs ->
     exists a p w', measure freq w = (Ok (a, p), w') /\ 0 < a) ->
  forall w, error_of (sweep_rows W measure freqs w) = None.
Proof.
  induction freqs as [|freq rest IH]; intros Hok w; [reflexivity|].
  destruct (Hok freq w (or_introl eq_refl)) as (a & p & w' & Hm & Ha).
  rewrite (sweep_rows_step_ok _ _ _ _ _ _ Hm Ha). simpl.
  apply IH. intros f v Hf. apply Hok. now right.
Qed.

(** A sweep over [pre ++ rest] whose prefix completes continues from the
    state the prefix left. *)
Lemma sweep_rows_app (pre rest : list R) (w : W) :
  error_of (sweep_rows W measure pre w) = None ->
  rows_of (sweep_rows W measure (pre ++ rest) w)
  = rows_of (sweep_rows W measure pre w)
    ++ rows_of (sweep_rows W measure rest
                           (final_of (sweep_rows W measure pre w))) /\
  error_of (sweep_rows W measure (pre ++ rest) w)
  = error_of (sweep_rows W measure rest
                         (final_of (sweep_rows W measure pre w))) /\
  final_of (sweep_rows W measure (pre ++ rest) w)
  = final_of (sweep_rows W measure rest
                         (final_of (sweep_rows W measure pre w))).
Proof.
  revert w. induction pre as [|freq pre IH]; intros w; simpl.
  - intros _. repeat split.
  - destruct (measure freq w) as [[[a p]|e] w'] eqn:Hm; simpl; [|discriminate].
    unfold Py.log10. destruct (Rlt_dec 0 a) as [Ha|Ha]; simpl; [|discriminate].
    intros H. destruct (IH w' H) as (H1 & H2 & H3).
    rewrite H1, H2, H3. repeat split.
Qed.

End SweepFacts.

Lemma row_for_freqs {W} (measure : R -> M W (R * R)) (freqs : list R)
      (rows : list row) :
  Forall2 (row_for measure) freqs rows -> map row_freq rows = freqs.
Proof.
  induction 1 as [|f r fs rs Hr _ IH]; simpl; [reflexivity|].
  destruct Hr as [-> _]. now rewrite IH.
Qed.

Lemma log10_of_pow10 (n : nat) : ln (10 ^ n) / ln 10 = INR n.
Proof.
  assert (0 < ln 10) by (rewrite <- ln_1; apply ln_increasing; lra).
  rewrite ln_pow by lra. field. lra.
Qed.

Lemma stub_measure_rows :
  sweep_rows (list R) stub_measure [100; 200; 300] []
  = Yield {| row_freq := 100; row_amplitude := 1; row_dB := 0; row_phase := 0 |}
      (Yield {| row_freq := 200; row_amplitude := 10; row_dB := 10;
                row_phase := 90 |}
         (Yield {| row_freq := 300; row_amplitude := 100; row_dB := 20;
                   row_phase := -90 |}
            (Return [100; 200; 300]))).
Proof.
  assert (E1 : stub_measure 100 [] = (Ok (1, 0), [100])).
  { unfold stub_measure. destruct (Req_dec_T 100 100); [reflexivity|lra]. }
  assert (E2 : stub_measure 200 [100] = (Ok (10, 90), [100; 200])).
  { unfold stub_measure. destruct (Req_dec_T 200 100); [lra|].
    destruct (Req_dec_T 200 200); [reflexivity|lra]. }
  assert (E3 : stub_measure 300 [100; 200] = (Ok (100, -90), [100; 200; 300])).
  { unfold stub_measure. destruct (Req_dec_T 300 100); [lra|].
    destruct (Req_dec_T 300 200); [lra|reflexivity]. }
  rewrite (sweep_rows_step_ok _ _ _ _ _ _ _ E1) by lra.
  rewrite (sweep_rows_step_ok _ _ _ _ _ _ _ E2) by lra.
  rewrite (sweep_rows_step_ok _ _ _ _ _ _ _ E3) by lra.
  pose proof (log10_of_pow10 0) as L0. pose proof (log10_of_pow10 1) as L1.
  pose proof (log10_of_pow10 2) as L2. simpl in L0, L1, L2.
  replace (10 * 1) with 10 in L1 by ring.
  replace (10 * (10 * 1)) with 100 in L2 by ring.
  rewrite L0, L1, L2. simpl.
  repeat f_equal; ring.
Qed.

(** C6, as stated, fails: a measurement that succeeds on every point with
    amplitude ratio 0 makes the sweep over three frequencies end with
    ValueError (math domain error) and no row. *)
Lemma silent_measure_no_rows :
  (forall freq log, exists a p log',
      silent_measure freq log = (Ok (a, p), log')) /\
  rows_of (sweep_rows (list R) silent_measure [100; 200; 300] []) = [] /\
  error_of (sweep_rows (list R) silent_measure [100; 200; 300] [])
  = Some ValueError_math_domain.
Proof.
  split; [intros; unfold silent_measure; eauto|].
  rewrite (sweep_rows_step_domain silent_measure 100 0 0 _ [] [100]);
    [split; reflexivity|reflexivity|lra].
Qed.

(** C6, amended: for every frequency list and every measure function
    that succeeds on each point with a positive amplitude ratio, the
    sweep ends without exception and yields exactly one row per
    frequency, in the order of the list; each row holds the ratio and
    phase returned for its frequency and [dB = 10 * log10(ratio)].  A
    sweep over 100, 200, 300 Hz with the stub yields exactly three rows
    in that order. *)
Theorem sweep_one_row_per_frequency {W : Type} (measure : R -> M W (R * R))
        (freqs : list R) (w : W) :
  (forall freq v, In freq freqs ->
     exists a p v', measure freq v = (Ok (a, p), v') /\ 0 < a) ->
  error_of (sweep_rows W measure freqs w) = None /\
  length (rows_of (sweep_rows W measure freqs w)) = length freqs /\
  map row_freq (rows_of (sweep_rows W measure freqs w)) = freqs /\
  Forall2 (row_for measure) freqs (rows_of (sweep_rows W measure freqs w)) /\
  rows_of (sweep_rows (list R) stub_measure [100; 200; 300] [])
  = [ {| row_freq := 100; row_amplitude := 1; row_dB := 0; row_phase := 0 |};
      {| row_freq := 200; row_amplitude := 10; row_dB := 10; row_phase := 90 |};
      {| row_freq := 300; row_amplitude := 100; row_dB := 20;
         row_phase := -90 |} ].
Proof.
  intros Hok.
  pose proof (sweep_rows_all_ok measure freqs Hok w) as Hnone.
  pose proof (sweep_rows_complete measure freqs w Hnone) as Hlen.
  pose proof (sweep_rows_prefix measure freqs w) as Hrows.
  rewrite Hlen, firstn_all in Hrows.
  repeat split; try assumption.
  - apply (row_for_freqs measure). exact Hrows.
  - rewrite stub_measure_rows. reflexivity.
Qed.

(** The stub succeeds with a positive ratio at every frequency. *)
Lemma sweep_one_row_per_frequency_witness :
  length (rows_of (sweep_rows (list R) stub_measure [100; 200; 300] [])) = 3%nat.
Proof.
  refine (proj1 (proj2 (sweep_one_row_per_frequency stub_measure
                                                   [100; 200; 300] [] _))).
  intros freq v _. unfold stub_measure.
  destruct (Req_dec_T freq 100); [|destruct (Req_dec_T freq 200)];
    do 3 eexists; (split; [reflexivity|lra]).
Defined.

(** C7, as stated, fails: the exception that leaves the sweep is the one
    raised at the failing point, and it need not tell the frequency.
    Sweeps failing at different frequencies surface the same exception. *)
Lemma surfaced_error_without_frequency :
  ~ exists freq_of : exn -> R,
      forall freq e,
        error_of (sweep_rows (list R) lowcut_measure [freq] []) = Some e ->
        freq_of e = freq.
Proof.
  intros [freq_of H].
  assert (E : forall freq, freq < 1000 ->
            error_of (sweep_rows (list R) lowcut_measure [freq] [])
            = Some ValueError_empty_reduction).
  { intros freq Hf.
    rewrite (sweep_rows_step_raise lowcut_measure freq [] [] [freq]
                                   ValueError_empty_reduction); [reflexivity|].
    unfold lowcut_measure. destruct (Rlt_dec freq 1000); [reflexivity|lra]. }
  pose proof (H 100 _ (E 100 ltac:(lra))) as H1.
  pose proof (H 200 _ (E 200 ltac:(lra))) as H2.
  lra.
Qed.

(** C7, amended: if the rows for the frequencies before the k-th were
    emitted and the measure function raises [e] at the k-th frequency,
    the sweep ends there: the rows emitted are exactly those of the
    frequencies before the k-th, unchanged, one per frequency, no row is
    emitted for the failed point or after it, the exception that leaves
    the sweep is [e] itself, as the measure function raised it, and the
    measure function is not called again (the final state is the one the
    failing call left). *)
Theorem sweep_aborts_at_failure {W : Type} (measure : R -> M W (R * R))
        (pre post : list R) (freq : R) (w w' : W) (e : exn) :
  error_of (sweep_rows W measure pre w) = None ->
  measure freq (final_of (sweep_rows W measure pre w)) = (Raise e, w') ->
  rows_of (sweep_rows W measure (pre ++ freq :: post) w)
  = rows_of (sweep_rows W measure pre w) /\
  map row_freq (rows_of (sweep_rows W measure (pre ++ freq :: post) w)) = pre /\
  Forall2 (row_for measure) pre
          (rows_of (sweep_rows W measure (pre ++ freq :: post) w)) /\
  error_of (sweep_rows W measure (pre ++ freq :: post) w) = Some e /\
  final_of (sweep_rows W measure (pre ++ freq :: post) w) = w'.
Proof.
  intros Hpre Hfail.
  destruct (sweep_rows_app measure pre (freq :: post) w Hpre) as (H1 & H2 & H3).
  rewrite (sweep_rows_step_raise measure freq post _ w' e Hfail) in H1, H2, H3.
  simpl in H1, H2, H3. rewrite app_nil_r in H1.
  pose proof (sweep_rows_prefix measure pre w) as Hrows.
  rewrite (sweep_rows_complete measure pre w Hpre), firstn_all in Hrows.
  rewrite H1, H2, H3. repeat split; try assumption.
  apply (row_for_freqs measure). exact Hrows.
Qed.

(** A sweep over 2000, 500, 3000 Hz with the low-cut measurement: one row,
    then the failure at 500 Hz; 3000 Hz is never measured. *)
Lemma sweep_aborts_at_failure_witness :
  map row_freq (rows_of (sweep_rows (list R) lowcut_measure [2000; 500; 3000] []))
  = [2000] /\
  error_of (sweep_rows (list R) lowcut_measure [2000; 500; 3000] [])
  = Some ValueError_empty_reduction /\
  final_of (sweep_rows (list R) lowcut_measure [2000; 500; 3000] [])
  = [2000; 500].
Proof.
  assert (E1 : lowcut_measure 2000 [] = (Ok (1, 0), [2000])).
  { unfold lowcut_measure. destruct (Rlt_dec 2000 1000); [lra|reflexivity]. }
  assert (E2 : lowcut_measure 500 [2000]
               = (Raise ValueError_empty_reduction, [2000; 500])).
  { unfold lowcut_measure. destruct (Rlt_dec 500 1000); [reflexivity|lra]. }
  assert (E0 : sweep_rows (list R) lowcut_measure [2000] []
               = Yield {| row_freq := 2000; row_amplitude := 1;
                          row_dB := 10 * (ln 1 / ln 10); row_phase := 0 |}
                       (Return [2000])).
  { rewrite (sweep_rows_step_ok _ _ _ _ _ _ _ E1) by lra. reflexivity. }
  destruct (sweep_aborts_at_failure lowcut_measure [2000] [3000] 500 []
              [2000; 500] ValueError_empty_reduction)
    as (_ & Hf & _ & He & Hw).
  - rewrite E0. reflexivity.
  - rewrite E0. exact E2.
  - repeat split; assumption.
Defined.

(** The dB computation fails the same way when a measurement returns a
    ratio that is not positive. *)
Lemma sweep_aborts_at_domain_error {W : Type} (measure : R -> M W (R * R))
      (pre post : list R) (freq a p : R) (w w' : W) :
  error_of (sweep_rows W measure pre w) = None ->
  measure freq (final_of (sweep_rows W measure pre w)) = (Ok (a, p), w') ->
  a <= 0 ->
  rows_of (sweep_rows W measure (pre ++ freq :: post) w)
  = rows_of (sweep_rows W measure pre w) /\
  error_of (sweep_rows W measure (pre ++ freq :: post) w)
  = Some ValueError_math_domain /\
  final_of (sweep_rows W measure (pre ++ freq :: post) w) = w'.
Proof.
  intros Hpre Hm Ha.
  destruct (sweep_rows_app measure pre (freq :: post) w Hpre) as (H1 & H2 & H3).
  rewrite (sweep_rows_step_domain measure freq a p post _ w' Hm Ha) in H1, H2, H3.
  simpl in H1, H2, H3. rewrite app_nil_r in H1. auto.
Qed.

Lemma freqresp_iter_sweeps {W : Type} (sigfig_round : R -> Z -> R)
      (measure : R -> M W (R * R)) (freq_min freq_max : R) (log_stepsdec : Z)
      (lin_interval : option R) (freqs : list R) (w : W) :
  sweep_freqs sigfig_round freq_min freq_max log_stepsdec lin_interval = Ok freqs ->
  freqresp_iter sigfig_round W measure freq_min freq_max log_stepsdec
                lin_interval w
  = sweep_rows W measure freqs w.
Proof. intros H. unfold freqresp_iter. now rewrite H. Qed.

(** ** Runs on the instruments: what a program appends to the trace *)

Section Emits.

Context (P : event -> Prop).

Lemma emits_ret {A} (a : A) : emits P (ret a).
Proof.
  intros tr. exists []. rewrite app_nil_r. split; [reflexivity|constructor].
Qed.

Lemma emits_lift {A} (o : outcome A) : emits P (lift o).
Proof.
  intros tr. exists []. rewrite app_nil_r. split; [reflexivity|constructor].
Qed.

Lemma emits_emit (e : event) : P e -> emits P (emit e).
Proof. intros H tr. exists [e]. split; [reflexivity|auto]. Qed.

Lemma emits_bind {A B} (c : M trace A) (k : A -> M trace B) :
  emits P c -> (forall a, emits P (k a)) -> emits P (bind c k).
Proof.
  intros Hc Hk tr. unfold bind. destruct (Hc tr) as [evs [E F]].
  destruct (c tr) as [[a|e] tr']; simpl in E; subst tr'.
  - destruct (Hk a (tr ++ evs)) as [evs' [E' F']].
    exists (evs ++ evs'). rewrite E', app_assoc. split; [reflexivity|].
    apply Forall_app. auto.
  - exists evs. auto.
Qed.

Lemma emits_write (c : scpi) : P (Write c) -> emits P (DS1054Z.write c).
Proof. apply emits_emit. Qed.

Lemma emits_query_float (sc : scope) (q : fquery) :
  P (QueryFloat q) -> emits P (DS1054Z.query_float sc q).
Proof. intros H tr. exists [QueryFloat q]. split; [reflexivity|auto]. Qed.

Lemma emits_query_mdepth (sc : scope) :
  P QueryMdepth -> emits P (DS1054Z.query_mdepth sc).
Proof. intros H tr. exists [QueryMdepth]. split; [reflexivity|auto]. Qed.

Lemma emits_query_data (sc : scope) :
  P QueryData -> emits P (DS1054Z.query_data sc).
Proof. intros H tr. exists [QueryData]. split; [reflexivity|auto]. Qed.

Lemma emits_time_sleep (secs : xfloat) :
  (forall s, secs = Finite s -> P (Sleep s)) -> emits P (time_sleep secs).
Proof.
  intros H. unfold time_sleep. destruct secs as [s| | |]; try apply emits_lift.
  destruct (Rle_dec sleep_max s); [apply emits_lift|].
  destruct (Rlt_dec s (- sleep_max)); [apply emits_lift|].
  destruct (Rlt_dec s 0); [apply emits_lift|].
  apply emits_emit. apply H. reflexivity.
Qed.

End Emits.

(** Breaks a program into its commands, trying [known] facts about its
    parts first; leaves the conditions on the events. *)
Ltac emits_with known :=
  repeat first
    [ known
    | match goal with
      | |- emits _ (ret _) => apply emits_ret
      | |- emits _ (lift _) => apply emits_lift
      | |- emits _ (bind _ _) => apply emits_bind; [|intros ?]
      | |- emits _ (DS1054Z.write _) => apply emits_write
      | |- emits _ (emit _) => apply emits_emit
      | |- emits _ (time_sleep _) => apply emits_time_sleep
      | |- emits _ (DS1054Z.query_float _ _) => apply emits_query_float
      | |- emits _ (DS1054Z.query_mdepth _) => apply emits_query_mdepth
      | |- emits _ (DS1054Z.query_data _) => apply emits_query_data
      | |- emits _ (if ?b then _ else _) => destruct b
      | |- emits _ (match ?x with _ => _ end) => destruct x
      end ].

Section EmitsInstrument.

Context (P : event -> Prop).
Hypothesis P_write_other :
  forall c, c <> TFORCE -> (forall ch v, c <> CHAN_SCAL ch v) -> P (Write c).
Hypothesis P_query_float : forall q, P (QueryFloat q).
Hypothesis P_query_mdepth : P QueryMdepth.
Hypothesis P_query_data : P QueryData.

Lemma emits_fetch_data (sc : scope) (channel : Z) :
  emits P (DS1054Z.fetch_data sc channel).
Proof.
  unfold DS1054Z.fetch_data. emits_with fail; auto;
    apply P_write_other; discriminate.
Qed.

Lemma emits_fetch_blocks (sc : scope) (end_ : Z) (blockstarts : list Z) :
  forall alldata, emits P (DS1054Z.fetch_blocks sc end_ blockstarts alldata).
Proof.
  induction blockstarts as [|b rest IH]; intros alldata; simpl.
  - apply emits_ret.
  - emits_with ltac:(idtac; match goal with
                     | |- emits _ (DS1054Z.fetch_blocks _ _ rest _) =>
                         apply IH
                     end); auto; apply P_write_other; discriminate.
Qed.

Lemma emits_fetch_data_raw (sc : scope) (channel start : Z)
      (end_ : option Z) :
  emits P (DS1054Z.fetch_data_raw sc channel start end_).
Proof.
  unfold DS1054Z.fetch_data_raw.
  emits_with ltac:(idtac; match goal with
                   | |- emits _ (DS1054Z.fetch_blocks _ _ _ _) =>
                       apply emits_fetch_blocks
                   end); auto;
    apply P_write_other; discriminate.
Qed.

Lemma emits_dft_at_freq (sc : scope) (channel : Z) (freq : R)
      (use_raw : bool) :
  emits P (DS1054Z.dft_at_freq sc channel freq use_raw).
Proof.
  unfold DS1054Z.dft_at_freq, DS1054Z.sample_interval.
  emits_with ltac:(idtac; match goal with
                   | |- emits _ (DS1054Z.fetch_data _ _) =>
                       apply emits_fetch_data
                   | |- emits _ (DS1054Z.fetch_data_raw _ _ _ _) =>
                       apply emits_fetch_data_raw
                   end);
    auto.
Qed.

Lemma emits_set_timebase (timebase : R) (round : bool) :
  emits P (DS1054Z.set_timebase timebase round).
Proof.
  unfold DS1054Z.set_timebase.
  emits_with fail; apply P_write_other; discriminate.
Qed.

Lemma emits_set_timebase_x (timebase : xfloat) :
  emits P (DS1054Z.set_timebase_x timebase).
Proof.
  unfold DS1054Z.set_timebase_x.
  emits_with fail; apply P_write_other; discriminate.
Qed.

Lemma emits_set_memdepth (depth : option Z) :
  emits P (DS1054Z.set_memdepth depth).
Proof.
  unfold DS1054Z.set_memdepth.
  destruct depth as [d|]; [destruct (d =? 0)%Z|];
    apply emits_write; apply P_write_other; discriminate.
Qed.

Hypothesis P_scale :
  forall ch v, In v DS1054Z.vertical_scales -> P (Write (CHAN_SCAL ch v)).

Lemma emits_set_channel_scale (channel : Z) (scale : R) :
  emits P (DS1054Z.set_channel_scale channel scale true).
Proof.
  intros tr. destruct (set_channel_scale_rounds channel scale tr)
    as [v [Hv Hrun]].
  exists [Write (CHAN_SCAL channel v)]. rewrite Hrun.
  split; [reflexivity|]. constructor; [|constructor].
  apply P_scale. apply (nearest_spec _ _ _ Hv).
Qed.

(** Lines 26-30: the two peaks, the new scales and the re-arming. *)
Lemma emits_autorange_rescale (sc : scope) :
  emits P (d1 <- DS1054Z.fetch_data sc 1 ;;
           a1 <- lift (Np.max_abs d1) ;;
           d2 <- DS1054Z.fetch_data sc 2 ;;
           a2 <- lift (Np.max_abs d2) ;;
           DS1054Z.set_channel_scale 1 (a1 / 4) true ;;
           DS1054Z.set_channel_scale 2 (a2 / 4) true ;;
           DS1054Z.run).
Proof.
  unfold DS1054Z.run.
  emits_with ltac:(idtac; match goal with
                   | |- emits _ (DS1054Z.set_channel_scale _ _ true) =>
                       apply emits_set_channel_scale
                   | |- emits _ (DS1054Z.fetch_data _ _) =>
                       apply emits_fetch_data
                   end).
  apply P_write_other; discriminate.
Qed.

Hypothesis P_tforce : P (Write TFORCE).
Variable delay : xfloat.
Hypothesis P_sleep : forall s, delay = Finite s -> P (Sleep s).

Lemma emits_autorange_block (sc : scope) :
  emits P (autorange_block sc delay).
Proof.
  unfold autorange_block, DS1054Z.force_trigger, DS1054Z.stop, DS1054Z.run.
  emits_with ltac:(idtac; match goal with
                   | |- emits _ (DS1054Z.set_channel_scale _ _ true) =>
                       apply emits_set_channel_scale
                   | |- emits _ (DS1054Z.fetch_data _ _) =>
                       apply emits_fetch_data
                   end);
    auto; apply P_write_other; discriminate.
Qed.

Lemma emits_measure_dft (sc : scope) (freq : R) :
  emits P (measure_dft sc freq delay).
Proof.
  unfold measure_dft, DS1054Z.force_trigger, DS1054Z.stop.
  emits_with ltac:(idtac; match goal with
                   | |- emits _ (DS1054Z.dft_at_freq _ _ _ _) =>
                       apply emits_dft_at_freq
                   end);
    auto; apply P_write_other; discriminate.
Qed.

Lemma emits_measure_capture (sc : scope) (freq : R) (autorange : bool) :
  emits P (measure_capture sc freq delay autorange).
Proof.
  unfold measure_capture.
  emits_with ltac:(idtac; match goal with
                   | |- emits _ (autorange_block _ _) =>
                       apply emits_autorange_block
                   | |- emits _ (measure_dft _ _ _) =>
                       apply emits_measure_dft
                   end).
Qed.

End EmitsInstrument.

(** ** Runs of measure_response *)

Lemma bind_ok {W A B} (c : M W A) (k : A -> M W B) (w w' : W) (a : A) :
  c w = (Ok a, w') -> bind c k w = k a w'.
Proof. intros H. unfold bind. now rewrite H. Qed.

Lemma bind_raise {W A B} (c : M W A) (k : A -> M W B) (w w' : W) (e : exn) :
  c w = (Raise e, w') -> bind c k w = (Raise e, w').
Proof. intros H. unfold bind. now rewrite H. Qed.

Lemma bind_run_eq {W A B} (c c' : M W A) (k : A -> M W B) (w w' : W) :
  c w = c' w' -> bind c k w = bind c' k w'.
Proof. intros H. unfold bind. now rewrite H. Qed.

Lemma nearest_scale_of_1 : DS1054Z.nearest DS1054Z.vertical_scales 1 = Ok 1.
Proof. unfold DS1054Z.vertical_scales. nearest_is 1. Qed.

Lemma set_channel_scale_run (channel : Z) (scale v : R) (tr : trace) :
  DS1054Z.nearest DS1054Z.vertical_scales scale = Ok v ->
  DS1054Z.set_channel_scale channel scale true tr
  = (Ok tt, tr ++ [Write (CHAN_SCAL channel v)]).
Proof.
  intros Hv. destruct (set_channel_scale_rounds channel scale tr) as [v' [Hv' H]].
  rewrite Hv in Hv'. injection Hv' as <-. exact H.
Qed.

Lemma set_timebase_run (timebase v : R) (tr : trace) :
  DS1054Z.nearest DS1054Z.timebases timebase = Ok v ->
  DS1054Z.set_timebase timebase true tr = (Ok tt, tr ++ [Write (TIM_SCAL v)]).
Proof.
  intros Hv. destruct (set_timebase_rounds timebase tr) as [v' [Hv' H]].
  rewrite Hv in Hv'. injection Hv' as <-. exact H.
Qed.

(** On a finite request [set_timebase_x] is [set_timebase]. *)
Lemma set_timebase_x_finite (timebase : R) (tr : trace) :
  DS1054Z.set_timebase_x (Finite timebase) tr
  = DS1054Z.set_timebase timebase true tr.
Proof. reflexivity. Qed.

Lemma min_key_constant {A} (c : R) (x : A) (tl : list A) :
  Py.min_key (fun _ => c) (x :: tl) = Ok x.
Proof.
  simpl. f_equal. induction tl as [|y tl IH]; simpl; [reflexivity|].
  destruct (Rlt_dec c c); [lra|]. exact IH.
Qed.

(** An infinite request selects the first time base of the list. *)
Lemma set_timebase_x_infinite (tr : trace) :
  DS1054Z.set_timebase_x PosInf tr = (Ok tt, tr ++ [Write (TIM_SCAL 2e-9)]).
Proof.
  unfold DS1054Z.set_timebase_x, DS1054Z.nearest_x, DS1054Z.timebases.
  unfold bind, lift. rewrite min_key_constant. reflexivity.
Qed.

Lemma sleep_max_pos : 0 < sleep_max.
Proof. unfold sleep_max. apply Rdiv_lt_0_compat; apply pow_lt; lra. Qed.

Lemma two_seconds_sleep : 2 < sleep_max.
Proof.
  unfold sleep_max.
  apply Rmult_lt_reg_r with (10 ^ 9); [apply pow_lt; lra|].
  unfold Rdiv. rewrite Rmult_assoc, Rinv_l, Rmult_1_r
    by (apply pow_nonzero; lra).
  lra.
Qed.

Lemma one_second_sleeps : 0 <= 1 < sleep_max.
Proof. pose proof two_seconds_sleep. lra. Qed.

Lemma time_sleep_ok (s : R) (tr : trace) :
  0 <= s < sleep_max -> time_sleep (Finite s) tr = (Ok tt, tr ++ [Sleep s]).
Proof.
  intros [H0 H1]. unfold time_sleep.
  destruct (Rle_dec sleep_max s); [lra|].
  destruct (Rlt_dec s (- sleep_max)); [lra|].
  destruct (Rlt_dec s 0); [lra|]. reflexivity.
Qed.

Lemma time_sleep_negative (s : R) (tr : trace) :
  - sleep_max <= s < 0 ->
  time_sleep (Finite s) tr = (Raise ValueError_sleep, tr).
Proof.
  intros [H0 H1]. unfold time_sleep.
  destruct (Rle_dec sleep_max s); [lra|].
  destruct (Rlt_dec s (- sleep_max)); [lra|].
  destruct (Rlt_dec s 0); [reflexivity|lra].
Qed.

Lemma truediv_number_nonzero (a : R) (n : number) :
  float_of n <> 0 -> truediv_number a n = Ok (Finite (a / float_of n)).
Proof.
  intros Hn. destruct n as [x|x]; simpl in *.
  - unfold Py.truediv. destruct (Req_dec_T x 0); [contradiction|reflexivity].
  - unfold Np.divide. destruct (Req_dec_T x 0); [contradiction|reflexivity].
Qed.

Lemma divide_by_zero (a : R) : 0 < a -> Np.divide a 0 = PosInf.
Proof.
  intros Ha. unfold Np.divide.
  destruct (Req_dec_T 0 0) as [_|H]; [|contradiction].
  destruct (Req_dec_T a 0); [lra|]. destruct (Rlt_dec 0 a); [reflexivity|lra].
Qed.

(** Lines 14-18 for a non-zero frequency and the default memory depth. *)
Lemma measure_response_prologue (sc : scope) (freq : number) (delay tb : R)
      (autorange : bool) (tr : trace) :
  float_of freq <> 0 ->
  DS1054Z.nearest DS1054Z.timebases (1 / float_of freq) = Ok tb ->
  measure_response sc freq delay autorange default_memdepth tr
  = measure_capture sc (float_of freq) (Finite (delay + 40 / float_of freq))
      autorange
      (tr ++ [AwgSetFrequency 1 (float_of freq); Write RUN;
              Write (ACQ_MDEPTH 120000); Write (TIM_SCAL tb)]).
Proof.
  intros Hf Htb. unfold measure_response, default_memdepth.
  do 3 (erewrite bind_ok by reflexivity).
  erewrite bind_ok
    by (unfold lift; rewrite truediv_number_nonzero by exact Hf; reflexivity).
  erewrite bind_ok
    by (rewrite set_timebase_x_finite; apply set_timebase_run; exact Htb).
  erewrite bind_ok
    by (unfold lift; rewrite truediv_number_nonzero by exact Hf; reflexivity).
  repeat rewrite <- app_assoc. reflexivity.
Qed.

Lemma set_memdepth_total (memdepth : option Z) (tr : trace) :
  exists c, DS1054Z.set_memdepth memdepth tr = (Ok tt, tr ++ [Write c]) /\
            c <> TFORCE /\ forall ch v, c <> CHAN_SCAL ch v.
Proof.
  unfold DS1054Z.set_memdepth.
  destruct memdepth as [d|]; [destruct (d =? 0)%Z|];
    eexists; (split; [reflexivity|split; [discriminate|discriminate]]).
Qed.

(** A Python float 0: [1.0 / freq] raises. *)
Lemma measure_response_zero_freq (sc : scope) (delay : R) (autorange : bool)
      (memdepth : option Z) (tr : trace) :
  fst (measure_response sc (PyFloat 0) delay autorange memdepth tr)
  = Raise ZeroDivisionError.
Proof.
  unfold measure_response.
  do 2 (erewrite bind_ok by reflexivity).
  destruct (set_memdepth_total memdepth
              ((tr ++ [AwgSetFrequency 1 (float_of (PyFloat 0))])
                 ++ [Write RUN])) as (c & Hm & _).
  erewrite bind_ok by exact Hm.
  erewrite bind_raise; [reflexivity|].
  unfold lift. simpl. unfold Py.truediv.
  destruct (Req_dec_T 0 0); [reflexivity|lra].
Qed.

(** A numpy.float64 0, as a linear sweep from 0 Hz passes it: both
    divisions yield an infinity, the first time base of the list is
    requested, and the first [time.sleep] raises. *)
Lemma measure_response_numpy_zero (sc : scope) (delay : R) (autorange : bool)
      (tr : trace) :
  measure_response sc (NpFloat64 0) delay autorange default_memdepth tr
  = (Raise OverflowError_sleep,
     tr ++ [AwgSetFrequency 1 0; Write RUN; Write (ACQ_MDEPTH 120000);
            Write (TIM_SCAL 2e-9)]
        ++ (if autorange
            then [Write (CHAN_SCAL 1 1); Write (CHAN_SCAL 2 1)] else [])
        ++ [Write TFORCE]).
Proof.
  unfold measure_response, default_memdepth.
  do 3 (erewrite bind_ok by reflexivity).
  erewrite bind_ok
    by (unfold lift; simpl; rewrite divide_by_zero by lra; reflexivity).
  erewrite bind_ok by apply set_timebase_x_infinite.
  erewrite bind_ok
    by (unfold lift; simpl; rewrite divide_by_zero by lra; reflexivity).
  simpl Py.addx. unfold measure_capture. destruct autorange.
  - erewrite bind_raise; [repeat rewrite <- app_assoc; reflexivity|].
    unfold autorange_block.
    erewrite bind_ok by (apply set_channel_scale_run; exact nearest_scale_of_1).
    erewrite bind_ok by (apply set_channel_scale_run; exact nearest_scale_of_1).
    erewrite bind_ok by reflexivity.
    erewrite bind_raise by reflexivity.
    repeat rewrite <- app_assoc. reflexivity.
  - erewrite bind_ok by reflexivity. unfold measure_dft.
    erewrite bind_ok by reflexivity.
    erewrite bind_raise by reflexivity.
    repeat rewrite <- app_assoc. reflexivity.
Qed.

Lemma quiet_write (c : scpi) : c <> TFORCE -> quiet (Write c).
Proof.
  intros Hc. split; [intros s; discriminate|]. intros [= E]. exact (Hc E).
Qed.

Lemma quiet_query_float (q : fquery) : quiet (QueryFloat q).
Proof. split; [intros s|]; discriminate. Qed.

Lemma quiet_query_mdepth : quiet QueryMdepth.
Proof. split; [intros s|]; discriminate. Qed.

Lemma quiet_query_data : quiet QueryData.
Proof. split; [intros s|]; discriminate. Qed.

(** The measured capture: the forced trigger, the sleep and the stop, and
    then the two DFTs, which neither sleep nor trigger. *)
Lemma measure_dft_run (sc : scope) (freq wait : R) (tr : trace) :
  0 <= wait < sleep_max ->
  exists post,
    snd (measure_dft sc freq (Finite wait) tr)
    = tr ++ [Write TFORCE; Sleep wait; Write STOP] ++ post /\
    Forall quiet post.
Proof.
  intros Hw. unfold measure_dft.
  erewrite bind_ok by reflexivity.
  erewrite bind_ok by (apply time_sleep_ok; exact Hw).
  erewrite bind_ok by reflexivity.
  match goal with
  | |- context [snd (?c ?t)] => assert (Hc : emits quiet c)
  end.
  { emits_with ltac:(idtac; match goal with
                     | |- emits _ (DS1054Z.dft_at_freq _ _ _ _) =>
                         apply emits_dft_at_freq
                     end);
      auto using quiet_write, quiet_query_float, quiet_query_mdepth,
        quiet_query_data. }
  match goal with
  | |- context [snd (_ ?t)] => destruct (Hc t) as [post [E Hpost]]
  end.
  exists post. rewrite E. split; [|exact Hpost].
  repeat rewrite <- app_assoc. reflexivity.
Qed.

(** ** Auto-ranging (measure_response, lines 20-30) *)

Lemma fetch_data_total (sc : scope) (channel : Z) (tr : trace) :
  exists d tr', DS1054Z.fetch_data sc channel tr = (Ok d, tr').
Proof.
  unfold DS1054Z.fetch_data.
  do 9 (erewrite bind_ok by reflexivity).
  do 2 eexists. reflexivity.
Qed.

Lemma max_abs_total (d : list R) :
  d <> [] -> exists a, Np.max_abs d = Ok a.
Proof. destruct d as [|x tl]; [congruence|]. intros _. simpl. eauto. Qed.

Lemma max_abs_empty (d : list R) (e : exn) :
  Np.max_abs d = Raise e -> d = [] /\ e = ValueError_empty_reduction.
Proof. destruct d; [intros [= <-]; auto|discriminate]. Qed.

(** The five commands every auto-ranging starts with. *)
Lemma autorange_block_start (sc : scope) (delay : R) (tr : trace) :
  0 <= delay < sleep_max ->
  autorange_block sc (Finite delay) tr
  = (d1 <- DS1054Z.fetch_data sc 1 ;;
     a1 <- lift (Np.max_abs d1) ;;
     d2 <- DS1054Z.fetch_data sc 2 ;;
     a2 <- lift (Np.max_abs d2) ;;
     DS1054Z.set_channel_scale 1 (a1 / 4) true ;;
     DS1054Z.set_channel_scale 2 (a2 / 4) true ;;
     DS1054Z.run)
      (tr ++ [Write (CHAN_SCAL 1 1); Write (CHAN_SCAL 2 1); Write TFORCE;
              Sleep delay; Write STOP]).
Proof.
  intros Hd. unfold autorange_block.
  erewrite bind_ok by (apply set_channel_scale_run; exact nearest_scale_of_1).
  erewrite bind_ok by (apply set_channel_scale_run; exact nearest_scale_of_1).
  erewrite bind_ok by reflexivity.
  erewrite bind_ok by (apply time_sleep_ok; exact Hd).
  erewrite bind_ok by reflexivity.
  repeat rewrite <- app_assoc. reflexivity.
Qed.

(** The three ways an auto-ranging with an accepted delay ends. *)
Lemma autorange_block_cases (sc : scope) (delay : R) (tr : trace) :
  0 <= delay < sleep_max ->
  exists d1 d2 tr2 tr3,
    DS1054Z.fetch_data sc 1
      (tr ++ [Write (CHAN_SCAL 1 1); Write (CHAN_SCAL 2 1); Write TFORCE;
              Sleep delay; Write STOP]) = (Ok d1, tr2) /\
    DS1054Z.fetch_data sc 2 tr2 = (Ok d2, tr3) /\
    (d1 = [] ->
     autorange_block sc (Finite delay) tr
     = (Raise ValueError_empty_reduction, tr2)) /\
    (d1 <> [] -> d2 = [] ->
     autorange_block sc (Finite delay) tr
     = (Raise ValueError_empty_reduction, tr3)) /\
    (forall a1 a2 v1 v2,
        Np.max_abs d1 = Ok a1 -> Np.max_abs d2 = Ok a2 ->
        DS1054Z.nearest DS1054Z.vertical_scales (a1 / 4) = Ok v1 ->
        DS1054Z.nearest DS1054Z.vertical_scales (a2 / 4) = Ok v2 ->
        autorange_block sc (Finite delay) tr
        = (Ok tt, tr3 ++ [Write (CHAN_SCAL 1 v1); Write (CHAN_SCAL 2 v2);
                          Write RUN])).
Proof.
  intros Hd.
  destruct (fetch_data_total sc 1
              (tr ++ [Write (CHAN_SCAL 1 1); Write (CHAN_SCAL 2 1);
                      Write TFORCE; Sleep delay; Write STOP]))
    as (d1 & tr2 & H1).
  destruct (fetch_data_total sc 2 tr2) as (d2 & tr3 & H2).
  exists d1, d2, tr2, tr3. split; [exact H1|]. split; [exact H2|].
  rewrite (autorange_block_start sc delay tr Hd).
  split; [|split].
  - intros ->. erewrite bind_ok by exact H1.
    erewrite bind_raise by reflexivity. reflexivity.
  - intros Hne ->. erewrite bind_ok by exact H1.
    destruct (max_abs_total d1 Hne) as [a1 Ha1].
    erewrite bind_ok by (unfold lift; rewrite Ha1; reflexivity).
    erewrite bind_ok by exact H2.
    erewrite bind_raise by reflexivity. reflexivity.
  - intros a1 a2 v1 v2 Ha1 Ha2 Hv1 Hv2.
    erewrite bind_ok by exact H1.
    erewrite bind_ok by (unfold lift; rewrite Ha1; reflexivity).
    erewrite bind_ok by exact H2.
    erewrite bind_ok by (unfold lift; rewrite Ha2; reflexivity).
    erewrite bind_ok by (apply set_channel_scale_run; exact Hv1).
    erewrite bind_ok by (apply set_channel_scale_run; exact Hv2).
    unfold DS1054Z.run, DS1054Z.write, emit.
    repeat rewrite <- app_assoc. reflexivity.
Qed.

(** After its capture the auto-ranging neither sleeps nor triggers, and
    the only exception that can leave it is numpy's, for an empty
    capture. *)
Lemma autorange_block_run (sc : scope) (delay : R) (tr : trace) :
  0 <= delay < sleep_max ->
  exists mid,
    snd (autorange_block sc (Finite delay) tr)
    = tr ++ [Write (CHAN_SCAL 1 1); Write (CHAN_SCAL 2 1); Write TFORCE;
             Sleep delay; Write STOP] ++ mid /\
    Forall quiet mid /\
    (forall e, fst (autorange_block sc (Finite delay) tr) = Raise e ->
               e = ValueError_empty_reduction).
Proof.
  intros Hd.
  assert (Hc : emits quiet
                 (d1 <- DS1054Z.fetch_data sc 1 ;;
                  a1 <- lift (Np.max_abs d1) ;;
                  d2 <- DS1054Z.fetch_data sc 2 ;;
                  a2 <- lift (Np.max_abs d2) ;;
                  DS1054Z.set_channel_scale 1 (a1 / 4) true ;;
                  DS1054Z.set_channel_scale 2 (a2 / 4) true ;;
                  DS1054Z.run)).
  { apply emits_autorange_rescale;
      auto using quiet_write, quiet_query_float, quiet_query_mdepth,
        quiet_query_data.
    intros ch v _. apply quiet_write. discriminate. }
  destruct (Hc (tr ++ [Write (CHAN_SCAL 1 1); Write (CHAN_SCAL 2 1);
                       Write TFORCE; Sleep delay; Write STOP]))
    as [mid [E Hmid]].
  exists mid. rewrite (autorange_block_start sc delay tr Hd), E.
  split; [repeat rewrite <- app_assoc; reflexivity|].
  split; [exact Hmid|].
  destruct (autorange_block_cases sc delay tr Hd)
    as (d1 & d2 & tr2 & tr3 & H1 & H2 & He1 & He2 & Hok).
  rewrite <- (autorange_block_start sc delay tr Hd).
  intros e He.
  destruct d1 as [|x1 t1].
  - rewrite (He1 eq_refl) in He. simpl in He. congruence.
  - destruct d2 as [|x2 t2].
    + rewrite (He2 ltac:(discriminate) eq_refl) in He. simpl in He.
      congruence.
    + destruct (max_abs_total (x1 :: t1) ltac:(discriminate)) as [a1 Ha1].
      destruct (max_abs_total (x2 :: t2) ltac:(discriminate)) as [a2 Ha2].
      destruct (nearest_total DS1054Z.vertical_scales (a1 / 4)) as [v1 Hv1];
        [discriminate|].
      destruct (nearest_total DS1054Z.vertical_scales (a2 / 4)) as [v2 Hv2];
        [discriminate|].
      rewrite (Hok a1 a2 v1 v2 Ha1 Ha2 Hv1 Hv2) in He. discriminate.
Qed.

Lemma nearest_timebase_of_1ms :
  DS1054Z.nearest DS1054Z.timebases (1 / 1000) = Ok 1e-3.
Proof. unfold DS1054Z.timebases. nearest_is 1e-3. Qed.

(** C9, as stated, fails.  With a base delay of -1 s at 1 kHz the
    adjusted delay is negative: [time.sleep] raises after the trigger was
    forced, and the acquisition is never stopped.  At the 0 Hz of a
    linear sweep from 0 the requested time base is not [1 / freq] but the
    first of the list, the adjusted delay is infinite, and [time.sleep]
    raises as well. *)
Lemma measure_response_without_wait :
  measure_response flat_scope (PyFloat 1000) (-1) false default_memdepth []
  = (Raise ValueError_sleep,
     [AwgSetFrequency 1 1000; Write RUN; Write (ACQ_MDEPTH 120000);
      Write (TIM_SCAL 1e-3); Write TFORCE]) /\
  measure_response flat_scope (NpFloat64 0) 1 false default_memdepth []
  = (Raise OverflowError_sleep,
     [AwgSetFrequency 1 0; Write RUN; Write (ACQ_MDEPTH 120000);
      Write (TIM_SCAL 2e-9); Write TFORCE]).
Proof.
  split.
  - rewrite (measure_response_prologue flat_scope (PyFloat 1000) (-1) 1e-3
               false []);
      [|cbn [float_of]; lra|exact nearest_timebase_of_1ms].
    unfold measure_capture. erewrite bind_ok by reflexivity.
    unfold measure_dft. erewrite bind_ok by reflexivity.
    cbn [float_of].
    erewrite bind_raise
      by (apply time_sleep_negative; pose proof one_second_sleeps; lra).
    reflexivity.
  - exact (measure_response_numpy_zero flat_scope 1 false []).
Qed.

(** C9, amended: for every non-zero sweep frequency [freq] and base delay
    [d] whose sum [d + 40 / freq] is a length [time.sleep] accepts (not
    negative, below [sleep_max]), the default measure function, with the
    default memory depth, sets the generator frequency, re-arms the
    scope, requests a memory depth of 120000 samples and a timebase of
    [1 / freq] (sent as the nearest supported timebase), and sleeps
    exactly [d + 40 / freq] between the forced trigger and the stop: in
    the measured capture, which always takes place unless the
    auto-ranging fails on an empty capture, and in the capture of the
    auto-ranging.  It neither sleeps nor forces a trigger anywhere
    else. *)
Theorem measure_response_settings (sc : scope) (freq : number) (d : R)
        (autorange : bool) (tr : trace) :
  float_of freq <> 0 ->
  0 <= d + 40 / float_of freq < sleep_max ->
  let f := float_of freq in
  let capture := [Write TFORCE; Sleep (d + 40 / f); Write STOP] in
  let run := measure_response sc freq d autorange default_memdepth tr in
  exists tb mid post (measured : bool),
    DS1054Z.set_timebase (1 / f) true [] = (Ok tt, [Write (TIM_SCAL tb)]) /\
    snd run
    = tr ++ [AwgSetFrequency 1 f; Write RUN; Write (ACQ_MDEPTH 120000);
             Write (TIM_SCAL tb)]
         ++ (if autorange
             then [Write (CHAN_SCAL 1 1); Write (CHAN_SCAL 2 1)]
                    ++ capture ++ mid
             else [])
         ++ (if measured then capture ++ post else []) /\
    Forall quiet mid /\ Forall quiet post /\
    (autorange = false -> measured = true) /\
    (measured = false -> fst run = Raise ValueError_empty_reduction).
Proof.
  intros Hf Hw f capture run.
  destruct (nearest_total DS1054Z.timebases (1 / f)) as [tb Htb];
    [discriminate|].
  set (tr1 := tr ++ [AwgSetFrequency 1 f; Write RUN;
                     Write (ACQ_MDEPTH 120000); Write (TIM_SCAL tb)]).
  assert (Hrun : run = measure_capture sc f (Finite (d + 40 / f)) autorange
                         tr1)
    by (apply measure_response_prologue; assumption).
  exists tb. rewrite Hrun. unfold measure_capture. destruct autorange.
  - destruct (autorange_block_run sc (d + 40 / f) tr1 Hw)
      as (mid & Hmid & Hq & Hexn).
    destruct (autorange_block sc (Finite (d + 40 / f)) tr1)
      as [[[]|e] tr2] eqn:Hab; cbn [snd fst] in Hmid, Hexn; subst tr2.
    + destruct (measure_dft_run sc f (d + 40 / f)
                  (tr1 ++ [Write (CHAN_SCAL 1 1); Write (CHAN_SCAL 2 1);
                           Write TFORCE; Sleep (d + 40 / f); Write STOP]
                       ++ mid) Hw) as (post & Hpost & Hqp).
      exists mid, post, true.
      split; [exact (set_timebase_run (1 / f) tb [] Htb)|].
      erewrite bind_ok by exact Hab. rewrite Hpost.
      split; [|repeat split; auto; discriminate].
      unfold tr1, capture. repeat rewrite <- app_assoc. reflexivity.
    + exists mid, [], false.
      split; [exact (set_timebase_run (1 / f) tb [] Htb)|].
      erewrite bind_raise by exact Hab. simpl fst. simpl snd.
      split; [|repeat split; auto; try discriminate].
      * unfold tr1, capture. repeat rewrite <- app_assoc.
        rewrite app_nil_r. reflexivity.
      * intros _. f_equal. apply Hexn. reflexivity.
  - destruct (measure_dft_run sc f (d + 40 / f) tr1 Hw)
      as (post & Hpost & Hqp).
    exists [], post, true.
    split; [exact (set_timebase_run (1 / f) tb [] Htb)|].
    erewrite bind_ok by reflexivity. rewrite Hpost.
    split; [|repeat split; auto; discriminate].
    unfold tr1, capture. repeat rewrite <- app_assoc. reflexivity.
Qed.

(** A measurement at 1 kHz with a base delay of 1 s sleeps 1.04 s. *)
Lemma measure_response_settings_witness :
  exists tb post,
    DS1054Z.set_timebase (1 / 1000) true [] = (Ok tt, [Write (TIM_SCAL tb)]) /\
    snd (measure_response flat_scope (PyFloat 1000) 1 false default_memdepth
                          [])
    = [AwgSetFrequency 1 1000; Write RUN; Write (ACQ_MDEPTH 120000);
       Write (TIM_SCAL tb)]
        ++ [Write TFORCE; Sleep (1 + 40 / 1000); Write STOP] ++ post /\
    Forall quiet post.
Proof.
  destruct (measure_response_settings flat_scope (PyFloat 1000) 1 false [])
    as (tb & mid & post & measured & Htb & Hrun & _ & Hq & Hm & _).
  - cbn [float_of]. lra.
  - cbn [float_of]. pose proof one_second_sleeps as H1.
    pose proof two_seconds_sleep as H2. lra.
  - rewrite (Hm eq_refl) in Hrun. exists tb, post.
    split; [exact Htb|]. split; [exact Hrun|exact Hq].
Defined.

Lemma nearest_scale_of_0_quarter :
  DS1054Z.nearest DS1054Z.vertical_scales (0 / 4) = Ok 0.01.
Proof.
  replace (0 / 4) with 0 by lra. exact nearest_scale_of_0.
Qed.

Lemma flat_scope_fetch (channel : Z) (tr : trace) :
  exists tr', DS1054Z.fetch_data flat_scope channel tr = (Ok [0; 0; 0; 0], tr').
Proof.
  unfold DS1054Z.fetch_data.
  do 9 (erewrite bind_ok by reflexivity).
  unfold ret. eexists. f_equal. f_equal.
  unfold DS1054Z.to_volts. simpl.
  repeat (f_equal; try lra).
Qed.

Lemma max_abs_zeros : Np.max_abs [0; 0; 0; 0] = Ok 0.
Proof.
  unfold Np.max_abs. simpl. rewrite Rabs_R0.
  repeat rewrite (Rmax_left 0 0) by lra. reflexivity.
Qed.

(** C5, as stated, fails: with a flat trace (peak 0) on channel 1 the
    auto-range step raises nothing and sends channel 1 a new scale, 0.01,
    after the provisional 1. *)
Lemma autorange_flat_sends_smallest_scale :
  exists d1 tr2 tr',
    DS1054Z.fetch_data flat_scope 1
      [Write (CHAN_SCAL 1 1); Write (CHAN_SCAL 2 1); Write TFORCE;
       Sleep 1; Write STOP] = (Ok d1, tr2) /\
    Np.max_abs d1 = Ok 0 /\
    autorange_block flat_scope (Finite 1) [] = (Ok tt, tr') /\
    In (Write (CHAN_SCAL 1 0.01)) tr' /\
    0.01 <> 1.
Proof.
  destruct (autorange_block_cases flat_scope 1 [] one_second_sleeps)
    as (d1 & d2 & tr2 & tr3 & H1 & H2 & _ & _ & Hok).
  destruct (flat_scope_fetch 1 [Write (CHAN_SCAL 1 1); Write (CHAN_SCAL 2 1);
                                Write TFORCE; Sleep 1; Write STOP])
    as [tr2' H1'].
  simpl app in H1. rewrite H1' in H1. injection H1 as <- <-.
  destruct (flat_scope_fetch 2 tr2') as [tr3' H2'].
  rewrite H2' in H2. injection H2 as <- <-.
  exists [0; 0; 0; 0], tr2'. eexists.
  split; [exact H1'|]. split; [exact max_abs_zeros|]. split; [|split].
  - apply (Hok 0 0 0.01 0.01 max_abs_zeros max_abs_zeros
               nearest_scale_of_0_quarter nearest_scale_of_0_quarter).
  - apply in_or_app. right. left. reflexivity.
  - lra.
Qed.

Lemma emits_response_scales (sc : scope) (freq : number) (delay : R)
      (autorange : bool) (memdepth : option Z) :
  emits scales_valid (measure_response sc freq delay autorange memdepth).
Proof.
  assert (Hother : forall c, c <> TFORCE ->
                             (forall ch v, c <> CHAN_SCAL ch v) ->
                             scales_valid (Write c)).
  { intros c _ Hc ch v [= E]. destruct (Hc ch v E). }
  assert (Hscale : forall ch v, In v DS1054Z.vertical_scales ->
                                scales_valid (Write (CHAN_SCAL ch v))).
  { intros ch v Hin ch' v' [= _ <-]. exact Hin. }
  unfold measure_response, DS1054Z.run.
  emits_with ltac:(idtac; match goal with
                   | |- emits _ (DS1054Z.set_memdepth _) =>
                       apply emits_set_memdepth
                   | |- emits _ (DS1054Z.set_timebase_x _) =>
                       apply emits_set_timebase_x
                   | |- emits _ (measure_capture _ _ _ _) =>
                       apply emits_measure_capture
                   end);
    try exact Hother; try exact Hscale; try discriminate;
    intros; discriminate.
Qed.

(** C5, amended: an auto-ranging whose settle delay [time.sleep] accepts
    captures both channels after the provisional scale 1.  If a capture
    is empty, numpy's maximum raises ValueError and no further scale is
    sent.  Otherwise the step raises nothing and sends each channel the
    supported scale nearest to a quarter of its peak; a channel whose
    captured peak absolute sample value is zero is sent the smallest
    vertical scale, 0.01.  The scales sent are elements of
    [vertical_scales], hence positive, and so is every scale command of a
    whole measurement, however it ends: no zero or otherwise invalid
    scale is sent. *)
Theorem autorange_zero_peak (sc : scope) (delay : R) (tr : trace) :
  0 <= delay < sleep_max ->
  (exists d1 d2 tr2 tr3,
      DS1054Z.fetch_data sc 1
        (tr ++ [Write (CHAN_SCAL 1 1); Write (CHAN_SCAL 2 1); Write TFORCE;
                Sleep delay; Write STOP]) = (Ok d1, tr2) /\
      DS1054Z.fetch_data sc 2 tr2 = (Ok d2, tr3) /\
      (d1 = [] ->
       autorange_block sc (Finite delay) tr
       = (Raise ValueError_empty_reduction, tr2)) /\
      (d1 <> [] -> d2 = [] ->
       autorange_block sc (Finite delay) tr
       = (Raise ValueError_empty_reduction, tr3)) /\
      (d1 <> [] -> d2 <> [] ->
       exists a1 a2 v1 v2,
         Np.max_abs d1 = Ok a1 /\ Np.max_abs d2 = Ok a2 /\
         autorange_block sc (Finite delay) tr
         = (Ok tt, tr3 ++ [Write (CHAN_SCAL 1 v1); Write (CHAN_SCAL 2 v2);
                           Write RUN]) /\
         DS1054Z.nearest DS1054Z.vertical_scales (a1 / 4) = Ok v1 /\
         DS1054Z.nearest DS1054Z.vertical_scales (a2 / 4) = Ok v2 /\
         In v1 DS1054Z.vertical_scales /\ In v2 DS1054Z.vertical_scales /\
         0 < v1 /\ 0 < v2 /\
         (a1 = 0 -> v1 = 0.01) /\ (a2 = 0 -> v2 = 0.01))) /\
  (forall freq d autorange memdepth,
      emits scales_valid (measure_response sc freq d autorange memdepth)).
Proof.
  intros Hd. split; [|intros; apply emits_response_scales].
  destruct (autorange_block_cases sc delay tr Hd)
    as (d1 & d2 & tr2 & tr3 & H1 & H2 & He1 & He2 & Hok).
  exists d1, d2, tr2, tr3.
  split; [exact H1|]. split; [exact H2|]. split; [exact He1|].
  split; [exact He2|].
  intros Hn1 Hn2.
  destruct (max_abs_total d1 Hn1) as [a1 Ha1].
  destruct (max_abs_total d2 Hn2) as [a2 Ha2].
  destruct (nearest_total DS1054Z.vertical_scales (a1 / 4)) as [v1 Hv1];
    [discriminate|].
  destruct (nearest_total DS1054Z.vertical_scales (a2 / 4)) as [v2 Hv2];
    [discriminate|].
  exists a1, a2, v1, v2.
  pose proof (proj1 (nearest_spec _ _ _ Hv1)) as Hin1.
  pose proof (proj1 (nearest_spec _ _ _ Hv2)) as Hin2.
  split; [exact Ha1|]. split; [exact Ha2|].
  split; [exact (Hok a1 a2 v1 v2 Ha1 Ha2 Hv1 Hv2)|].
  split; [exact Hv1|]. split; [exact Hv2|].
  repeat split; auto using vertical_scales_pos.
  - intros ->. rewrite nearest_scale_of_0_quarter in Hv1. now injection Hv1.
  - intros ->. rewrite nearest_scale_of_0_quarter in Hv2. now injection Hv2.
Qed.

(** The flat trace: both channels get 0.01. *)
Lemma autorange_zero_peak_witness :
  exists tr3,
    autorange_block flat_scope (Finite 1) []
    = (Ok tt, tr3 ++ [Write (CHAN_SCAL 1 0.01); Write (CHAN_SCAL 2 0.01);
                      Write RUN]).
Proof.
  destruct (autorange_zero_peak flat_scope 1 [] one_second_sleeps)
    as [(d1 & d2 & tr2 & tr3 & H1 & H2 & _ & _ & Hok) _].
  destruct (flat_scope_fetch 1 ([] ++ [Write (CHAN_SCAL 1 1);
                                       Write (CHAN_SCAL 2 1); Write TFORCE;
                                       Sleep 1; Write STOP]))
    as [tr2' H1'].
  rewrite H1' in H1. injection H1 as <- <-.
  destruct (flat_scope_fetch 2 tr2') as [tr3' H2'].
  rewrite H2' in H2. injection H2 as <- <-.
  destruct (Hok ltac:(discriminate) ltac:(discriminate))
    as (a1 & a2 & v1 & v2 & Ha1 & Ha2 & Hrun & _ & _ & _ & _ & _ & _
        & Hz1 & Hz2).
  rewrite max_abs_zeros in Ha1, Ha2.
  injection Ha1 as <-. injection Ha2 as <-.
  exists tr3'. rewrite Hrun, (Hz1 eq_refl), (Hz2 eq_refl). reflexivity.
Defined.

(** ** Time shifts of a periodic signal (DS1054Z.dft_at_freq) *)

Lemma big_sum_plus (n : nat) (f g : nat -> R) :
  big_sum n (fun k => f k + g k) = big_sum n f + big_sum n g.
Proof. induction n as [|n IH]; simpl; [ring|rewrite IH; ring]. Qed.

Lemma big_sum_scal (n : nat) (c : R) (f : nat -> R) :
  big_sum n (fun k => c * f k) = c * big_sum n f.
Proof. induction n as [|n IH]; simpl; [ring|rewrite IH; ring]. Qed.

Lemma big_sum_succ (n : nat) (f : nat -> R) :
  big_sum n (fun k => f (S k)) = big_sum n f - f O + f n.
Proof. induction n as [|n IH]; simpl; [ring|rewrite IH; ring]. Qed.

Lemma periodic_mult (p : nat) (g : nat -> R) :
  periodic p g -> forall q k, g (k + q * p)%nat = g k.
Proof.
  intros Hp q. induction q as [|q IH]; intros k; simpl.
  - f_equal. lia.
  - replace (k + (p + q * p))%nat with ((k + q * p) + p)%nat by lia.
    rewrite Hp. apply IH.
Qed.

(** A sum over whole periods does not depend on where it starts. *)
Lemma big_sum_shift (p q : nat) (g : nat -> R) :
  periodic p g ->
  forall s, big_sum (q * p) (fun k => g (s + k)%nat) = big_sum (q * p) g.
Proof.
  intros Hp s. induction s as [|s IH].
  - apply big_sum_ext. intros k _. reflexivity.
  - rewrite <- IH.
    rewrite (big_sum_ext _ (fun k => g (S s + k)%nat)
                         (fun k => (fun j => g (s + j)%nat) (S k))).
    2:{ intros k _. f_equal. lia. }
    rewrite (big_sum_succ (q * p) (fun j => g (s + j)%nat)).
    rewrite (periodic_mult p g Hp q s). rewrite Nat.add_0_r. ring.
Qed.

Lemma window_length (x : nat -> R) (s len : nat) :
  length (window x s len) = len.
Proof. unfold window. now rewrite length_map, length_seq. Qed.

Lemma window_nth (x : nat -> R) (s len k : nat) :
  (k < len)%nat -> nth k (window x s len) 0 = x (s + k)%nat.
Proof.
  intros Hk. unfold window.
  rewrite (nth_indep _ 0 (x O)) by (rewrite length_map, length_seq; exact Hk).
  rewrite map_nth, seq_nth by exact Hk. reflexivity.
Qed.

Lemma window_periodic (x : nat -> R) (p m len : nat) :
  periodic p x -> window x (m * p) len = window x 0 len.
Proof.
  intros Hp. apply (nth_ext _ _ 0 0).
  - now rewrite !window_length.
  - intros k Hk. rewrite window_length in Hk.
    rewrite !window_nth by exact Hk.
    rewrite Nat.add_comm. apply (periodic_mult p x Hp).
Qed.

Lemma coefficient_window (x : nat -> R) (s len : nat) (spp : Z) :
  (1 <= spp)%Z -> (1 <= Z.of_nat len / spp)%Z ->
  let p := Z.to_nat spp in
  let n := (Z.to_nat (Z.of_nat len / spp) * p)%nat in
  spec_coefficient (window x s len) spp
  = (big_sum n (fun k => x (s + k)%nat * cos (2 * PI * (INR k / INR p)))
     / INR n,
     big_sum n (fun k => x (s + k)%nat * sin (2 * PI * (INR k / INR p)))
     / INR n).
Proof.
  intros Hspp Hper p n. unfold spec_coefficient. rewrite window_length.
  set (periods := (Z.of_nat len / spp)%Z) in *.
  assert (Hn : Z.to_nat (periods * spp) = n) by (unfold n, p; nia).
  rewrite Hn.
  assert (Hle : (n <= len)%nat).
  { assert (periods * spp <= Z.of_nat len)%Z
      by (unfold periods; rewrite Z.mul_comm; apply Z.mul_div_le; lia).
    lia. }
  assert (Hp : 0 < INR p) by (apply lt_0_INR; unfold p; lia).
  assert (Hq : 0 < IZR periods) by (apply IZR_lt; lia).
  assert (HnR : INR n = IZR periods * INR p).
  { unfold n. rewrite mult_INR, INR_IZR_INZ, Z2Nat.id by lia. reflexivity. }
  f_equal; f_equal; apply big_sum_ext; intros k Hk;
    rewrite window_nth by lia; unfold unit_exp, turns, Cx.re, Cx.im;
    cbn [fst snd]; do 3 f_equal; rewrite HnR; field; split; lra.
Qed.

Lemma cos_shift_periodic (x : nat -> R) (p : nat) :
  (0 < p)%nat -> periodic p x ->
  periodic p (fun j => x j * cos (2 * PI * (INR j / INR p))).
Proof.
  intros Hp Hx k. rewrite Hx. f_equal.
  assert (0 < INR p) by (apply lt_0_INR; exact Hp).
  replace (2 * PI * (INR (k + p) / INR p))
    with (2 * PI * (INR k / INR p) + 2 * INR 1 * PI)
    by (rewrite plus_INR; simpl; field; lra).
  apply cos_period.
Qed.

Lemma sin_shift_periodic (x : nat -> R) (p : nat) :
  (0 < p)%nat -> periodic p x ->
  periodic p (fun j => x j * sin (2 * PI * (INR j / INR p))).
Proof.
  intros Hp Hx k. rewrite Hx. f_equal.
  assert (0 < INR p) by (apply lt_0_INR; exact Hp).
  replace (2 * PI * (INR (k + p) / INR p))
    with (2 * PI * (INR k / INR p) + 2 * INR 1 * PI)
    by (rewrite plus_INR; simpl; field; lra).
  apply sin_period.
Qed.

(** Shifting a periodic signal by [s] samples turns the two projections
    by the angle of [s / p] turns. *)
Lemma projections_rotate (x : nat -> R) (p q s : nat) :
  (0 < p)%nat -> periodic p x ->
  let theta := 2 * PI * (INR s / INR p) in
  let A := fun s => big_sum (q * p)
             (fun k => x (s + k)%nat * cos (2 * PI * (INR k / INR p))) in
  let B := fun s => big_sum (q * p)
             (fun k => x (s + k)%nat * sin (2 * PI * (INR k / INR p))) in
  A s = cos theta * A O + sin theta * B O /\
  B s = cos theta * B O - sin theta * A O.
Proof.
  intros Hp Hx theta A B.
  assert (HpR : 0 < INR p) by (apply lt_0_INR; exact Hp).
  pose (gc := fun j => x j * cos (2 * PI * (INR j / INR p))).
  pose (gs := fun j => x j * sin (2 * PI * (INR j / INR p))).
  assert (Hangle : forall k, 2 * PI * (INR k / INR p)
                             = 2 * PI * (INR (s + k) / INR p) - theta).
  { intros k. unfold theta. rewrite plus_INR. field. lra. }
  assert (HA0 : A O = big_sum (q * p) gc) by reflexivity.
  assert (HB0 : B O = big_sum (q * p) gs) by reflexivity.
  pose proof (big_sum_shift p q gc (cos_shift_periodic x p Hp Hx) s) as Hc.
  pose proof (big_sum_shift p q gs (sin_shift_periodic x p Hp Hx) s) as Hs.
  split.
  - unfold A at 1.
    rewrite (big_sum_ext _ _ (fun k => cos theta * gc (s + k)%nat
                                       + sin theta * gs (s + k)%nat)).
    2:{ intros k _. rewrite (Hangle k), cos_minus. unfold gc, gs. ring. }
    rewrite big_sum_plus, !big_sum_scal, Hc, Hs, HA0, HB0. reflexivity.
  - unfold B at 1.
    rewrite (big_sum_ext _ _ (fun k => cos theta * gs (s + k)%nat
                                       + (- sin theta) * gc (s + k)%nat)).
    2:{ intros k _. rewrite (Hangle k), sin_minus. unfold gc, gs. ring. }
    rewrite big_sum_plus, !big_sum_scal, Hc, Hs, HA0, HB0. ring.
Qed.

Lemma abs_rotate (a b theta : R) :
  Cx.abs (cos theta * a + sin theta * b, cos theta * b - sin theta * a)
  = Cx.abs (a, b).
Proof.
  unfold Cx.abs, Cx.re, Cx.im. cbn [fst snd]. f_equal.
  pose proof (sin2_cos2 theta) as H. unfold Rsqr in H.
  replace ((cos theta * a + sin theta * b) * (cos theta * a + sin theta * b)
           + (cos theta * b - sin theta * a) * (cos theta * b - sin theta * a))
    with ((sin theta * sin theta + cos theta * cos theta) * (a * a + b * b))
    by ring.
  rewrite H. ring.
Qed.

Lemma cos_whole_turns (m : Z) : cos (2 * IZR m * PI) = 1.
Proof.
  assert (Hnat : forall j : nat, cos (2 * INR j * PI) = 1).
  { intros j. rewrite <- (Rplus_0_l (2 * INR j * PI)), cos_period.
    apply cos_0. }
  destruct (Z_le_gt_dec 0 m) as [Hm|Hm].
  - rewrite <- (Z2Nat.id m Hm), <- INR_IZR_INZ. apply Hnat.
  - rewrite <- cos_neg.
    replace (- (2 * IZR m * PI)) with (2 * IZR (- m) * PI)
      by (rewrite opp_IZR; ring).
    rewrite <- (Z2Nat.id (- m)) by lia. rewrite <- INR_IZR_INZ. apply Hnat.
Qed.

(** Two angles with the same cosine and sine differ by whole turns. *)
Lemma angles_congruent (a b : R) :
  cos a = cos b -> sin a = sin b -> exists k : Z, a = b + 2 * IZR k * PI.
Proof.
  intros Hc Hs.
  pose proof (sin2_cos2 b) as Hb. unfold Rsqr in Hb.
  assert (Hsin : sin (a - b) = 0) by (rewrite sin_minus, Hc, Hs; ring).
  assert (Hcos : cos (a - b) = 1) by (rewrite cos_minus, Hc, Hs; lra).
  destruct (sin_eq_0_0 _ Hsin) as [k Hk].
  destruct (Z.Even_or_Odd k) as [[m ->]|[m ->]].
  - exists m. rewrite mult_IZR in Hk. lra.
  - exfalso. rewrite Hk in Hcos.
    replace (IZR (2 * m + 1) * PI) with (2 * IZR m * PI + PI) in Hcos
      by (rewrite plus_IZR, mult_IZR; ring).
    rewrite neg_cos, cos_whole_turns in Hcos. lra.
Qed.

Lemma coefficient_shift (x : nat -> R) (s len : nat) (spp : Z) :
  (1 <= spp)%Z -> (1 <= Z.of_nat len / spp)%Z ->
  periodic (Z.to_nat spp) x ->
  let theta := 2 * PI * (INR s / IZR spp) in
  let c := spec_coefficient (window x 0 len) spp in
  spec_coefficient (window x s len) spp
  = (cos theta * Cx.re c + sin theta * Cx.im c,
     cos theta * Cx.im c - sin theta * Cx.re c).
Proof.
  intros Hspp Hper Hx theta c. unfold c.
  rewrite !coefficient_window by assumption.
  set (p := Z.to_nat spp). set (q := Z.to_nat (Z.of_nat len / spp)).
  assert (Hp : (0 < p)%nat) by (unfold p; lia).
  assert (Hn : 0 < INR (q * p)) by (apply lt_0_INR; unfold q; nia).
  assert (HpR : INR p = IZR spp)
    by (unfold p; rewrite INR_IZR_INZ, Z2Nat.id by lia; reflexivity).
  destruct (projections_rotate x p q s Hp Hx) as [HA HB].
  rewrite HpR in HA, HB. fold theta in HA, HB.
  rewrite HpR. rewrite HA, HB. unfold Cx.re, Cx.im. cbn [fst snd].
  f_equal; field; lra.
Qed.

Lemma degrees_shift (phi phi' theta : R) (k : Z) :
  phi' = phi - theta + 2 * IZR k * PI ->
  Np.degrees phi' = Np.degrees phi - Np.degrees theta + 360 * IZR k.
Proof.
  intros ->. unfold Np.degrees. pose proof PI_RGT_0. field. lra.
Qed.

(** C8: for a signal that repeats every [samples_per_period] samples,
    the buffer taken a whole number of periods later gives the same
    amplitude and the same phase; the buffer taken [s] samples later (any
    [s]) gives the same amplitude, and a phase changed by the linear
    function [- 360 * s / samples_per_period] of the shift, up to whole
    turns, which is a whole number of turns for a whole-period shift. *)
Theorem dft_shift_invariance (x : nat -> R) (len : nat)
        (sample_interval freq : R) :
  0 < sample_interval -> 0 < freq ->
  let spp := Py.round (1 / (freq * sample_interval)) in
  (5 <= spp)%Z -> (1 <= Z.of_nat len / spp)%Z ->
  periodic (Z.to_nat spp) x ->
  (forall m,
      dft_calc (window x (m * Z.to_nat spp) len) sample_interval freq
      = dft_calc (window x 0 len) sample_interval freq) /\
  (forall s, exists a ph a' ph',
      dft_calc (window x 0 len) sample_interval freq = Ok (a, ph) /\
      dft_calc (window x s len) sample_interval freq = Ok (a', ph') /\
      a' = a /\
      (a <> 0 -> exists k : Z,
          ph' = ph - 360 * (INR s / IZR spp) + 360 * IZR k)).
Proof.
  intros Hsi Hf spp H5 H1 Hx. split.
  - intros m. now rewrite (window_periodic x (Z.to_nat spp) m len Hx).
  - intros s.
    assert (Hspp : samples_per_period freq sample_interval = Ok spp)
      by (apply samples_per_period_defined; lra).
    set (c := spec_coefficient (window x 0 len) spp).
    set (c' := spec_coefficient (window x s len) spp).
    exists (4 * Cx.abs c), (Np.degrees (Cx.phase c)),
           (4 * Cx.abs c'), (Np.degrees (Cx.phase c')).
    assert (Hrot : c' = (cos (2 * PI * (INR s / IZR spp)) * Cx.re c
                         + sin (2 * PI * (INR s / IZR spp)) * Cx.im c,
                         cos (2 * PI * (INR s / IZR spp)) * Cx.im c
                         - sin (2 * PI * (INR s / IZR spp)) * Cx.re c))
      by (apply coefficient_shift; [lia|assumption|assumption]).
    set (theta := 2 * PI * (INR s / IZR spp)) in *.
    assert (Habs : Cx.abs c' = Cx.abs c).
    { rewrite Hrot. destruct c as [a b]. apply abs_rotate. }
    split; [|split; [|split]].
    + apply dft_calc_ok; rewrite ?window_length; assumption.
    + apply dft_calc_ok; rewrite ?window_length; assumption.
    + now rewrite Habs.
    + intros Ha.
      assert (Hr : Cx.abs c <> 0) by lra.
      pose proof (phase_polar c) as Hc. pose proof (phase_polar c') as Hc'.
      rewrite Habs in Hc'. rewrite Hc' in Hrot.
      set (r := Cx.abs c) in *. set (phi := Cx.phase c) in *.
      set (phi' := Cx.phase c') in *.
      rewrite Hc in Hrot. unfold Cx.re, Cx.im in Hrot. cbn [fst snd] in Hrot.
      injection Hrot as Hre Him.
      assert (Hcos : cos phi' = cos (phi - theta)).
      { rewrite cos_minus. apply Rmult_eq_reg_l with r; [|exact Hr].
        rewrite Hre. ring. }
      assert (Hsin : sin phi' = sin (phi - theta)).
      { rewrite sin_minus. apply Rmult_eq_reg_l with r; [|exact Hr].
        rewrite Him. ring. }
      destruct (angles_congruent _ _ Hcos Hsin) as [k Hk].
      exists k. rewrite (degrees_shift phi phi' theta k Hk).
      assert (Hth : Np.degrees theta = 360 * (INR s / IZR spp)).
      { unfold Np.degrees, theta. pose proof PI_RGT_0.
        assert (0 < IZR spp) by (apply IZR_lt; lia). field. lra. }
      rewrite Hth. reflexivity.
Qed.

Lemma round_five : Py.round (1 / (1 / 5 * 1)) = 5%Z.
Proof.
  unfold Py.round. replace (1 / (1 / 5 * 1)) with (IZR 5) by (simpl; lra).
  rewrite ZfloorZ. destruct (Rlt_dec (5 - 5) (1 / 2)); [reflexivity|lra].
Qed.

Lemma sawtooth_periodic : periodic 5 sawtooth.
Proof.
  intros k. unfold sawtooth. f_equal.
  rewrite <- Nat.Div0.add_mod_idemp_r. simpl (5 mod 5)%nat.
  now rewrite Nat.add_0_r.
Qed.

(** Ten samples of the sawtooth at 5 samples per period, taken one period
    later. *)
Lemma dft_shift_invariance_witness :
  dft_calc (window sawtooth 5 10) 1 (1 / 5)
  = dft_calc (window sawtooth 0 10) 1 (1 / 5).
Proof.
  destruct (dft_shift_invariance sawtooth 10 1 (1 / 5)) as [H _]; try lra.
  - rewrite round_five. lia.
  - rewrite round_five. now vm_compute.
  - rewrite round_five. exact sawtooth_periodic.
  - specialize (H 1%nat). rewrite round_five in H. exact H.
Defined.

(** ** The logarithmic frequency list (freqresp_iter, lines 50-54) *)

Lemma ln_10_pos : 0 < ln 10.
Proof. rewrite <- ln_1. apply ln_increasing; lra. Qed.

Lemma round_half (y : R) : Rabs (y - IZR (Py.round y)) <= 1 / 2.
Proof.
  unfold Py.round. pose proof (Zfloor_bound y) as [Hlo Hhi].
  destruct (Rlt_dec (y - IZR (Zfloor y)) (1 / 2)) as [H|H].
  - rewrite Rabs_pos_eq; lra.
  - destruct (Rlt_dec (1 / 2) (y - IZR (Zfloor y))) as [H'|H'].
    + rewrite plus_IZR, Rabs_left1; lra.
    + destruct (Z.even (Zfloor y)).
      * rewrite Rabs_pos_eq; lra.
      * rewrite plus_IZR, Rabs_left1; lra.
Qed.

Lemma py_range_from_0 (stop : Z) :
  Py.range 0 stop 1 = map Z.of_nat (seq 0 (Z.to_nat stop)).
Proof.
  unfold Py.range.
  replace ((stop - 0 + 1 - 1) / 1)%Z with stop by (rewrite Z.div_1_r; lia).
  apply map_ext. intros i. lia.
Qed.

(** The list computed by the code is the list of the specification. *)
Lemma log_freqs_spec (sigfig_round : R -> Z -> R) (freq_min freq_max : R)
      (log_stepsdec : Z) :
  0 < freq_min -> 0 < freq_max -> log_stepsdec <> 0%Z ->
  log_freqs sigfig_round freq_min freq_max log_stepsdec
  = Ok (spec_log_freqs sigfig_round freq_min freq_max log_stepsdec).
Proof.
  intros Hmin Hmax Hn.
  assert (HnR : IZR log_stepsdec <> 0) by (apply not_0_IZR; exact Hn).
  assert (Hbase : 0 < Rpower 10 (1 / IZR log_stepsdec))
    by (unfold Rpower; apply exp_pos).
  assert (Hlb : ln (Rpower 10 (1 / IZR log_stepsdec)) <> 0).
  { rewrite ln_Rpower. pose proof ln_10_pos.
    apply Rmult_integral_contrapositive_currified; [|lra].
    unfold Rdiv. rewrite Rmult_1_l. apply Rinv_neq_0_compat. exact HnR. }
  assert (Hratio : 0 < freq_max / freq_min)
    by (apply Rdiv_lt_0_compat; assumption).
  unfold log_freqs, spec_log_freqs, Py.truediv, Py.log.
  destruct (Req_dec_T (IZR log_stepsdec) 0) as [?|_]; [contradiction|]. simpl.
  destruct (Req_dec_T freq_min 0) as [?|_]; [lra|]. simpl.
  destruct (Rlt_dec 0 (freq_max / freq_min)) as [_|?]; [|contradiction]. simpl.
  destruct (Rlt_dec 0 (Rpower 10 (1 / IZR log_stepsdec))) as [_|?];
    [|contradiction]. simpl.
  destruct (Req_dec_T (ln (Rpower 10 (1 / IZR log_stepsdec))) 0) as [?|_];
    [contradiction|]. simpl.
  destruct (Rlt_dec 0 freq_min) as [_|?]; [|contradiction]. simpl.
  f_equal. rewrite py_range_from_0, map_map.
  apply map_ext. intros i. now rewrite <- INR_IZR_INZ.
Qed.

Lemma powerRZ_10_pos (d : Z) : 0 < powerRZ 10 d.
Proof. apply powerRZ_lt. lra. Qed.

Lemma ln_powerRZ_10 (d : Z) : ln (powerRZ 10 d) = IZR d * ln 10.
Proof. rewrite powerRZ_Rpower by lra. apply ln_Rpower. Qed.

Lemma sigfig_half_even_rounds : rounds_to_sigfigs sigfig_half_even.
Proof.
  intros x n d Hn [Hlo Hhi]. pose proof ln_10_pos as Hln.
  pose proof (powerRZ_10_pos d) as Hd.
  assert (Hx : 0 < x) by lra.
  assert (Hfloor : Zfloor (ln x / ln 10) = d).
  { apply Zfloor_eq. split.
    - apply Rmult_le_reg_r with (ln 10); [exact Hln|].
      replace (ln x / ln 10 * ln 10) with (ln x) by (field; lra).
      rewrite <- ln_powerRZ_10.
      destruct Hlo as [Hlo|Hlo]; [left; apply ln_increasing; assumption|].
      rewrite Hlo. lra.
    - apply Rmult_lt_reg_r with (ln 10); [exact Hln|].
      replace (ln x / ln 10 * ln 10) with (ln x) by (field; lra).
      rewrite <- plus_IZR, <- ln_powerRZ_10.
      apply ln_increasing; assumption. }
  unfold sigfig_half_even. rewrite Hfloor.
  set (u := powerRZ 10 (d - n + 1)).
  assert (Hu : 0 < u) by apply powerRZ_10_pos.
  exists (Py.round (x / u)). split; [reflexivity|].
  pose proof (round_half (x / u)) as Hr.
  replace (x - IZR (Py.round (x / u)) * u)
    with ((x / u - IZR (Py.round (x / u))) * u) by (field; lra).
  rewrite Rabs_mult, (Rabs_pos_eq u) by lra.
  apply Rmult_le_reg_r with (/ u); [apply Rinv_0_lt_compat; exact Hu|].
  replace (Rabs (x / u - IZR (Py.round (x / u))) * u * / u)
    with (Rabs (x / u - IZR (Py.round (x / u)))) by (field; lra).
  replace (u / 2 * / u) with (1 / 2) by (field; lra).
  exact Hr.
Qed.

(** The tenth roots of the powers of ten, between consecutive
    half-integers: [M - 1/2 < 10 * 10^(j/10) < M + 1/2]. *)
Lemma root_bounds (j : nat) (M : Z) :
  (0 < 2 * M - 1)%Z ->
  ((2 * M - 1) ^ 10 < 10 ^ Z.of_nat j * 20 ^ 10)%Z ->
  (10 ^ Z.of_nat j * 20 ^ 10 < (2 * M + 1) ^ 10)%Z ->
  IZR M - 1 / 2 < 10 * Rpower 10 (INR j / 10) < IZR M + 1 / 2.
Proof.
  intros Hpos Hlo Hhi.
  set (y := Rpower 10 (INR j / 10)).
  assert (Hy : 0 < y) by (unfold y, Rpower; apply exp_pos).
  assert (Hy10 : (20 * y) ^ 10 = IZR (10 ^ Z.of_nat j * 20 ^ 10)).
  { rewrite Rpow_mult_distr. unfold y.
    rewrite <- (Rpower_pow 10 (Rpower 10 (INR j / 10)))
      by (unfold Rpower; apply exp_pos).
    rewrite Rpower_mult.
    replace (INR j / 10 * INR 10) with (INR j) by (simpl; field).
    rewrite Rpower_pow by lra.
    change (20 ^ 10)%Z with (20 ^ Z.of_nat 10)%Z.
    rewrite mult_IZR, <- !pow_IZR. ring. }
  assert (H20 : IZR (2 * M - 1) < 20 * y < IZR (2 * M + 1)).
  { split.
    - apply Rnot_le_lt. intros Hle.
      assert (Hp : (20 * y) ^ 10 <= IZR (2 * M - 1) ^ 10)
        by (apply pow_incr; lra).
      rewrite Hy10, pow_IZR in Hp. apply le_IZR in Hp. simpl Z.of_nat in Hp.
      lia.
    - apply Rnot_le_lt. intros Hle.
      assert (H0 : 0 <= IZR (2 * M + 1)) by (apply IZR_le; lia).
      assert (Hp : IZR (2 * M + 1) ^ 10 <= (20 * y) ^ 10)
        by (apply pow_incr; lra).
      rewrite Hy10, pow_IZR in Hp. apply le_IZR in Hp. simpl Z.of_nat in Hp.
      lia. }
  rewrite minus_IZR, plus_IZR, mult_IZR in H20. lra.
Qed.

Lemma tenth_root_ge_1 (j : nat) : 1 <= Rpower 10 (INR j / 10).
Proof.
  unfold Rpower. pose proof ln_10_pos. pose proof (pos_INR j).
  pose proof (exp_ineq1_le (INR j / 10 * ln 10)). nra.
Qed.

(** The rounded frequency at step [10 * a + j] of the default sweep. *)
Lemma sweep_point (sigfig_round : R -> Z -> R) (a j : nat) (M : Z) (v : R) :
  rounds_to_sigfigs sigfig_round ->
  (10 <= M <= 99)%Z ->
  ((2 * M - 1) ^ 10 < 10 ^ Z.of_nat j * 20 ^ 10)%Z ->
  (10 ^ Z.of_nat j * 20 ^ 10 < (2 * M + 1) ^ 10)%Z ->
  v = IZR M * 10 ^ (1 + a) ->
  sigfig_round (Rpower (Rpower 10 (1 / 10)) (20 + INR (10 * a + j))) 2%Z = v.
Proof.
  intros Hround HM Hlo Hhi ->.
  pose proof (root_bounds j M ltac:(lia) Hlo Hhi) as [Hr1 Hr2].
  pose proof (tenth_root_ge_1 j) as Hge.
  set (r := Rpower 10 (INR j / 10)) in *.
  assert (HM99 : IZR M <= 99) by (apply IZR_le; lia).
  set (p := 10 ^ a).
  assert (Hp : 0 < p) by (apply pow_lt; lra).
  assert (E1 : 10 ^ (1 + a) = 10 * p)
    by (unfold p; rewrite pow_add; simpl; ring).
  assert (E2 : 10 ^ (2 + a) = 100 * p)
    by (unfold p; rewrite pow_add; simpl; ring).
  assert (E3 : 10 ^ (3 + a) = 1000 * p)
    by (unfold p; rewrite pow_add; simpl; ring).
  assert (Hx : Rpower (Rpower 10 (1 / 10)) (20 + INR (10 * a + j))
               = 100 * p * r).
  { rewrite Rpower_mult.
    replace (1 / 10 * (20 + INR (10 * a + j)))
      with (INR (2 + a) + INR j / 10)
      by (rewrite !plus_INR, mult_INR; simpl; field).
    rewrite Rpower_plus, Rpower_pow by lra. fold r. rewrite E2. reflexivity. }
  rewrite Hx, E1.
  assert (Hpr : p <= p * r) by nra.
  assert (Hpr' : p * r < 10 * p) by nra.
  destruct (Hround (100 * p * r) 2%Z (Z.of_nat (2 + a)) ltac:(lia))
    as [m [Hm Hnear]].
  { rewrite <- pow_powerRZ.
    replace (Z.of_nat (2 + a) + 1)%Z with (Z.of_nat (3 + a)) by lia.
    rewrite <- pow_powerRZ, E2, E3. split; lra. }
  replace (Z.of_nat (2 + a) - 2 + 1)%Z with (Z.of_nat (1 + a)) in Hm, Hnear
    by lia.
  rewrite <- pow_powerRZ, E1 in Hm, Hnear.
  rewrite Hm. f_equal. f_equal.
  assert (Hb : - (10 * p / 2) <= 100 * p * r - IZR m * (10 * p) <= 10 * p / 2).
  { revert Hnear. unfold Rabs. destruct Rcase_abs; lra. }
  assert (Hm1 : IZR m < IZR (M + 1)).
  { rewrite plus_IZR. apply Rmult_lt_reg_l with p; [exact Hp|]. nra. }
  assert (Hm2 : IZR M < IZR (m + 1)).
  { rewrite plus_IZR. apply Rmult_lt_reg_l with p; [exact Hp|]. nra. }
  apply lt_IZR in Hm1, Hm2. lia.
Qed.

Lemma default_sweep_parameters :
  ln (Rpower 10 (1 / 10)) = ln 10 / 10 /\
  Zceil (ln (100000 / 100) / ln (Rpower 10 (1 / 10))) = 30%Z /\
  ln 100 / ln (Rpower 10 (1 / 10)) = 20 /\
  Zceil (10 / 10 + 1) = 2%Z.
Proof.
  pose proof ln_10_pos as Hln.
  assert (Hlb : ln (Rpower 10 (1 / 10)) = ln 10 / 10)
    by (rewrite ln_Rpower; lra).
  assert (H3 : ln (100000 / 100) = 3 * ln 10).
  { replace (100000 / 100) with (10 ^ 3) by (simpl; lra).
    rewrite ln_pow by lra. simpl. ring. }
  assert (H2 : ln 100 = 2 * ln 10).
  { replace 100 with (10 ^ 2) by (simpl; lra).
    rewrite ln_pow by lra. simpl. ring. }
  split; [exact Hlb|]. rewrite Hlb, H3, H2. split; [|split].
  - apply Zceil_eq. replace (3 * ln 10 / (ln 10 / 10)) with 30 by (field; lra).
    lra.
  - field. lra.
  - apply Zceil_eq. lra.
Qed.

(** Rewrites the frequency at step [10 * a + j] to its rounded value
    [v = M * 10^(1 + a)]. *)
Tactic Notation "point" constr(a) constr(j) constr(M) constr(v) :=
  match goal with
  | Hround : rounds_to_sigfigs ?sr |- _ =>
      rewrite (sweep_point sr a j M v Hround);
      [ | lia | now vm_compute | now vm_compute | simpl; lra ]
  end.

(** With any rounding to the nearest two significant figures, the
    default sweep is the list [default_freqs]. *)
Lemma default_sweep_rounded (sigfig_round : R -> Z -> R) :
  rounds_to_sigfigs sigfig_round ->
  spec_log_freqs sigfig_round 100 100000 10 = default_freqs.
Proof.
  intros Hround. unfold spec_log_freqs.
  destruct default_sweep_parameters as (_ & Hsteps & Hfirst & Hsig).
  rewrite Hsteps, Hfirst, Hsig.
  change (Z.to_nat (30 + 1)) with 31%nat.
  change (seq 0 31)
    with [10 * 0 + 0; 10 * 0 + 1; 10 * 0 + 2; 10 * 0 + 3; 10 * 0 + 4; 10
       * 0 + 5; 10 * 0 + 6; 10 * 0 + 7; 10 * 0 + 8; 10 * 0 + 9; 10 * 1
       + 0; 10 * 1 + 1; 10 * 1 + 2; 10 * 1 + 3; 10 * 1 + 4; 10 * 1 +
       5; 10 * 1 + 6; 10 * 1 + 7; 10 * 1 + 8; 10 * 1 + 9; 10 * 2 + 0;
       10 * 2 + 1; 10 * 2 + 2; 10 * 2 + 3; 10 * 2 + 4; 10 * 2 + 5; 10
       * 2 + 6; 10 * 2 + 7; 10 * 2 + 8; 10 * 2 + 9; 10 * 3 + 0]%nat.
  cbn [map].
  point 0%nat 0%nat 10%Z 100.
  point 0%nat 1%nat 13%Z 130.
  point 0%nat 2%nat 16%Z 160.
  point 0%nat 3%nat 20%Z 200.
  point 0%nat 4%nat 25%Z 250.
  point 0%nat 5%nat 32%Z 320.
  point 0%nat 6%nat 40%Z 400.
  point 0%nat 7%nat 50%Z 500.
  point 0%nat 8%nat 63%Z 630.
  point 0%nat 9%nat 79%Z 790.
  point 1%nat 0%nat 10%Z 1000.
  point 1%nat 1%nat 13%Z 1300.
  point 1%nat 2%nat 16%Z 1600.
  point 1%nat 3%nat 20%Z 2000.
  point 1%nat 4%nat 25%Z 2500.
  point 1%nat 5%nat 32%Z 3200.
  point 1%nat 6%nat 40%Z 4000.
  point 1%nat 7%nat 50%Z 5000.
  point 1%nat 8%nat 63%Z 6300.
  point 1%nat 9%nat 79%Z 7900.
  point 2%nat 0%nat 10%Z 10000.
  point 2%nat 1%nat 13%Z 13000.
  point 2%nat 2%nat 16%Z 16000.
  point 2%nat 3%nat 20%Z 20000.
  point 2%nat 4%nat 25%Z 25000.
  point 2%nat 5%nat 32%Z 32000.
  point 2%nat 6%nat 40%Z 40000.
  point 2%nat 7%nat 50%Z 50000.
  point 2%nat 8%nat 63%Z 63000.
  point 2%nat 9%nat 79%Z 79000.
  point 3%nat 0%nat 10%Z 100000.
  reflexivity.
Qed.

Lemma nth_map_seq {A} (f : nat -> A) (s len i : nat) (d : A) :
  (i < len)%nat -> nth i (map f (seq s len)) d = f (s + i)%nat.
Proof.
  intros Hi.
  rewrite (nth_indep _ d (f O)) by (rewrite length_map, length_seq; exact Hi).
  rewrite map_nth, seq_nth by exact Hi. reflexivity.
Qed.

Lemma default_freqs_increasing : increasing default_freqs.
Proof. unfold default_freqs. simpl. repeat split; lra. Qed.

(** C4: in logarithmic mode, for positive [freq_min], [freq_max] and a
    non-zero [log_stepsdec], the frequency list holds
    [base ^ (first + i)] for [i = 0 .. steps], each rounded to
    [ceil(log_stepsdec / 10 + 1)] significant figures, with
    [base = 10 ^ (1 / log_stepsdec)],
    [steps = ceil(log(freq_max / freq_min) / log(base))] and
    [first = log(freq_min) / log(base)].  For 100 Hz to 100 kHz at 10
    steps per decade the list is 100, 130, 160, ..., 79000, 100000: it is
    strictly increasing, starts at 100, ends at or below [100000 * base]
    and has 31 elements. *)
Theorem log_sweep_frequencies (sigfig_round : R -> Z -> R)
        (freq_min freq_max : R) (log_stepsdec : Z) :
  rounds_to_sigfigs sigfig_round ->
  0 < freq_min -> 0 < freq_max -> log_stepsdec <> 0%Z ->
  let base := Rpower 10 (1 / IZR log_stepsdec) in
  let steps := Zceil (ln (freq_max / freq_min) / ln base) in
  let first := ln freq_min / ln base in
  let sigfigs := Zceil (IZR log_stepsdec / 10 + 1) in
  (exists freqs,
      sweep_freqs sigfig_round freq_min freq_max log_stepsdec None = Ok freqs /\
      length freqs = Z.to_nat (steps + 1) /\
      forall i, (i < length freqs)%nat ->
                nth i freqs 0
                = sigfig_round (Rpower base (first + INR i)) sigfigs) /\
  (exists freqs,
      sweep_freqs sigfig_round 100 100000 10 None = Ok freqs /\
      increasing freqs /\
      hd 0 freqs = 100 /\
      last freqs 0 <= 100000 * Rpower 10 (1 / 10) /\
      length freqs = 31%nat /\
      freqs = default_freqs).
Proof.
  intros Hround Hmin Hmax Hn base steps first sigfigs. split.
  - exists (spec_log_freqs sigfig_round freq_min freq_max log_stepsdec).
    split; [apply log_freqs_spec; assumption|].
    unfold spec_log_freqs. fold base. fold steps. fold first. fold sigfigs.
    rewrite length_map, length_seq. split; [reflexivity|].
    intros i Hi. rewrite nth_map_seq by exact Hi. reflexivity.
  - exists default_freqs. split.
    + unfold sweep_freqs.
      rewrite log_freqs_spec by (lra || discriminate).
      now rewrite (default_sweep_rounded sigfig_round Hround).
    + split; [exact default_freqs_increasing|].
      split; [reflexivity|]. split; [|split; reflexivity].
      simpl. pose proof (tenth_root_ge_1 1) as H. simpl in H. lra.
Qed.

(** The default sweep with ties rounded to even. *)
Lemma log_sweep_frequencies_witness :
  exists freqs,
    sweep_freqs sigfig_half_even 100 100000 10 None = Ok freqs /\
    length freqs = 31%nat /\ hd 0 freqs = 100.
Proof.
  destruct (log_sweep_frequencies sigfig_half_even 100 100000 10
              sigfig_half_even_rounds)
    as [_ (freqs & Hrun & _ & Hhd & _ & Hlen & _)]; try lra.
  - discriminate.
  - exists freqs. repeat split; assumption.
Defined.

(** ** DS1054Z.dft_at_freq on the instrument *)

Lemma fetch_blocks_total (sc : scope) (end_ : Z) (blockstarts : list Z) :
  forall alldata tr, exists data tr',
    DS1054Z.fetch_blocks sc end_ blockstarts alldata tr = (Ok data, tr').
Proof.
  induction blockstarts as [|b rest IH]; intros alldata tr; simpl.
  - do 2 eexists. reflexivity.
  - do 3 (erewrite bind_ok by reflexivity). apply IH.
Qed.

Lemma fetch_data_raw_total (sc : scope) (channel start : Z) (end_ : option Z)
      (tr : trace) :
  exists data tr',
    DS1054Z.fetch_data_raw sc channel start end_ tr = (Ok data, tr').
Proof.
  unfold DS1054Z.fetch_data_raw.
  do 7 (erewrite bind_ok by reflexivity).
  destruct end_ as [e|]; erewrite bind_ok by reflexivity;
    match goal with
    | |- context [bind (DS1054Z.fetch_blocks sc ?e ?bs []) _ ?t] =>
        destruct (fetch_blocks_total sc e bs [] t) as (data & tr' & H)
    end;
    erewrite bind_ok by exact H; do 2 eexists; reflexivity.
Qed.

(** The method fetches the buffer, asks for the sample interval and
    returns what the computation of lines 213-232 gives on them. *)
Lemma dft_at_freq_calc (sc : scope) (channel : Z) (freq : R) (use_raw : bool)
      (tr : trace) :
  exists data tr',
    (if use_raw then DS1054Z.fetch_data_raw sc channel 1 None
     else DS1054Z.fetch_data sc channel) tr = (Ok data, tr') /\
    DS1054Z.dft_at_freq sc channel freq use_raw tr
    = (dft_calc data (answer_float sc WAV_XINC tr') freq,
       tr' ++ [QueryFloat WAV_XINC]).
Proof.
  assert (H : exists data tr',
             (if use_raw then DS1054Z.fetch_data_raw sc channel 1 None
              else DS1054Z.fetch_data sc channel) tr = (Ok data, tr')).
  { destruct use_raw;
      [apply fetch_data_raw_total|apply fetch_data_total]. }
  destruct H as (data & tr' & H). exists data, tr'. split; [exact H|].
  unfold DS1054Z.dft_at_freq.
  erewrite bind_ok by exact H.
  erewrite bind_ok by reflexivity. reflexivity.
Qed.

(** * Further properties of the measurement code *)

(** ** Sums of a rotating unit vector over whole periods *)

Lemma cos_lt_1 (x : R) : 0 < x < 2 * PI -> cos x < 1.
Proof.
  intros [H0 H1].
  replace x with (2 * (x / 2)) by field. rewrite cos_2a_sin.
  assert (0 < sin (x / 2)) by (apply sin_gt_0; lra). nra.
Qed.

(** The sums of [cos (k * alpha)] and [sin (k * alpha)] over whole periods
    vanish unless [alpha] is a whole number of turns. *)
Lemma rotation_sum_zero (p q m : nat) (alpha : R) :
  INR p * alpha = 2 * INR m * PI -> cos alpha <> 1 ->
  big_sum (q * p) (fun k => cos (INR k * alpha)) = 0 /\
  big_sum (q * p) (fun k => sin (INR k * alpha)) = 0.
Proof.
  intros Hper Hne.
  set (gc := fun k => cos (INR k * alpha)).
  set (gs := fun k => sin (INR k * alpha)).
  assert (Hpc : periodic p gc).
  { intros k. unfold gc. rewrite plus_INR, Rmult_plus_distr_r, Hper.
    apply cos_period. }
  assert (Hps : periodic p gs).
  { intros k. unfold gs. rewrite plus_INR, Rmult_plus_distr_r, Hper.
    apply sin_period. }
  pose proof (big_sum_shift p q gc Hpc 1) as Hc.
  pose proof (big_sum_shift p q gs Hps 1) as Hs.
  rewrite (big_sum_ext _ _ (fun k => cos alpha * gc k + (- sin alpha) * gs k))
    in Hc.
  2:{ intros k _. unfold gc, gs.
      replace (INR (1 + k) * alpha) with (INR k * alpha + alpha)
        by (rewrite plus_INR; simpl; ring).
      rewrite cos_plus. ring. }
  rewrite (big_sum_ext _ _ (fun k => cos alpha * gs k + sin alpha * gc k))
    in Hs.
  2:{ intros k _. unfold gc, gs.
      replace (INR (1 + k) * alpha) with (INR k * alpha + alpha)
        by (rewrite plus_INR; simpl; ring).
      rewrite sin_plus. ring. }
  rewrite big_sum_plus, !big_sum_scal in Hc, Hs.
  set (C := big_sum (q * p) gc) in *. set (S := big_sum (q * p) gs) in *.
  pose proof (sin2_cos2 alpha) as H1. unfold Rsqr in H1.
  assert (E1 : (1 - cos alpha) * C + sin alpha * S = 0) by lra.
  assert (E2 : sin alpha * C - (1 - cos alpha) * S = 0) by lra.
  assert (HC : (1 - cos alpha) * C = 0).
  { assert (E : 2 * ((1 - cos alpha) * C)
                = (1 - cos alpha) * ((1 - cos alpha) * C + sin alpha * S)
                  + sin alpha * (sin alpha * C - (1 - cos alpha) * S)
                  + (1 - (sin alpha * sin alpha + cos alpha * cos alpha)) * C)
      by ring.
    rewrite E1, E2, H1 in E. lra. }
  assert (HS : (1 - cos alpha) * S = 0).
  { assert (E : 2 * ((1 - cos alpha) * S)
                = sin alpha * ((1 - cos alpha) * C + sin alpha * S)
                  - (1 - cos alpha) * (sin alpha * C - (1 - cos alpha) * S)
                  + (1 - (sin alpha * sin alpha + cos alpha * cos alpha)) * S)
      by ring.
    rewrite E1, E2, H1 in E. lra. }
  split.
  - destruct (Rmult_integral _ _ HC); [lra|assumption].
  - destruct (Rmult_integral _ _ HS); [lra|assumption].
Qed.

Lemma harmonic_sum_zero (p q m : nat) (psi : R) :
  (0 < m < p)%nat ->
  big_sum (q * p) (fun k => cos (INR m * angle_at p k + psi)) = 0 /\
  big_sum (q * p) (fun k => sin (INR m * angle_at p k + psi)) = 0.
Proof.
  intros [Hm Hp].
  assert (HpR : 0 < INR p) by (apply lt_0_INR; lia).
  assert (HmR : 0 < INR m) by (apply lt_0_INR; lia).
  assert (HmpR : INR m < INR p) by (apply lt_INR; lia).
  pose proof PI_RGT_0 as HPI.
  set (alpha := 2 * PI * (INR m / INR p)).
  assert (Hper : INR p * alpha = 2 * INR m * PI) by (unfold alpha; field; lra).
  assert (Halpha : 0 < alpha < 2 * PI).
  { unfold alpha. split.
    - apply Rmult_lt_0_compat; [lra|]. apply Rdiv_lt_0_compat; lra.
    - rewrite <- (Rmult_1_r (2 * PI)) at 2.
      apply Rmult_lt_compat_l; [lra|].
      apply Rmult_lt_reg_r with (INR p); [exact HpR|].
      replace (INR m / INR p * INR p) with (INR m) by (field; lra). lra. }
  assert (Hne : cos alpha <> 1) by (pose proof (cos_lt_1 alpha Halpha); lra).
  destruct (rotation_sum_zero p q m alpha Hper Hne) as [HC HS].
  assert (Hang : forall k, INR m * angle_at p k + psi = INR k * alpha + psi)
    by (intros k; unfold angle_at, alpha; field; lra).
  split.
  - rewrite (big_sum_ext _ _ (fun k => cos psi * cos (INR k * alpha)
                                       + (- sin psi) * sin (INR k * alpha))).
    2:{ intros k _. rewrite Hang, cos_plus. ring. }
    rewrite big_sum_plus, !big_sum_scal, HC, HS. ring.
  - rewrite (big_sum_ext _ _ (fun k => cos psi * sin (INR k * alpha)
                                       + sin psi * cos (INR k * alpha))).
    2:{ intros k _. rewrite Hang, sin_plus. ring. }
    rewrite big_sum_plus, !big_sum_scal, HC, HS. ring.
Qed.

(** Product-to-sum. *)
Lemma cos_cos (a b : R) : cos a * cos b = (cos (a + b) + cos (a - b)) / 2.
Proof. rewrite cos_plus, cos_minus. field. Qed.

Lemma cos_sin (a b : R) : cos a * sin b = (sin (a + b) - sin (a - b)) / 2.
Proof. rewrite sin_plus, sin_minus. field. Qed.

(** The projections of a constant on the measured frequency vanish. *)
Lemma constant_projection (p q : nat) (d : R) :
  (2 <= p)%nat ->
  big_sum (q * p) (fun k => d * cos (angle_at p k)) = 0 /\
  big_sum (q * p) (fun k => d * sin (angle_at p k)) = 0.
Proof.
  intros Hp.
  destruct (harmonic_sum_zero p q 1 0 ltac:(lia)) as [HC HS].
  rewrite !big_sum_scal.
  rewrite (big_sum_ext _ (fun k => cos (angle_at p k))
                       (fun k => cos (INR 1 * angle_at p k + 0))).
  2:{ intros k _. f_equal. simpl. ring. }
  rewrite (big_sum_ext _ (fun k => sin (angle_at p k))
                       (fun k => sin (INR 1 * angle_at p k + 0))).
  2:{ intros k _. f_equal. simpl. ring. }
  rewrite HC, HS. split; ring.
Qed.

(** The projections of the harmonics 2 .. p - 2 vanish. *)
Lemma harmonic_projection (p q h : nat) (B psi : R) :
  (2 <= h)%nat -> (h + 1 < p)%nat ->
  big_sum (q * p) (fun k => harmonic p h B psi k * cos (angle_at p k)) = 0 /\
  big_sum (q * p) (fun k => harmonic p h B psi k * sin (angle_at p k)) = 0.
Proof.
  intros Hh Hp.
  destruct (harmonic_sum_zero p q (h + 1) psi ltac:(lia)) as [HC1 HS1].
  destruct (harmonic_sum_zero p q (h - 1) psi ltac:(lia)) as [HC2 HS2].
  assert (E1 : forall t, INR h * t + psi + t = INR (h + 1) * t + psi)
    by (intros t; rewrite plus_INR; simpl; ring).
  assert (E2 : forall t, INR h * t + psi - t = INR (h - 1) * t + psi)
    by (intros t; rewrite minus_INR by lia; simpl; ring).
  split.
  - rewrite (big_sum_ext _ _
       (fun k => B / 2 * cos (INR (h + 1) * angle_at p k + psi)
                 + B / 2 * cos (INR (h - 1) * angle_at p k + psi))).
    2:{ intros k _. unfold harmonic.
        rewrite Rmult_assoc, cos_cos, E1, E2. field. }
    rewrite big_sum_plus, !big_sum_scal, HC1, HC2. ring.
  - rewrite (big_sum_ext _ _
       (fun k => B / 2 * sin (INR (h + 1) * angle_at p k + psi)
                 + (- (B / 2)) * sin (INR (h - 1) * angle_at p k + psi))).
    2:{ intros k _. unfold harmonic.
        rewrite Rmult_assoc, cos_sin, E1, E2. field. }
    rewrite big_sum_plus, !big_sum_scal, HS1, HS2. ring.
Qed.

Lemma big_sum_const (n : nat) (c : R) : big_sum n (fun _ => c) = INR n * c.
Proof.
  induction n as [|n IH]; [simpl; ring|].
  change (big_sum (S n) (fun _ => c)) with (big_sum n (fun _ => c) + c).
  rewrite IH, S_INR. ring.
Qed.

(** The projections of the measured frequency itself. *)
Lemma fundamental_projection (p q : nat) (A phi : R) :
  (3 <= p)%nat ->
  big_sum (q * p) (fun k => A * cos (angle_at p k + phi) * cos (angle_at p k))
  = INR (q * p) * (A / 2 * cos phi) /\
  big_sum (q * p) (fun k => A * cos (angle_at p k + phi) * sin (angle_at p k))
  = INR (q * p) * (- (A / 2 * sin phi)).
Proof.
  intros Hp.
  destruct (harmonic_sum_zero p q 2 phi ltac:(lia)) as [HC HS].
  pose proof (big_sum_const (q * p)) as Hconst.
  assert (E1 : forall t, t + phi + t = INR 2 * t + phi)
    by (intros t; simpl; ring).
  assert (E2 : forall t, t + phi - t = phi) by (intros t; ring).
  split.
  - rewrite (big_sum_ext _ _
       (fun k => A / 2 * cos (INR 2 * angle_at p k + phi) + A / 2 * cos phi)).
    2:{ intros k _. rewrite Rmult_assoc, cos_cos, E1, E2. field. }
    rewrite big_sum_plus, big_sum_scal, HC, Hconst. ring.
  - rewrite (big_sum_ext _ _
       (fun k => A / 2 * sin (INR 2 * angle_at p k + phi)
                 + - (A / 2 * sin phi))).
    2:{ intros k _. rewrite Rmult_assoc, cos_sin, E1, E2. field. }
    rewrite big_sum_plus, big_sum_scal, HS, Hconst. ring.
Qed.

(** ** What the single-frequency DFT measures *)

Lemma list_as_window (data : list R) :
  window (fun k => nth k data 0) 0 (length data) = data.
Proof.
  apply (nth_ext _ _ 0 0).
  - apply window_length.
  - intros k Hk. rewrite window_length in Hk. now rewrite window_nth.
Qed.

(** The coefficient of a buffer in terms of its two projections. *)
Lemma coefficient_projections (data : list R) (spp : Z) :
  (1 <= spp)%Z -> (1 <= Z.of_nat (length data) / spp)%Z ->
  let p := Z.to_nat spp in
  let n := (Z.to_nat (Z.of_nat (length data) / spp) * p)%nat in
  spec_coefficient data spp
  = (big_sum n (fun k => nth k data 0 * cos (angle_at p k)) / INR n,
     big_sum n (fun k => nth k data 0 * sin (angle_at p k)) / INR n).
Proof.
  intros Hspp Hper p n.
  rewrite <- (list_as_window data) at 1.
  apply (coefficient_window (fun k => nth k data 0) 0 (length data) spp);
    assumption.
Qed.

Lemma add_signal_length (y : nat -> R) (data : list R) :
  length (add_signal y data) = length data.
Proof. unfold add_signal. now rewrite length_map, length_seq. Qed.

Lemma add_signal_nth (y : nat -> R) (data : list R) (k : nat) :
  (k < length data)%nat -> nth k (add_signal y data) 0 = nth k data 0 + y k.
Proof. intros Hk. unfold add_signal. now rewrite nth_map_seq. Qed.

(** Adding a signal whose projections vanish leaves the coefficient. *)
Lemma coefficient_add_null (y : nat -> R) (data : list R) (spp : Z) :
  (1 <= spp)%Z -> (1 <= Z.of_nat (length data) / spp)%Z ->
  let p := Z.to_nat spp in
  let n := (Z.to_nat (Z.of_nat (length data) / spp) * p)%nat in
  big_sum n (fun k => y k * cos (angle_at p k)) = 0 ->
  big_sum n (fun k => y k * sin (angle_at p k)) = 0 ->
  spec_coefficient (add_signal y data) spp = spec_coefficient data spp.
Proof.
  intros Hspp Hper p n Hc Hs.
  pose proof (coefficient_projections (add_signal y data) spp Hspp) as E.
  rewrite add_signal_length in E. specialize (E Hper). cbv zeta in E.
  rewrite E, (coefficient_projections data spp Hspp Hper). cbv zeta.
  fold p. fold n.
  assert (Hn : (n <= length data)%nat).
  { unfold n, p.
    assert (Z.of_nat (length data) / spp * spp <= Z.of_nat (length data))%Z
      by (rewrite Z.mul_comm; apply Z.mul_div_le; lia).
    nia. }
  f_equal; f_equal.
  - rewrite (big_sum_ext n _ (fun k => nth k data 0 * cos (angle_at p k)
                                       + y k * cos (angle_at p k))).
    2:{ intros k Hk. rewrite add_signal_nth by lia. ring. }
    rewrite big_sum_plus, Hc. ring.
  - rewrite (big_sum_ext n _ (fun k => nth k data 0 * sin (angle_at p k)
                                       + y k * sin (angle_at p k))).
    2:{ intros k Hk. rewrite add_signal_nth by lia. ring. }
    rewrite big_sum_plus, Hs. ring.
Qed.

Lemma dft_calc_raise (data : list R) (sample_interval freq : R) (e : exn) :
  samples_per_period freq sample_interval = Raise e ->
  dft_calc data sample_interval freq = Raise e.
Proof. intros H. unfold dft_calc. now rewrite H. Qed.

(** The result depends on the buffer through its length and its
    coefficient only. *)
Lemma dft_calc_same_coefficient (data data' : list R)
      (sample_interval freq : R) :
  length data' = length data ->
  (forall spp, samples_per_period freq sample_interval = Ok spp ->
               (5 <= spp)%Z -> (1 <= Z.of_nat (length data) / spp)%Z ->
               spec_coefficient data' spp = spec_coefficient data spp) ->
  dft_calc data' sample_interval freq = dft_calc data sample_interval freq.
Proof.
  intros Hlen Hc.
  destruct (samples_per_period freq sample_interval) as [spp|e] eqn:Hspp.
  - rewrite !(dft_calc_cases _ _ _ spp Hspp), Hlen.
    destruct (Z.ltb_spec spp 5) as [|H5]; [reflexivity|].
    destruct (Z.ltb_spec (Z.of_nat (length data) / spp) 1) as [|H1];
      [reflexivity|].
    now rewrite (Hc spp eq_refl H5 H1).
  - now rewrite !(dft_calc_raise _ _ _ e Hspp).
Qed.

(** Adding a signal whose projections over whole periods vanish changes
    nothing. *)
Lemma dft_calc_add_null (y : nat -> R) (data : list R)
      (sample_interval freq : R) :
  (forall spp q,
      samples_per_period freq sample_interval = Ok spp -> (5 <= spp)%Z ->
      big_sum (q * Z.to_nat spp)
              (fun k => y k * cos (angle_at (Z.to_nat spp) k)) = 0 /\
      big_sum (q * Z.to_nat spp)
              (fun k => y k * sin (angle_at (Z.to_nat spp) k)) = 0) ->
  dft_calc (add_signal y data) sample_interval freq
  = dft_calc data sample_interval freq.
Proof.
  intros Hy. apply dft_calc_same_coefficient; [apply add_signal_length|].
  intros spp Hspp H5 H1.
  destruct (Hy spp (Z.to_nat (Z.of_nat (length data) / spp)) Hspp H5)
    as [Hc Hs].
  apply coefficient_add_null; try assumption. lia.
Qed.

(** X1: a constant offset added to every sample changes neither the
    amplitude, nor the phase, nor the failures of the DFT. *)
Theorem dft_ignores_offset (data : list R) (sample_interval freq d : R) :
  dft_calc (map (fun v => v + d) data) sample_interval freq
  = dft_calc data sample_interval freq.
Proof.
  replace (map (fun v => v + d) data) with (add_signal (fun _ => d) data).
  - apply dft_calc_add_null. intros spp q _ H5.
    apply constant_projection. lia.
  - apply (nth_ext _ _ 0 (0 + d)).
    + now rewrite add_signal_length, length_map.
    + intros k Hk. rewrite add_signal_length in Hk.
      rewrite add_signal_nth by exact Hk.
      now rewrite (map_nth (fun v => v + d)).
Qed.

(** X2: a harmonic 2 .. samples_per_period - 2 of the measured frequency,
    of any amplitude and phase, added to the buffer changes neither the
    amplitude nor the phase. *)
Theorem dft_rejects_harmonics (data : list R) (sample_interval freq B psi : R)
        (h : nat) (spp : Z) :
  samples_per_period freq sample_interval = Ok spp ->
  (2 <= h)%nat -> (Z.of_nat h + 1 < spp)%Z ->
  dft_calc (add_signal (harmonic (Z.to_nat spp) h B psi) data)
           sample_interval freq
  = dft_calc data sample_interval freq.
Proof.
  intros Hspp Hh Hlt. apply dft_calc_add_null.
  intros spp' q Hspp' _. rewrite Hspp in Hspp'. injection Hspp' as <-.
  apply harmonic_projection; lia.
Qed.

Lemma samples_per_period_five : samples_per_period (1 / 5) 1 = Ok 5%Z.
Proof.
  rewrite samples_per_period_defined by lra. now rewrite round_five.
Qed.

(** The second harmonic at 5 samples per period. *)
Lemma dft_rejects_harmonics_witness :
  dft_calc (add_signal (harmonic 5 2 3 0) [0; 1; 0; -1; 0; 0; 1; 0; -1; 0])
           1 (1 / 5)
  = dft_calc [0; 1; 0; -1; 0; 0; 1; 0; -1; 0] 1 (1 / 5).
Proof.
  apply (dft_rejects_harmonics _ 1 (1 / 5) 3 0 2 5 samples_per_period_five);
    lia.
Defined.

Lemma sinusoid_coefficient (len : nat) (spp : Z) (A phi d : R) :
  (3 <= spp)%Z -> (1 <= Z.of_nat len / spp)%Z ->
  spec_coefficient (window (sinusoid (Z.to_nat spp) A phi d) 0 len) spp
  = (A / 2 * cos phi, - (A / 2 * sin phi)).
Proof.
  intros Hspp Hper.
  rewrite coefficient_window by lia.
  set (p := Z.to_nat spp). set (q := Z.to_nat (Z.of_nat len / spp)).
  assert (Hn : 0 < INR (q * p)) by (apply lt_0_INR; unfold p, q; nia).
  destruct (constant_projection p q d ltac:(unfold p; lia)) as [Hc Hs].
  destruct (fundamental_projection p q A phi ltac:(unfold p; lia)) as [Fc Fs].
  f_equal.
  - rewrite (big_sum_ext _ _
       (fun k => d * cos (angle_at p k)
                 + A * cos (angle_at p k + phi) * cos (angle_at p k))).
    2:{ intros k _. unfold sinusoid, angle_at. simpl. ring. }
    rewrite big_sum_plus, Hc, Fc. field. lra.
  - rewrite (big_sum_ext _ _
       (fun k => d * sin (angle_at p k)
                 + A * cos (angle_at p k + phi) * sin (angle_at p k))).
    2:{ intros k _. unfold sinusoid, angle_at. simpl. ring. }
    rewrite big_sum_plus, Hs, Fs. field. lra.
Qed.

(** X3: a sampled cosine [d + A cos(2 pi k / samples_per_period + phi)]
    with [A > 0], on any offset [d], measures an amplitude of exactly
    [2 A], its peak-to-peak value, and a phase of [- phi] in degrees, up
    to whole turns; exactly [- phi] when [- pi <= phi < pi]. *)
Theorem dft_of_sinusoid (len : nat) (sample_interval freq A phi d : R) :
  0 < sample_interval -> 0 < freq -> 0 < A ->
  let spp := Py.round (1 / (freq * sample_interval)) in
  (5 <= spp)%Z -> (1 <= Z.of_nat len / spp)%Z ->
  exists ph,
    dft_calc (window (sinusoid (Z.to_nat spp) A phi d) 0 len)
             sample_interval freq = Ok (2 * A, ph) /\
    (exists k : Z, ph = - Np.degrees phi + 360 * IZR k) /\
    (- PI <= phi < PI -> ph = - Np.degrees phi).
Proof.
  intros Hsi Hf HA spp H5 H1.
  assert (Hspp : samples_per_period freq sample_interval = Ok spp)
    by (apply samples_per_period_defined; lra).
  set (data := window (sinusoid (Z.to_nat spp) A phi d) 0 len).
  set (c := spec_coefficient data spp).
  assert (Hc : c = (A / 2 * cos phi, - (A / 2 * sin phi)))
    by (apply sinusoid_coefficient; [lia|assumption]).
  assert (Habs : Cx.abs c = A / 2).
  { rewrite Hc. unfold Cx.abs, Cx.re, Cx.im. cbn [fst snd].
    pose proof (sin2_cos2 phi) as H. unfold Rsqr in H.
    replace (A / 2 * cos phi * (A / 2 * cos phi)
             + - (A / 2 * sin phi) * - (A / 2 * sin phi))
      with ((sin phi * sin phi + cos phi * cos phi) * (A / 2 * (A / 2)))
      by ring.
    rewrite H, Rmult_1_l. apply sqrt_square. lra. }
  pose proof (phase_polar c) as Hpol. rewrite Habs in Hpol.
  rewrite Hc in Hpol at 1. injection Hpol as Hre Him.
  set (psi := Cx.phase c) in *.
  assert (Hcos : cos psi = cos (- phi)).
  { rewrite cos_neg. apply Rmult_eq_reg_l with (A / 2); lra. }
  assert (Hsin : sin psi = sin (- phi)).
  { rewrite sin_neg. apply Rmult_eq_reg_l with (A / 2); lra. }
  destruct (angles_congruent _ _ Hcos Hsin) as [k Hk].
  pose proof PI_RGT_0 as HPI.
  exists (Np.degrees psi). split; [|split].
  - replace (2 * A) with (4 * Cx.abs c) by (rewrite Habs; field).
    apply dft_calc_ok; unfold data; rewrite ?window_length; assumption.
  - exists k. rewrite Hk. unfold Np.degrees. field. lra.
  - intros [Hlo Hhi].
    pose proof (atan2_bounds (Cx.im c) (Cx.re c)) as [Hb1 Hb2].
    fold (Cx.phase c) in Hb1, Hb2. fold psi in Hb1, Hb2.
    assert (Hk0 : k = 0%Z).
    { assert (H1' : IZR (-1) < IZR k).
      { apply Rmult_lt_reg_r with (2 * PI); [lra|]. simpl. lra. }
      assert (H2' : IZR k < IZR 1).
      { apply Rmult_lt_reg_r with (2 * PI); [lra|]. simpl. lra. }
      apply lt_IZR in H1', H2'. lia. }
    subst k. rewrite Hk. unfold Np.degrees. field. lra.
Qed.

(** A cosine of amplitude 3 on an offset of 7, at 5 samples per period. *)
Lemma dft_of_sinusoid_witness :
  exists ph,
    dft_calc (window (sinusoid 5 3 0 7) 0 10) 1 (1 / 5) = Ok (2 * 3, ph).
Proof.
  destruct (dft_of_sinusoid 10 1 (1 / 5) 3 0 7) as [ph [H _]]; try lra.
  - rewrite round_five. lia.
  - rewrite round_five. now vm_compute.
  - rewrite round_five in H. exists ph. exact H.
Defined.

(** ** Gain and polarity *)

Lemma coefficient_scale (g : R) (data : list R) (spp : Z) :
  spec_coefficient (map (Rmult g) data) spp
  = (g * Cx.re (spec_coefficient data spp),
     g * Cx.im (spec_coefficient data spp)).
Proof.
  unfold spec_coefficient. rewrite length_map. cbn [Cx.re Cx.im fst snd].
  assert (Hnth : forall k, nth k (map (Rmult g) data) 0 = g * nth k data 0).
  { intros k. rewrite <- (Rmult_0_r g) at 1. apply (map_nth (Rmult g)). }
  assert (Hsum : forall n (f : nat -> R),
             big_sum n (fun k => nth k (map (Rmult g) data) 0 * f k)
             = g * big_sum n (fun k => nth k data 0 * f k)).
  { intros n f. rewrite <- big_sum_scal. apply big_sum_ext.
    intros k _. rewrite Hnth. ring. }
  rewrite !Hsum. unfold Rdiv. f_equal; ring.
Qed.

Lemma abs_scale (g x y : R) : 0 <= g -> Cx.abs (g * x, g * y) = g * Cx.abs (x, y).
Proof.
  intros Hg. unfold Cx.abs, Cx.re, Cx.im. cbn [fst snd].
  replace (g * x * (g * x) + g * y * (g * y)) with (g * g * (x * x + y * y))
    by ring.
  rewrite sqrt_mult by nra. now rewrite sqrt_square.
Qed.

Lemma atan2_scale (g y x : R) : 0 < g -> Cx.atan2 (g * y) (g * x) = Cx.atan2 y x.
Proof.
  intros Hg. unfold Cx.atan2.
  assert (Hq : x <> 0 -> g * y / (g * x) = y / x) by (intros; field; lra).
  assert (Hx1 : 0 < g * x <-> 0 < x) by (split; intros; nra).
  assert (Hx2 : g * x < 0 <-> x < 0) by (split; intros; nra).
  assert (Hy1 : 0 < g * y <-> 0 < y) by (split; intros; nra).
  assert (Hy2 : g * y < 0 <-> y < 0) by (split; intros; nra).
  assert (Hy3 : 0 <= g * y <-> 0 <= y) by (split; intros; nra).
  destruct (Rlt_dec 0 (g * x)), (Rlt_dec 0 x); try tauto;
    [rewrite Hq by lra; reflexivity|].
  destruct (Rlt_dec (g * x) 0), (Rlt_dec x 0); try tauto.
  - destruct (Rle_dec 0 (g * y)), (Rle_dec 0 y); try tauto;
      rewrite Hq by lra; reflexivity.
  - destruct (Rlt_dec 0 (g * y)), (Rlt_dec 0 y); try tauto.
    destruct (Rlt_dec (g * y) 0), (Rlt_dec y 0); tauto.
Qed.

(** X4: a gain [g > 0] applied to every sample multiplies the measured
    amplitude by [g] and leaves the phase; the failures are the same. *)
Theorem dft_scales_with_gain (data : list R) (sample_interval freq g : R) :
  0 < g ->
  dft_calc (map (Rmult g) data) sample_interval freq
  = match dft_calc data sample_interval freq with
    | Ok (amplitude, phase) => Ok (g * amplitude, phase)
    | Raise e => Raise e
    end.
Proof.
  intros Hg.
  destruct (samples_per_period freq sample_interval) as [spp|e] eqn:Hspp.
  - rewrite !(dft_calc_cases _ _ _ spp Hspp), length_map.
    destruct (Z.ltb_spec spp 5) as [|H5]; [reflexivity|].
    destruct (Z.ltb_spec (Z.of_nat (length data) / spp) 1) as [|H1];
      [reflexivity|].
    rewrite coefficient_scale.
    destruct (spec_coefficient data spp) as [x y]. cbn [Cx.re Cx.im fst snd].
    rewrite abs_scale by lra. unfold Cx.phase. cbn [Cx.re Cx.im fst snd].
    rewrite atan2_scale by exact Hg. do 2 f_equal. ring.
  - now rewrite !(dft_calc_raise _ _ _ e Hspp).
Qed.

(** Doubling the samples doubles the amplitude. *)
Lemma dft_scales_with_gain_witness :
  dft_calc (map (Rmult 2) [0; 1; 0; -1; 0]) 1 (1 / 5)
  = match dft_calc [0; 1; 0; -1; 0] 1 (1 / 5) with
    | Ok (amplitude, phase) => Ok (2 * amplitude, phase)
    | Raise e => Raise e
    end.
Proof. apply dft_scales_with_gain. lra. Defined.

(** X5: inverting the signal leaves the measured amplitude and, when the
    amplitude is not zero, turns the phase by half a turn. *)
Theorem dft_of_inverted (data : list R) (sample_interval freq a ph : R) :
  dft_calc data sample_interval freq = Ok (a, ph) ->
  exists ph',
    dft_calc (map Ropp data) sample_interval freq = Ok (a, ph') /\
    (a <> 0 -> exists k : Z, ph' = ph + 180 + 360 * IZR k).
Proof.
  intros Hrun.
  destruct (samples_per_period freq sample_interval) as [spp|e] eqn:Hspp;
    [|rewrite (dft_calc_raise _ _ _ e Hspp) in Hrun; discriminate].
  rewrite (dft_calc_cases _ _ _ spp Hspp) in Hrun.
  rewrite (dft_calc_cases _ _ _ spp Hspp), length_map.
  destruct (spp <? 5)%Z; [discriminate|].
  destruct (Z.of_nat (length data) / spp <? 1)%Z; [discriminate|].
  injection Hrun as Ha Hph.
  set (c := spec_coefficient data spp) in *.
  set (c' := spec_coefficient (map Ropp data) spp).
  assert (Hc' : c' = (- Cx.re c, - Cx.im c)).
  { unfold c'. replace (map Ropp data) with (map (Rmult (-1)) data)
      by (apply map_ext; intros; ring).
    rewrite coefficient_scale. fold c. f_equal; ring. }
  assert (Habs : Cx.abs c' = Cx.abs c).
  { rewrite Hc'. unfold Cx.abs, Cx.re, Cx.im. cbn [fst snd]. f_equal. ring. }
  exists (Np.degrees (Cx.phase c')). split; [now rewrite Habs, Ha|].
  intros Hne.
  assert (Hr : Cx.abs c <> 0) by lra.
  pose proof (phase_polar c) as Hc. pose proof (phase_polar c') as Hp'.
  rewrite Habs in Hp'. rewrite Hp' in Hc'.
  set (r := Cx.abs c) in *. set (phi := Cx.phase c) in *.
  set (phi' := Cx.phase c') in *.
  rewrite Hc in Hc'. unfold Cx.re, Cx.im in Hc'. cbn [fst snd] in Hc'.
  injection Hc' as Hre Him.
  assert (Hcos : cos phi' = cos (phi + PI)).
  { rewrite neg_cos. apply Rmult_eq_reg_l with r; [lra|exact Hr]. }
  assert (Hsin : sin phi' = sin (phi + PI)).
  { rewrite neg_sin. apply Rmult_eq_reg_l with r; [lra|exact Hr]. }
  destruct (angles_congruent _ _ Hcos Hsin) as [k Hk].
  exists k. rewrite <- Hph, Hk. unfold Np.degrees.
  pose proof PI_RGT_0. field. lra.
Qed.

(** One period of a sampled wave, inverted. *)
Lemma dft_of_inverted_witness :
  exists a ph ph',
    dft_calc [0; 1; 0; -1; 0] 1 (1 / 5) = Ok (a, ph) /\
    dft_calc (map Ropp [0; 1; 0; -1; 0]) 1 (1 / 5) = Ok (a, ph').
Proof.
  assert (H : dft_calc [0; 1; 0; -1; 0] 1 (1 / 5)
              = Ok (4 * Cx.abs (spec_coefficient [0; 1; 0; -1; 0] 5),
                    Np.degrees (Cx.phase (spec_coefficient [0; 1; 0; -1; 0] 5)))).
  { apply dft_calc_ok; [exact samples_per_period_five|lia|].
    cbn [length]. now vm_compute. }
  destruct (dft_of_inverted _ _ _ _ _ H) as [ph' [H' _]].
  do 3 eexists. split; [exact H|exact H'].
Defined.

(** ** Which buffers can be measured *)

Lemma spec_coefficient_app (data extra : list R) (spp : Z) :
  (Z.of_nat (length (data ++ extra)) / spp = Z.of_nat (length data) / spp)%Z ->
  (0 < spp)%Z ->
  spec_coefficient (data ++ extra) spp = spec_coefficient data spp.
Proof.
  intros Hper Hspp. unfold spec_coefficient. rewrite Hper.
  set (n := Z.to_nat (Z.of_nat (length data) / spp * spp)).
  assert (Hn : (n <= length data)%nat).
  { assert (Z.of_nat (length data) / spp * spp <= Z.of_nat (length data))%Z
      by (rewrite Z.mul_comm; apply Z.mul_div_le; lia).
    unfold n. lia. }
  f_equal; f_equal; apply big_sum_ext; intros k Hk;
    rewrite app_nth1 by lia; reflexivity.
Qed.

(** X6: samples appended to the buffer that do not complete a further
    period change neither the result nor the failures: only whole periods
    are measured. *)
Theorem dft_ignores_partial_period (data extra : list R)
        (sample_interval freq : R) (spp : Z) :
  samples_per_period freq sample_interval = Ok spp ->
  (Z.of_nat (length (data ++ extra)) / spp = Z.of_nat (length data) / spp)%Z ->
  dft_calc (data ++ extra) sample_interval freq
  = dft_calc data sample_interval freq.
Proof.
  intros Hspp Hper.
  rewrite !(dft_calc_cases _ _ _ spp Hspp), Hper.
  destruct (Z.ltb_spec spp 5) as [|H5]; [reflexivity|].
  destruct (Z.ltb_spec (Z.of_nat (length data) / spp) 1) as [|H1];
    [reflexivity|].
  rewrite spec_coefficient_app by (assumption || lia). reflexivity.
Qed.

(** Two periods of 5 samples followed by 3 more samples. *)
Lemma dft_ignores_partial_period_witness :
  dft_calc ([0; 1; 0; -1; 0; 0; 1; 0; -1; 0] ++ [9; 9; 9]) 1 (1 / 5)
  = dft_calc [0; 1; 0; -1; 0; 0; 1; 0; -1; 0] 1 (1 / 5).
Proof.
  apply (dft_ignores_partial_period _ _ 1 (1 / 5) 5 samples_per_period_five).
  now vm_compute.
Defined.

Lemma round_candidates (y : R) :
  Py.round y = Zfloor y \/ Py.round y = (Zfloor y + 1)%Z.
Proof.
  unfold Py.round.
  destruct (Rlt_dec _ _); [now left|].
  destruct (Rlt_dec _ _); [now right|].
  destruct (Z.even _); [now left|now right].
Qed.

(** [round(y) < 5] exactly when [y <= 4.5]: the tie at 4.5 goes to 4. *)
Lemma round_below_5 (y : R) : (Py.round y < 5)%Z <-> y <= 9 / 2.
Proof.
  pose proof (Zfloor_bound y) as [Hlo Hhi].
  split.
  - intros Hr. apply Rnot_lt_le. intros Hy.
    assert (Hf : (4 <= Zfloor y)%Z) by (apply Zfloor_lub; lra).
    destruct (Z.eq_dec (Zfloor y) 4) as [E|E].
    + revert Hr. unfold Py.round. rewrite E in *.
      destruct (Rlt_dec (y - 4) (1 / 2)); [lra|].
      destruct (Rlt_dec (1 / 2) (y - 4)); [lia|lra].
    + destruct (round_candidates y); lia.
  - intros Hy.
    assert (Hf : (Zfloor y < 5)%Z).
    { apply lt_IZR. lra. }
    destruct (Z.eq_dec (Zfloor y) 4) as [E|E].
    + unfold Py.round. rewrite E in *.
      destruct (Rlt_dec (y - 4) (1 / 2)); [lia|].
      destruct (Rlt_dec (1 / 2) (y - 4)); [lra|]. simpl. lia.
    + destruct (round_candidates y); lia.
Qed.

(** X7: for a positive frequency and sample interval, the DFT returns a
    result exactly when [freq * sample_interval < 2 / 9] (more than 4.5
    samples per period) and the buffer holds at least
    [samples_per_period] samples. *)
Theorem dft_calc_succeeds_iff (data : list R) (sample_interval freq : R) :
  0 < sample_interval -> 0 < freq ->
  (exists amplitude phase,
      dft_calc data sample_interval freq = Ok (amplitude, phase))
  <-> freq * sample_interval < 2 / 9 /\
      (Py.round (1 / (freq * sample_interval)) <= Z.of_nat (length data))%Z.
Proof.
  intros Hsi Hf.
  assert (Hspp : samples_per_period freq sample_interval
                 = Ok (Py.round (1 / (freq * sample_interval))))
    by (apply samples_per_period_defined; lra).
  set (spp := Py.round (1 / (freq * sample_interval))) in *.
  assert (Hfs : 0 < freq * sample_interval) by nra.
  assert (Hthr : (spp < 5)%Z <-> 2 / 9 <= freq * sample_interval).
  { unfold spp. rewrite round_below_5. split; intros H.
    - apply Rmult_le_reg_r with (9 / 2 / (freq * sample_interval)).
      + apply Rdiv_lt_0_compat; lra.
      + replace (2 / 9 * (9 / 2 / (freq * sample_interval)))
          with (1 / (freq * sample_interval)) by (field; lra).
        replace (freq * sample_interval * (9 / 2 / (freq * sample_interval)))
          with (9 / 2) by (field; lra).
        exact H.
    - apply Rmult_le_reg_r with (freq * sample_interval); [exact Hfs|].
      replace (1 / (freq * sample_interval) * (freq * sample_interval))
        with 1 by (field; lra).
      lra. }
  rewrite (dft_calc_cases _ _ _ spp Hspp).
  destruct (Z.ltb_spec spp 5) as [H5|H5].
  - split; [intros (a & ph & H); discriminate|].
    intros [Hlt _]. apply Hthr in H5. lra.
  - assert (Hper : (Z.of_nat (length data) / spp < 1)%Z
                   <-> (Z.of_nat (length data) < spp)%Z).
    { split; intros H.
      - apply Z.nle_gt. intros Hle.
        assert (1 <= Z.of_nat (length data) / spp)%Z
          by (apply Z.div_le_lower_bound; lia).
        lia.
      - rewrite Z.div_small by lia. lia. }
    destruct (Z.ltb_spec (Z.of_nat (length data) / spp) 1) as [H1|H1].
    + split; [intros (a & ph & H); discriminate|].
      intros [_ Hle]. apply Hper in H1. lia.
    + split; [|eauto]. intros _. split.
      * apply Rnot_le_lt. intros Hge. apply Hthr in Hge. lia.
      * apply Z.nlt_ge. intros Hlt. apply Hper in Hlt. lia.
Qed.

(** Five samples at 5 samples per period. *)
Lemma dft_calc_succeeds_iff_witness :
  exists amplitude phase,
    dft_calc [0; 1; 0; -1; 0] 1 (1 / 5) = Ok (amplitude, phase).
Proof.
  apply (dft_calc_succeeds_iff [0; 1; 0; -1; 0] 1 (1 / 5)); try lra.
  split; [lra|]. rewrite round_five. cbn [length]. lia.
Defined.

(** ** The frequency lists of the sweep (freqresp_iter, lines 47-54) *)

Lemma increasing_map_seq (f : nat -> R) (n s : nat) :
  (forall i, f i < f (S i)) -> increasing (map f (seq s n)).
Proof.
  intros Hf. revert s. induction n as [|n IH]; intros s; [exact I|].
  specialize (IH (S s)). destruct n as [|n]; [exact I|].
  change (f s < f (S s) /\ increasing (map f (seq (S s) (S n)))).
  split; [apply Hf|exact IH].
Qed.

(** X8: in linear mode with a positive interval the sweep visits
    [freq_min + i * lin_interval] for [i = 0, 1, ...] as long as this is
    below [freq_max]: every frequency lies in [[freq_min, freq_max)], the
    list is strictly increasing, and it is empty when
    [freq_max <= freq_min]. *)
Theorem linear_sweep_frequencies (sigfig_round : R -> Z -> R)
        (freq_min freq_max step : R) (log_stepsdec : Z) :
  0 < step ->
  exists freqs,
    sweep_freqs sigfig_round freq_min freq_max log_stepsdec (Some step)
    = Ok freqs /\
    length freqs = Z.to_nat (Zceil ((freq_max - freq_min) / step)) /\
    (forall i, (i < length freqs)%nat ->
               nth i freqs 0 = freq_min + INR i * step /\
               freq_min <= nth i freqs 0 < freq_max) /\
    increasing freqs /\
    (freq_max <= freq_min -> freqs = []) /\
    (freq_min < freq_max -> hd 0 freqs = freq_min).
Proof.
  intros Hstep. exists (Np.arange freq_min freq_max step).
  pose proof (Zceil_bound ((freq_max - freq_min) / step)) as [Hc1 Hc2].
  set (c := Zceil ((freq_max - freq_min) / step)) in *.
  assert (Hlen : length (Np.arange freq_min freq_max step) = Z.to_nat c).
  { unfold Np.arange. fold c. now rewrite length_map, length_seq. }
  split; [|split; [exact Hlen|split; [|split; [|split]]]].
  - unfold sweep_freqs. destruct (Req_dec_T step 0); [lra|reflexivity].
  - intros i Hi. rewrite Hlen in Hi. unfold Np.arange. fold c.
    rewrite nth_map_seq by exact Hi. simpl (0 + i)%nat.
    split; [reflexivity|].
    pose proof (pos_INR i) as Hi0.
    assert (Hic : INR i <= IZR c - 1).
    { rewrite INR_IZR_INZ, <- minus_IZR. apply IZR_le. lia. }
    split; [nra|].
    assert (Hlt : INR i * step < (freq_max - freq_min) / step * step)
      by (apply Rmult_lt_compat_r; lra).
    replace ((freq_max - freq_min) / step * step) with (freq_max - freq_min)
      in Hlt by (field; lra).
    lra.
  - unfold Np.arange. apply increasing_map_seq. intros i. rewrite S_INR. nra.
  - intros Hle. unfold Np.arange. fold c.
    assert (Hc0 : (c <= 0)%Z).
    { apply le_IZR.
      assert ((freq_max - freq_min) / step <= 0).
      { apply Rmult_le_reg_r with step; [exact Hstep|].
        replace ((freq_max - freq_min) / step * step)
          with (freq_max - freq_min) by (field; lra).
        lra. }
      assert (Hz : IZR (c - 1) < IZR 0) by (rewrite minus_IZR; lra).
      apply lt_IZR in Hz. apply IZR_le. lia. }
    replace (Z.to_nat c) with 0%nat by lia. reflexivity.
  - intros Hlt. unfold Np.arange. fold c.
    assert (Hc0 : (0 < c)%Z).
    { apply lt_IZR.
      assert (0 < (freq_max - freq_min) / step)
        by (apply Rdiv_lt_0_compat; lra).
      lra. }
    destruct (Z.to_nat c) as [|m] eqn:E; [lia|]. simpl. ring.
Qed.

(** From 0 Hz to 10 Hz in steps of 2 Hz. *)
Lemma linear_sweep_frequencies_witness :
  exists freqs,
    sweep_freqs sigfig_half_even 0 10 10 (Some 2) = Ok freqs /\
    length freqs = Z.to_nat (Zceil ((10 - 0) / 2)) /\
    increasing freqs.
Proof.
  destruct (linear_sweep_frequencies sigfig_half_even 0 10 2 10)
    as (freqs & H1 & H2 & _ & H3 & _); [lra|].
  exists freqs. repeat split; assumption.
Defined.


Lemma last_map_seq {A} (f : nat -> A) (m : nat) (d : A) :
  last (map f (seq 0 (S m))) d = f m.
Proof. rewrite seq_S, map_app. simpl. apply last_last. Qed.



(** ** Rounding to the supported scales (set_timebase, set_channel_scale) *)

Lemma nearest_of_member (values : list R) (x v : R) :
  In x values -> DS1054Z.nearest values x = Ok v -> v = x.
Proof.
  intros Hin Hv. destruct (nearest_spec _ _ _ Hv) as [_ Hmin].
  specialize (Hmin x Hin). revert Hmin.
  unfold Rabs. repeat destruct Rcase_abs; lra.
Qed.

Lemma nearest_monotone (values : list R) (s s' v v' : R) :
  s <= s' ->
  DS1054Z.nearest values s = Ok v -> DS1054Z.nearest values s' = Ok v' ->
  v <= v'.
Proof.
  intros Hs Hv Hv'. apply Rnot_lt_le. intros Hlt.
  destruct (nearest_spec _ _ _ Hv) as [Hin Hmin].
  destruct (nearest_spec _ _ _ Hv') as [Hin' Hmin'].
  specialize (Hmin v' Hin'). specialize (Hmin' v Hin).
  assert (H1 : v + v' <= 2 * s)
    by (revert Hmin; unfold Rabs; repeat destruct Rcase_abs; lra).
  assert (H2 : 2 * s' <= v + v')
    by (revert Hmin'; unfold Rabs; repeat destruct Rcase_abs; lra).
  assert (s = s') by lra. subst s'.
  rewrite Hv in Hv'. injection Hv' as <-. lra.
Qed.

Lemma nearest_saturates (values : list R) (lo hi s v : R) :
  In lo values -> In hi values ->
  (forall x, In x values -> lo <= x <= hi) ->
  DS1054Z.nearest values s = Ok v ->
  (s <= lo -> v = lo) /\ (hi <= s -> v = hi).
Proof.
  intros Hlo Hhi Hb Hv. destruct (nearest_spec _ _ _ Hv) as [Hin Hmin].
  pose proof (Hb v Hin) as Hvb. split; intros Hs.
  - specialize (Hmin lo Hlo). revert Hmin.
    unfold Rabs. repeat destruct Rcase_abs; lra.
  - specialize (Hmin hi Hhi). revert Hmin.
    unfold Rabs. repeat destruct Rcase_abs; lra.
Qed.

Lemma vertical_scales_range (x : R) :
  In x DS1054Z.vertical_scales -> 0.01 <= x <= 100.
Proof.
  unfold DS1054Z.vertical_scales. simpl.
  intros H. repeat (destruct H as [<-|H]; [lra|]). destruct H.
Qed.

Lemma timebases_range (x : R) : In x DS1054Z.timebases -> 2e-9 <= x <= 50.
Proof.
  unfold DS1054Z.timebases. simpl.
  intros H. repeat (destruct H as [<-|H]; [lra|]). destruct H.
Qed.

(** X10: the rounding of [set_channel_scale] and [set_timebase] keeps a
    supported value as it is, is monotone in the requested value, and
    saturates: a scale request at or below 0.01 sends 0.01, at or above
    100 sends 100; a timebase request at or below 2 ns sends 2 ns, at or
    above 50 s sends 50 s. *)
Theorem rounding_properties (channel : Z) (tr : trace) :
  (forall s, In s DS1054Z.vertical_scales ->
             DS1054Z.set_channel_scale channel s true tr
             = (Ok tt, tr ++ [Write (CHAN_SCAL channel s)])) /\
  (forall t, In t DS1054Z.timebases ->
             DS1054Z.set_timebase t true tr
             = (Ok tt, tr ++ [Write (TIM_SCAL t)])) /\
  (forall s s' v v',
      s <= s' ->
      DS1054Z.set_channel_scale channel s true tr
      = (Ok tt, tr ++ [Write (CHAN_SCAL channel v)]) ->
      DS1054Z.set_channel_scale channel s' true tr
      = (Ok tt, tr ++ [Write (CHAN_SCAL channel v')]) ->
      v <= v') /\
  (forall t t' v v',
      t <= t' ->
      DS1054Z.set_timebase t true tr = (Ok tt, tr ++ [Write (TIM_SCAL v)]) ->
      DS1054Z.set_timebase t' true tr = (Ok tt, tr ++ [Write (TIM_SCAL v')]) ->
      v <= v') /\
  (forall s, s <= 0.01 ->
             DS1054Z.set_channel_scale channel s true tr
             = (Ok tt, tr ++ [Write (CHAN_SCAL channel 0.01)])) /\
  (forall s, 100 <= s ->
             DS1054Z.set_channel_scale channel s true tr
             = (Ok tt, tr ++ [Write (CHAN_SCAL channel 100)])) /\
  (forall t, t <= 2e-9 ->
             DS1054Z.set_timebase t true tr
             = (Ok tt, tr ++ [Write (TIM_SCAL 2e-9)])) /\
  (forall t, 50 <= t ->
             DS1054Z.set_timebase t true tr
             = (Ok tt, tr ++ [Write (TIM_SCAL 50)])).
Proof.
  assert (Hsc : forall s v,
             DS1054Z.set_channel_scale channel s true tr
             = (Ok tt, tr ++ [Write (CHAN_SCAL channel v)]) ->
             DS1054Z.nearest DS1054Z.vertical_scales s = Ok v).
  { intros s v H. destruct (set_channel_scale_rounds channel s tr)
      as [w [Hw Hrun]].
    rewrite Hrun in H. injection H as H. apply app_inv_head in H.
    injection H as <-. exact Hw. }
  assert (Htb : forall t v,
             DS1054Z.set_timebase t true tr
             = (Ok tt, tr ++ [Write (TIM_SCAL v)]) ->
             DS1054Z.nearest DS1054Z.timebases t = Ok v).
  { intros t v H. destruct (set_timebase_rounds t tr) as [w [Hw Hrun]].
    rewrite Hrun in H. injection H as H. apply app_inv_head in H.
    injection H as <-. exact Hw. }
  assert (Hlo_s : In 0.01 DS1054Z.vertical_scales) by (left; reflexivity).
  assert (Hhi_s : In 100 DS1054Z.vertical_scales)
    by (unfold DS1054Z.vertical_scales; repeat first [left; lra | right]).
  assert (Hlo_t : In 2e-9 DS1054Z.timebases) by (left; reflexivity).
  assert (Hhi_t : In 50 DS1054Z.timebases)
    by (unfold DS1054Z.timebases; repeat first [left; lra | right]).
  repeat split.
  - intros s Hin. destruct (set_channel_scale_rounds channel s tr)
      as [v [Hv Hrun]].
    now rewrite Hrun, (nearest_of_member _ _ _ Hin Hv).
  - intros t Hin. destruct (set_timebase_rounds t tr) as [v [Hv Hrun]].
    now rewrite Hrun, (nearest_of_member _ _ _ Hin Hv).
  - intros s s' v v' Hle H H'.
    exact (nearest_monotone _ _ _ _ _ Hle (Hsc _ _ H) (Hsc _ _ H')).
  - intros t t' v v' Hle H H'.
    exact (nearest_monotone _ _ _ _ _ Hle (Htb _ _ H) (Htb _ _ H')).
  - intros s Hs. destruct (set_channel_scale_rounds channel s tr)
      as [v [Hv Hrun]].
    destruct (nearest_saturates _ _ _ _ _ Hlo_s Hhi_s vertical_scales_range Hv)
      as [H _].
    now rewrite Hrun, (H Hs).
  - intros s Hs. destruct (set_channel_scale_rounds channel s tr)
      as [v [Hv Hrun]].
    destruct (nearest_saturates _ _ _ _ _ Hlo_s Hhi_s vertical_scales_range Hv)
      as [_ H].
    now rewrite Hrun, (H Hs).
  - intros t Ht. destruct (set_timebase_rounds t tr) as [v [Hv Hrun]].
    destruct (nearest_saturates _ _ _ _ _ Hlo_t Hhi_t timebases_range Hv)
      as [H _].
    now rewrite Hrun, (H Ht).
  - intros t Ht. destruct (set_timebase_rounds t tr) as [v [Hv Hrun]].
    destruct (nearest_saturates _ _ _ _ _ Hlo_t Hhi_t timebases_range Hv)
      as [_ H].
    now rewrite Hrun, (H Ht).
Qed.

(** ** The blocks of a raw fetch (fetch_data_raw) *)

Lemma range_count (start stop step : Z) :
  (0 < step)%Z -> (start < stop)%Z ->
  let n := ((stop - start + step - 1) / step)%Z in
  (1 <= n /\ (n - 1) * step < stop - start <= n * step)%Z.
Proof.
  intros Hstep Hlt n.
  pose proof (Z.div_mod (stop - start + step - 1) step ltac:(lia)) as Hdm.
  pose proof (Z.mod_pos_bound (stop - start + step - 1) step Hstep) as Hr.
  fold n in Hdm. nia.
Qed.

Lemma range_empty (start stop step : Z) :
  (0 < step)%Z -> (stop <= start)%Z -> Py.range start stop step = [].
Proof.
  intros Hstep Hle. unfold Py.range.
  assert (H : ((stop - start + step - 1) / step <= 0)%Z).
  { assert (((stop - start + step - 1) / step < 1)%Z); [|lia].
    apply Z.div_lt_upper_bound; lia. }
  replace (Z.to_nat ((stop - start + step - 1) / step)) with 0%nat by lia.
  reflexivity.
Qed.

Lemma range_nth (start stop step : Z) (i : nat) :
  (i < length (Py.range start stop step))%nat ->
  nth i (Py.range start stop step) 0%Z = (start + Z.of_nat i * step)%Z.
Proof.
  unfold Py.range. rewrite length_map, length_seq. intros Hi.
  now rewrite nth_map_seq.
Qed.

Lemma fetch_blocks_trace (sc : scope) (end_ : Z) (blockstarts : list Z) :
  forall alldata tr, exists data,
    DS1054Z.fetch_blocks sc end_ blockstarts alldata tr
    = (Ok data, tr ++ flat_map (block_events end_) blockstarts) /\
    (blockstarts = [] -> data = alldata).
Proof.
  induction blockstarts as [|b rest IH]; intros alldata tr.
  - exists alldata. simpl. rewrite app_nil_r. split; reflexivity.
  - cbn [DS1054Z.fetch_blocks].
    do 3 (erewrite bind_ok by reflexivity).
    match goal with
    | |- context [DS1054Z.fetch_blocks sc end_ rest ?d ?t] =>
        destruct (IH d t) as [data [H _]]
    end.
    exists data. split; [|discriminate].
    rewrite H. f_equal. cbn [flat_map]. unfold block_events at 2.
    repeat rewrite <- app_assoc. reflexivity.
Qed.

(** X11: a raw fetch from [start] to [end] sends, after the seven set-up
    commands, one START/STOP/DATA request per block and nothing else.
    The first START is [start], each further START is the STOP of the
    block before, a STOP exceeds its START by at most 250000, and the
    last STOP is [end]; when [end <= start] no block is requested and
    the returned buffer is empty. *)
Theorem fetch_data_raw_blocks (sc : scope) (channel start end_ : Z)
        (tr : trace) :
  let blocks := Py.range start end_ DS1054Z.maxblocklen in
  let stop_of := fun b => Z.min (b + DS1054Z.maxblocklen) end_ in
  (exists data,
      DS1054Z.fetch_data_raw sc channel start (Some end_) tr
      = (Ok data,
         tr ++ [Write STOP; Write (WAV_SOUR channel); Write WAV_MODE_RAW;
                Write WAV_FORM_BYTE; QueryFloat WAV_YINC; QueryFloat WAV_YOR;
                QueryFloat WAV_YREF]
            ++ flat_map (block_events end_) blocks) /\
      ((end_ <= start)%Z -> data = [])) /\
  ((end_ <= start)%Z -> blocks = []) /\
  ((start < end_)%Z ->
   hd 0%Z blocks = start /\ stop_of (last blocks 0%Z) = end_) /\
  (forall i, (S i < length blocks)%nat ->
             nth (S i) blocks 0%Z = stop_of (nth i blocks 0%Z)) /\
  (forall b, In b blocks ->
             (start <= b < stop_of b /\ stop_of b <= end_ /\
              stop_of b - b <= DS1054Z.maxblocklen)%Z).
Proof.
  intros blocks stop_of.
  assert (Hstep : (0 < DS1054Z.maxblocklen)%Z) by reflexivity.
  assert (Hlen : length blocks
                 = Z.to_nat ((end_ - start + DS1054Z.maxblocklen - 1)
                             / DS1054Z.maxblocklen))
    by (unfold blocks, Py.range; now rewrite length_map, length_seq).
  assert (Hin : forall b, In b blocks ->
            exists i, (i < length blocks)%nat /\
                      b = (start + Z.of_nat i * DS1054Z.maxblocklen)%Z).
  { intros b Hb. unfold blocks, Py.range in Hb. apply in_map_iff in Hb.
    destruct Hb as [i [<- Hi]]. apply in_seq in Hi. exists i.
    rewrite Hlen. split; [lia|reflexivity]. }
  split; [|split; [|split; [|split]]].
  - unfold DS1054Z.fetch_data_raw.
    do 8 (erewrite bind_ok by reflexivity).
    match goal with
    | |- context [bind (DS1054Z.fetch_blocks sc end_ ?bs []) _ ?t] =>
        destruct (fetch_blocks_trace sc end_ bs [] t) as [raw [H Hnil]]
    end.
    erewrite bind_ok by exact H.
    eexists. split.
    + unfold ret. f_equal. fold blocks. repeat rewrite <- app_assoc.
      reflexivity.
    + intros Hle. rewrite Hnil by (apply range_empty; assumption).
      reflexivity.
  - intros Hle. apply range_empty; assumption.
  - intros Hlt.
    destruct (range_count start end_ DS1054Z.maxblocklen Hstep Hlt)
      as [Hn [Hlo Hhi]].
    set (n := ((end_ - start + DS1054Z.maxblocklen - 1)
               / DS1054Z.maxblocklen)%Z) in *.
    unfold blocks, Py.range. fold n.
    replace (Z.to_nat n) with (S (Z.to_nat (n - 1))) by lia.
    split.
    + simpl. lia.
    + rewrite last_map_seq. unfold stop_of.
      rewrite Z2Nat.id by lia. lia.
  - intros i Hi. unfold blocks in *.
    rewrite !range_nth by lia.
    unfold stop_of.
    destruct (Z_lt_le_dec start end_) as [Hlt|Hle].
    + destruct (range_count start end_ DS1054Z.maxblocklen Hstep Hlt)
        as [Hn [Hlo Hhi]].
      rewrite Hlen in Hi. nia.
    + exfalso.
      rewrite (range_empty start end_ DS1054Z.maxblocklen Hstep Hle) in Hi.
      simpl in Hi. lia.
  - intros b Hb. destruct (Hin b Hb) as [i [Hi ->]]. unfold stop_of.
    destruct (Z_lt_le_dec start end_) as [Hlt|Hle].
    + destruct (range_count start end_ DS1054Z.maxblocklen Hstep Hlt)
        as [Hn [Hlo Hhi]].
      rewrite Hlen in Hi. nia.
    + exfalso. unfold blocks in Hi.
      rewrite (range_empty start end_ DS1054Z.maxblocklen Hstep Hle) in Hi.
      simpl in Hi. lia.
Qed.

(** ** The exceptions of a measurement (measure_response) *)

Section Raises.

Context (Q : exn -> Prop).

Lemma raises_total {W A} (c : M W A) :
  (forall w, exists a w', c w = (Ok a, w')) -> raises Q c.
Proof.
  intros H w e He. destruct (H w) as (a & w' & E). rewrite E in He.
  discriminate.
Qed.

Lemma raises_lift {W A} (o : outcome A) :
  (forall e, o = Raise e -> Q e) -> raises Q (@lift W A o).
Proof. intros H w e He. apply H. exact He. Qed.

Lemma raises_bind {W A B} (c : M W A) (k : A -> M W B) :
  raises Q c -> (forall a, raises Q (k a)) -> raises Q (bind c k).
Proof.
  intros Hc Hk w e. unfold bind.
  destruct (c w) as [[a|e'] w'] eqn:E.
  - apply Hk.
  - simpl. intros [= <-]. apply (Hc w). now rewrite E.
Qed.

Lemma raises_write (c : scpi) : raises Q (DS1054Z.write c).
Proof. apply raises_total. intros w. do 2 eexists. reflexivity. Qed.

Lemma raises_emit (ev : event) : raises Q (emit ev).
Proof. apply raises_total. intros w. do 2 eexists. reflexivity. Qed.

Lemma raises_set_channel_scale (channel : Z) (scale : R) :
  raises Q (DS1054Z.set_channel_scale channel scale true).
Proof.
  apply raises_total. intros w.
  destruct (set_channel_scale_rounds channel scale w) as [v [_ H]].
  rewrite H. do 2 eexists. reflexivity.
Qed.

Lemma raises_set_timebase (timebase : R) :
  raises Q (DS1054Z.set_timebase timebase true).
Proof.
  apply raises_total. intros w.
  destruct (set_timebase_rounds timebase w) as [v [_ H]].
  rewrite H. do 2 eexists. reflexivity.
Qed.

Lemma raises_set_memdepth (depth : option Z) :
  raises Q (DS1054Z.set_memdepth depth).
Proof.
  apply raises_total. intros w. unfold DS1054Z.set_memdepth.
  destruct depth as [d|]; [destruct (d =? 0)%Z|]; do 2 eexists; reflexivity.
Qed.

Lemma raises_fetch_data (sc : scope) (channel : Z) :
  raises Q (DS1054Z.fetch_data sc channel).
Proof. apply raises_total. intros w. apply fetch_data_total. Qed.

End Raises.

(** Breaks a program into its commands, trying [known] facts about its
    parts first. *)
Ltac raises_with known :=
  repeat first
    [ known
    | match goal with
      | |- raises _ (DS1054Z.set_channel_scale _ _ true) =>
          apply raises_set_channel_scale
      | |- raises _ (DS1054Z.set_timebase _ true) => apply raises_set_timebase
      | |- raises _ (DS1054Z.set_memdepth _) => apply raises_set_memdepth
      | |- raises _ (DS1054Z.fetch_data _ _) => apply raises_fetch_data
      | |- raises _ (DS1054Z.write _) => apply raises_write
      | |- raises _ (emit _) => apply raises_emit
      | |- raises _ (bind _ _) => apply raises_bind; [|intros ?]
      end ].

Lemma dft_calc_raises (data : list R) (sample_interval freq : R) (e : exn) :
  dft_calc data sample_interval freq = Raise e ->
  (e = ZeroDivisionError /\ (freq = 0 \/ sample_interval = 0)) \/
  (freq <> 0 /\ sample_interval <> 0 /\
   (e = Exception_too_large_timestep sample_interval freq \/
    e = Exception_too_small_timestep sample_interval freq)).
Proof.
  intros H.
  destruct (Req_dec_T freq 0) as [Hf|Hf].
  { left. unfold dft_calc, samples_per_period, Py.truediv in H.
    destruct (Req_dec_T freq 0); [|contradiction]. simpl in H.
    injection H as <-. auto. }
  destruct (Req_dec_T sample_interval 0) as [Hs|Hs].
  { left. unfold dft_calc, samples_per_period, Py.truediv in H.
    destruct (Req_dec_T freq 0); [contradiction|]. simpl in H.
    destruct (Req_dec_T sample_interval 0); [|contradiction]. simpl in H.
    injection H as <-. auto. }
  right. split; [exact Hf|]. split; [exact Hs|].
  assert (Hspp : exists spp, samples_per_period freq sample_interval = Ok spp).
  { unfold samples_per_period, Py.truediv.
    destruct (Req_dec_T freq 0); [contradiction|]. simpl.
    destruct (Req_dec_T sample_interval 0); [contradiction|]. simpl.
    eexists. reflexivity. }
  destruct Hspp as [spp Hspp].
  rewrite (dft_calc_cases data sample_interval freq spp Hspp) in H.
  destruct (spp <? 5)%Z; [injection H as <-; auto|].
  destruct (Z.of_nat (length data) / spp <? 1)%Z; [injection H as <-; auto|].
  discriminate.
Qed.

Lemma time_sleep_raises (wait : R) (tr : trace) (e : exn) :
  fst (time_sleep (Finite wait) tr) = Raise e ->
  (e = ValueError_sleep /\ wait < 0) \/
  (e = OverflowError_sleep /\ (sleep_max <= wait \/ wait < - sleep_max)).
Proof.
  unfold time_sleep.
  destruct (Rle_dec sleep_max wait) as [Hbig|_];
    [intros [= <-]; right; auto|].
  destruct (Rlt_dec wait (- sleep_max)) as [Hlow|_];
    [intros [= <-]; right; auto|].
  destruct (Rlt_dec wait 0) as [Hneg|_]; [|discriminate].
  intros [= <-]. left. auto.
Qed.

(** Lines 14-18 for a non-zero frequency and any memory depth. *)
Lemma measure_response_capture (sc : scope) (freq : number) (delay : R)
      (autorange : bool) (memdepth : option Z) (tr : trace) :
  float_of freq <> 0 ->
  exists tr1,
    measure_response sc freq delay autorange memdepth tr
    = measure_capture sc (float_of freq)
        (Finite (delay + 40 / float_of freq)) autorange tr1.
Proof.
  intros Hf. unfold measure_response.
  do 2 (erewrite bind_ok by reflexivity).
  match goal with
  | |- context [bind (DS1054Z.set_memdepth memdepth) _ ?t] =>
      destruct (set_memdepth_total memdepth t) as (c & Hm & _)
  end.
  erewrite bind_ok by exact Hm.
  erewrite bind_ok
    by (unfold lift; rewrite truediv_number_nonzero by exact Hf; reflexivity).
  match goal with
  | |- context [bind (DS1054Z.set_timebase_x (Finite ?t)) _ ?w] =>
      destruct (set_timebase_rounds t w) as (tb & _ & Htb)
  end.
  erewrite bind_ok by (rewrite set_timebase_x_finite; exact Htb).
  erewrite bind_ok
    by (unfold lift; rewrite truediv_number_nonzero by exact Hf; reflexivity).
  eexists. reflexivity.
Qed.

Lemma measure_response_numpy_zero_raises (sc : scope) (delay : R)
      (autorange : bool) (memdepth : option Z) (tr : trace) :
  fst (measure_response sc (NpFloat64 0) delay autorange memdepth tr)
  = Raise OverflowError_sleep.
Proof.
  unfold measure_response.
  do 2 (erewrite bind_ok by reflexivity).
  match goal with
  | |- context [bind (DS1054Z.set_memdepth memdepth) _ ?t] =>
      destruct (set_memdepth_total memdepth t) as (c & Hm & _)
  end.
  erewrite bind_ok by exact Hm.
  erewrite bind_ok
    by (unfold lift; simpl; rewrite divide_by_zero by lra; reflexivity).
  erewrite bind_ok by apply set_timebase_x_infinite.
  erewrite bind_ok
    by (unfold lift; simpl; rewrite divide_by_zero by lra; reflexivity).
  simpl Py.addx. unfold measure_capture. destruct autorange.
  - erewrite bind_raise; [reflexivity|].
    unfold autorange_block.
    erewrite bind_ok by (apply set_channel_scale_run; exact nearest_scale_of_1).
    erewrite bind_ok by (apply set_channel_scale_run; exact nearest_scale_of_1).
    erewrite bind_ok by reflexivity.
    erewrite bind_raise by reflexivity. reflexivity.
  - erewrite bind_ok by reflexivity. unfold measure_dft.
    erewrite bind_ok by reflexivity.
    erewrite bind_raise by reflexivity. reflexivity.
Qed.

(** X12: an exception that leaves [measure_response] is
    - a ZeroDivisionError: the frequency is a Python float 0, or the
      oscilloscope answered a sample interval of 0;
    - the ValueError of [time.sleep]: the adjusted delay
      [delay + 40 / freq] is negative;
    - the OverflowError of [time.sleep]: the frequency is a numpy 0, for
      which the adjusted delay is infinite, or the adjusted delay does
      not fit 64 bits of nanoseconds;
    - numpy's ValueError for the maximum of an empty capture, with
      auto-ranging only;
    - or one of the two time-step exceptions of [dft_at_freq], which
      carries the measured frequency and the sample interval the
      oscilloscope answered, both non-zero.
    No other exception of the model occurs. *)
Theorem measure_response_failures (sc : scope) (freq : number) (delay : R)
        (autorange : bool) (memdepth : option Z) (tr : trace) (e : exn) :
  fst (measure_response sc freq delay autorange memdepth tr) = Raise e ->
  (e = ZeroDivisionError /\
   (freq = PyFloat 0 \/
    (float_of freq <> 0 /\ exists tr', answer_float sc WAV_XINC tr' = 0))) \/
  (e = ValueError_sleep /\
   float_of freq <> 0 /\ delay + 40 / float_of freq < 0) \/
  (e = OverflowError_sleep /\
   (freq = NpFloat64 0 \/
    (float_of freq <> 0 /\
     (sleep_max <= delay + 40 / float_of freq \/
      delay + 40 / float_of freq < - sleep_max)))) \/
  (e = ValueError_empty_reduction /\ autorange = true) \/
  (exists tr',
      let si := answer_float sc WAV_XINC tr' in
      float_of freq <> 0 /\ si <> 0 /\
      (e = Exception_too_large_timestep si (float_of freq) \/
       e = Exception_too_small_timestep si (float_of freq))).
Proof.
  intros He.
  destruct (Req_dec_T (float_of freq) 0) as [Hf0|Hf].
  { destruct freq as [x|x]; simpl in Hf0; subst x.
    - rewrite measure_response_zero_freq in He. injection He as <-.
      left. auto.
    - rewrite measure_response_numpy_zero_raises in He. injection He as <-.
      right. right. left. auto. }
  destruct (measure_response_capture sc freq delay autorange memdepth tr Hf)
    as [tr1 E].
  rewrite E in He. clear E. revert He.
  set (f := float_of freq) in *. set (wait := delay + 40 / f).
  set (Q := fun e : exn =>
    (e = ZeroDivisionError /\
     (freq = PyFloat 0 \/
      (f <> 0 /\ exists tr', answer_float sc WAV_XINC tr' = 0))) \/
    (e = ValueError_sleep /\ f <> 0 /\ wait < 0) \/
    (e = OverflowError_sleep /\
     (freq = NpFloat64 0 \/
      (f <> 0 /\ (sleep_max <= wait \/ wait < - sleep_max)))) \/
    (e = ValueError_empty_reduction /\ autorange = true) \/
    (exists tr',
        let si := answer_float sc WAV_XINC tr' in
        f <> 0 /\ si <> 0 /\
        (e = Exception_too_large_timestep si f \/
         e = Exception_too_small_timestep si f))).
  change (fst (measure_capture sc f (Finite wait) autorange tr1) = Raise e
          -> Q e).
  assert (Hsleep : raises Q (time_sleep (Finite wait))).
  { intros w e' He'.
    destruct (time_sleep_raises wait w e' He') as [[-> Hneg]|[-> Hbig]].
    - right. left. auto.
    - right. right. left. auto. }
  assert (Hdft : forall channel,
             raises Q (DS1054Z.dft_at_freq sc channel f true)).
  { intros channel w e' He'.
    destruct (dft_at_freq_calc sc channel f true w)
      as (data & tr' & _ & Hrun).
    rewrite Hrun in He'. simpl in He'.
    destruct (dft_calc_raises _ _ _ _ He') as [[-> [Hf'|Hs]]|(_ & Hs & He)].
    - contradiction.
    - left. split; [reflexivity|]. right. split; [exact Hf|].
      exists tr'. exact Hs.
    - do 4 right. exists tr'. auto. }
  assert (Hmax : forall d, autorange = true ->
             raises Q (@lift trace R (Np.max_abs d))).
  { intros d Ha. apply raises_lift. intros e' He'.
    destruct d; [|discriminate]. injection He' as <-.
    do 3 right. left. auto. }
  apply (fun H : raises Q (measure_capture sc f (Finite wait) autorange)
         => H tr1 e).
  unfold measure_capture. apply raises_bind.
  - destruct autorange eqn:Ha.
    + unfold autorange_block, DS1054Z.force_trigger, DS1054Z.stop,
        DS1054Z.run.
      raises_with ltac:(idtac; match goal with
                        | |- raises _ (lift (Np.max_abs _)) =>
                            apply Hmax; reflexivity
                        | |- raises _ (time_sleep _) => apply Hsleep
                        end).
    + apply raises_total. intros w. do 2 eexists. reflexivity.
  - intros _. unfold measure_dft, DS1054Z.force_trigger, DS1054Z.stop.
    raises_with ltac:(idtac; match goal with
                      | |- raises _ (DS1054Z.dft_at_freq _ _ _ _) =>
                          apply Hdft
                      | |- raises _ (time_sleep _) => apply Hsleep
                      end).
    match goal with
    | r1 : (R * R)%type, r2 : (R * R)%type |- _ => destruct r1, r2
    end.
    apply raises_total. intros w. do 2 eexists. reflexivity.
Qed.

(** A direct call with the Python float 0 fails with
    ZeroDivisionError. *)
Lemma measure_response_failures_witness :
  (ZeroDivisionError = ZeroDivisionError /\
   (PyFloat 0 = PyFloat 0 \/
    (float_of (PyFloat 0) <> 0 /\
     exists tr', answer_float flat_scope WAV_XINC tr' = 0))) \/
  (ZeroDivisionError = ValueError_sleep /\
   float_of (PyFloat 0) <> 0 /\ 1 + 40 / float_of (PyFloat 0) < 0) \/
  (ZeroDivisionError = OverflowError_sleep /\
   (PyFloat 0 = NpFloat64 0 \/
    (float_of (PyFloat 0) <> 0 /\
     (sleep_max <= 1 + 40 / float_of (PyFloat 0) \/
      1 + 40 / float_of (PyFloat 0) < - sleep_max)))) \/
  (ZeroDivisionError = ValueError_empty_reduction /\ false = true) \/
  (exists tr',
      let si := answer_float flat_scope WAV_XINC tr' in
      float_of (PyFloat 0) <> 0 /\ si <> 0 /\
      (ZeroDivisionError
       = Exception_too_large_timestep si (float_of (PyFloat 0)) \/
       ZeroDivisionError
       = Exception_too_small_timestep si (float_of (PyFloat 0)))).
Proof.
  apply (measure_response_failures flat_scope (PyFloat 0) 1 false
                                   default_memdepth [] ZeroDivisionError).
  apply measure_response_zero_freq.
Defined.

(** ** Vertical scales without auto-ranging (measure_response) *)

(** X13: without auto-ranging a measurement never sends a vertical-scale
    command, whatever the frequency and whether it returns or raises. *)
Theorem no_scale_without_autorange (sc : scope) (freq : number) (delay : R)
        (memdepth : option Z) :
  emits no_scale_command (measure_response sc freq delay false memdepth).
Proof.
  assert (Hw : forall c, c <> TFORCE -> (forall ch v, c <> CHAN_SCAL ch v) ->
                         no_scale_command (Write c)).
  { intros c _ Hc ch v [= E]. exact (Hc ch v E). }
  assert (Hq : forall q, no_scale_command (QueryFloat q))
    by (intros q ch v; discriminate).
  assert (Hm : no_scale_command QueryMdepth) by (intros ch v; discriminate).
  assert (Hd : no_scale_command QueryData) by (intros ch v; discriminate).
  unfold measure_response, measure_capture, measure_dft, DS1054Z.run,
    DS1054Z.force_trigger, DS1054Z.stop.
  emits_with ltac:(idtac; match goal with
                   | |- emits _ (DS1054Z.set_memdepth _) =>
                       apply (emits_set_memdepth _ Hw)
                   | |- emits _ (DS1054Z.set_timebase_x _) =>
                       apply (emits_set_timebase_x _ Hw)
                   | |- emits _ (DS1054Z.dft_at_freq _ _ _ _) =>
                       apply (emits_dft_at_freq _ Hw Hq Hm Hd)
                   end);
    try (apply Hw; discriminate); intros; intros ch v; discriminate.
Qed.

(** ** Reading data while the acquisition is stopped *)

Lemma acquiring_app (l1 l2 : trace) :
  forall b, acquiring b (l1 ++ l2) = acquiring (acquiring b l1) l2.
Proof.
  induction l1 as [|e l1 IH]; intros b; [reflexivity|].
  destruct e as [ch f|c| | | |s]; try destruct c; simpl; apply IH.
Qed.

Lemma reads_while_stopped_app (l1 l2 : trace) :
  forall b, reads_while_stopped b (l1 ++ l2)
            = andb (reads_while_stopped b l1)
                   (reads_while_stopped (acquiring b l1) l2).
Proof.
  induction l1 as [|e l1 IH]; intros b; [reflexivity|].
  destruct e as [ch f|c| | | |s]; try destruct c; simpl; rewrite IH;
    try reflexivity.
  destruct b; reflexivity.
Qed.

Lemma stops_to_read_ret {A} (a : A) (b : bool) : stops_to_read b (ret a) b.
Proof.
  intros tr. exists []. rewrite app_nil_r. repeat split.
Qed.

Lemma stops_to_read_lift {A} (o : outcome A) (b : bool) :
  stops_to_read b (lift o) b.
Proof.
  intros tr. exists []. rewrite app_nil_r. repeat split.
Qed.

Lemma stops_to_read_bind {A B} (c : M trace A) (k : A -> M trace B)
      (b b' b'' : bool) :
  stops_to_read b c b' -> (forall a, stops_to_read b' (k a) b'') ->
  stops_to_read b (bind c k) b''.
Proof.
  intros Hc Hk tr. unfold bind. destruct (Hc tr) as (evs & E & Hr & Hs).
  destruct (c tr) as [[a|e] tr']; simpl in E; subst tr'.
  - destruct (Hk a (tr ++ evs)) as (evs' & E' & Hr' & Hs').
    exists (evs ++ evs'). rewrite E', app_assoc. split; [reflexivity|].
    rewrite reads_while_stopped_app, acquiring_app.
    rewrite (Hs a eq_refl), Hr, Hr'. split; [reflexivity|exact Hs'].
  - exists evs. split; [reflexivity|]. split; [exact Hr|]. discriminate.
Qed.

(** A command that sends one event other than "WAV:DATA?". *)
Lemma stops_to_read_event {A} (c : M trace A) (ev : event) (b : bool) :
  ev <> QueryData ->
  (forall tr, snd (c tr) = tr ++ [ev]) ->
  stops_to_read b c (acquiring b [ev]).
Proof.
  intros Hev Hc tr. exists [ev]. split; [apply Hc|]. split; [|reflexivity].
  destruct ev as [ch f|cmd| | | |s]; try destruct cmd; try reflexivity.
  contradiction.
Qed.

Lemma stops_to_read_query_data (sc : scope) :
  stops_to_read false (DS1054Z.query_data sc) false.
Proof. intros tr. exists [QueryData]. repeat split. Qed.

(** Breaks a program into its commands, trying [known] facts about its
    parts first. *)
Ltac stops_with known :=
  repeat first
    [ known
    | match goal with
      | |- stops_to_read _ (ret _) _ => apply stops_to_read_ret
      | |- stops_to_read _ (lift _) _ => apply stops_to_read_lift
      | |- stops_to_read _ (DS1054Z.query_data _) _ =>
          apply stops_to_read_query_data
      | |- stops_to_read ?b (DS1054Z.write ?c) _ =>
          apply (stops_to_read_event _ (Write c) b);
          [discriminate|reflexivity]
      | |- stops_to_read ?b (emit ?e) _ =>
          apply (stops_to_read_event _ e b); [discriminate|reflexivity]
      | |- stops_to_read ?b (DS1054Z.query_float _ ?q) _ =>
          apply (stops_to_read_event _ (QueryFloat q) b);
          [discriminate|reflexivity]
      | |- stops_to_read ?b (DS1054Z.query_mdepth _) _ =>
          apply (stops_to_read_event _ QueryMdepth b);
          [discriminate|reflexivity]
      | |- stops_to_read _ (bind _ _) _ =>
          eapply stops_to_read_bind; [|intros ?]
      end ].

Lemma stops_to_read_set_channel_scale (channel : Z) (scale : R) (b : bool) :
  stops_to_read b (DS1054Z.set_channel_scale channel scale true) b.
Proof.
  intros tr. destruct (set_channel_scale_rounds channel scale tr)
    as [v [_ Hrun]].
  exists [Write (CHAN_SCAL channel v)]. rewrite Hrun. repeat split.
Qed.

Lemma stops_to_read_set_timebase (timebase : R) (b : bool) :
  stops_to_read b (DS1054Z.set_timebase timebase true) b.
Proof.
  intros tr. destruct (set_timebase_rounds timebase tr) as [v [_ Hrun]].
  exists [Write (TIM_SCAL v)]. rewrite Hrun. repeat split.
Qed.

Lemma stops_to_read_set_timebase_x (timebase : xfloat) (b : bool) :
  stops_to_read b (DS1054Z.set_timebase_x timebase) b.
Proof.
  destruct timebase as [t| | |];
    [intros tr; rewrite set_timebase_x_finite;
     apply stops_to_read_set_timebase|..];
    intros tr; exists [Write (TIM_SCAL 2e-9)];
    unfold DS1054Z.set_timebase_x, DS1054Z.nearest_x, DS1054Z.timebases,
      bind, lift;
    rewrite min_key_constant; repeat split.
Qed.

Lemma stops_to_read_time_sleep (secs : xfloat) (b : bool) :
  stops_to_read b (time_sleep secs) b.
Proof.
  assert (Hraise : forall e, stops_to_read b (@lift trace unit (Raise e)) b)
    by (intros e; apply stops_to_read_lift).
  unfold time_sleep. destruct secs as [s| | |]; try apply Hraise.
  destruct (Rle_dec sleep_max s); [apply Hraise|].
  destruct (Rlt_dec s (- sleep_max)); [apply Hraise|].
  destruct (Rlt_dec s 0); [apply Hraise|].
  apply (stops_to_read_event _ (Sleep s) b); [discriminate|reflexivity].
Qed.

Lemma stops_to_read_set_memdepth (depth : option Z) (b : bool) :
  stops_to_read b (DS1054Z.set_memdepth depth) b.
Proof.
  unfold DS1054Z.set_memdepth.
  destruct depth as [d|]; [destruct (d =? 0)%Z|];
    match goal with
    | |- stops_to_read ?b (DS1054Z.write ?c) _ =>
        apply (stops_to_read_event _ (Write c) b); [discriminate|reflexivity]
    end.
Qed.

Lemma stops_to_read_fetch_data (sc : scope) (channel : Z) :
  stops_to_read false (DS1054Z.fetch_data sc channel) false.
Proof. unfold DS1054Z.fetch_data. stops_with fail. Qed.

Lemma stops_to_read_fetch_blocks (sc : scope) (end_ : Z)
      (blockstarts : list Z) :
  forall alldata,
    stops_to_read false (DS1054Z.fetch_blocks sc end_ blockstarts alldata)
                  false.
Proof.
  induction blockstarts as [|b rest IH]; intros alldata;
    cbn [DS1054Z.fetch_blocks].
  - apply stops_to_read_ret.
  - stops_with ltac:(idtac; match goal with
                     | |- stops_to_read _ (DS1054Z.fetch_blocks _ _ rest _) _
                       => apply IH
                     end).
Qed.

Lemma stops_to_read_fetch_data_raw (sc : scope) (channel start : Z)
      (end_ : option Z) (b : bool) :
  stops_to_read b (DS1054Z.fetch_data_raw sc channel start end_) false.
Proof.
  unfold DS1054Z.fetch_data_raw.
  stops_with ltac:(idtac; match goal with
                   | |- stops_to_read _ (DS1054Z.fetch_blocks _ _ _ _) _ =>
                       apply stops_to_read_fetch_blocks
                   | |- stops_to_read _ (match ?x with _ => _ end) _ =>
                       destruct x
                   end).
Qed.

Lemma stops_to_read_dft_at_freq (sc : scope) (channel : Z) (freq : R)
      (b : bool) :
  stops_to_read b (DS1054Z.dft_at_freq sc channel freq true) false.
Proof.
  unfold DS1054Z.dft_at_freq, DS1054Z.sample_interval.
  stops_with ltac:(idtac; match goal with
                   | |- stops_to_read _ (DS1054Z.fetch_data_raw _ _ _ _) _ =>
                       apply stops_to_read_fetch_data_raw
                   end).
Qed.

Lemma stops_to_read_autorange_block (sc : scope) (delay : xfloat)
      (b : bool) :
  stops_to_read b (autorange_block sc delay) true.
Proof.
  unfold autorange_block, DS1054Z.force_trigger, DS1054Z.stop, DS1054Z.run.
  stops_with ltac:(idtac; match goal with
                   | |- stops_to_read _ (DS1054Z.set_channel_scale _ _ true) _
                     => apply stops_to_read_set_channel_scale
                   | |- stops_to_read _ (DS1054Z.fetch_data _ _) _ =>
                       apply stops_to_read_fetch_data
                   | |- stops_to_read _ (time_sleep _) _ =>
                       apply stops_to_read_time_sleep
                   end).
Qed.

(** X14: whatever the oscilloscope did before, a measurement sends every
    "WAV:DATA?" while the acquisition is stopped (after a "STOP" with no
    "RUN" since), with and without auto-ranging; and when the measurement
    returns, the oscilloscope is left stopped. *)
Theorem measurement_reads_while_stopped (sc : scope) (freq : number)
        (delay : R) (autorange : bool) (memdepth : option Z)
        (running : bool) :
  stops_to_read running (measure_response sc freq delay autorange memdepth)
                false.
Proof.
  unfold measure_response, measure_capture, measure_dft, DS1054Z.run,
    DS1054Z.force_trigger, DS1054Z.stop.
  stops_with ltac:(idtac; match goal with
                   | |- stops_to_read _ (DS1054Z.set_memdepth _) _ =>
                       apply stops_to_read_set_memdepth
                   | |- stops_to_read _ (DS1054Z.set_timebase_x _) _ =>
                       apply stops_to_read_set_timebase_x
                   | |- stops_to_read _ (time_sleep _) _ =>
                       apply stops_to_read_time_sleep
                   | |- stops_to_read _ (DS1054Z.dft_at_freq _ _ _ true) _ =>
                       apply stops_to_read_dft_at_freq
                   | |- stops_to_read _ (if autorange then _ else _) _ =>
                       instantiate (1 := true); destruct autorange
                   | |- stops_to_read _ (autorange_block _ _) _ =>
                       apply stops_to_read_autorange_block
                   | |- stops_to_read _ (let '(_, _) := ?r in _) _ =>
                       destruct r
                   end).
Qed.

(** ** Parameters the logarithmic sweep rejects (freqresp_iter) *)

(** X15: in logarithmic mode (no linear interval, or an interval of 0)
    the sweep raises before the first measurement, without a row and
    without touching the instruments, in exactly these cases:
    ZeroDivisionError when [log_stepsdec = 0] or [freq_min = 0];
    otherwise math.log's ValueError when [freq_min < 0] or
    [freq_max <= 0].  With positive bounds and a non-zero
    [log_stepsdec] the list of frequencies is computed and the loop
    starts. *)
Theorem log_sweep_parameter_errors {W : Type} (sigfig_round : R -> Z -> R)
        (measure : R -> M W (R * R)) (freq_min freq_max : R)
        (log_stepsdec : Z) (lin_interval : option R) (w : W) :
  lin_interval = None \/ lin_interval = Some 0 ->
  let g := freqresp_iter sigfig_round W measure freq_min freq_max
                         log_stepsdec lin_interval w in
  (log_stepsdec = 0%Z \/ freq_min = 0 -> g = Throw ZeroDivisionError w) /\
  (log_stepsdec <> 0%Z -> freq_min < 0 \/ (0 < freq_min /\ freq_max <= 0) ->
   g = Throw ValueError_math_domain w) /\
  (log_stepsdec <> 0%Z -> 0 < freq_min -> 0 < freq_max ->
   exists freqs,
     sweep_freqs sigfig_round freq_min freq_max log_stepsdec lin_interval
     = Ok freqs /\
     g = sweep_rows W measure freqs w).
Proof.
  intros Hlin g.
  assert (Hmode : sweep_freqs sigfig_round freq_min freq_max log_stepsdec
                              lin_interval
                  = log_freqs sigfig_round freq_min freq_max log_stepsdec).
  { destruct Hlin as [-> | ->]; [reflexivity|]. unfold sweep_freqs.
    destruct (Req_dec_T 0 0) as [_|H]; [reflexivity|contradiction]. }
  assert (Hbase : forall n, 0 < Rpower 10 (1 / IZR n))
    by (intros n; unfold Rpower; apply exp_pos).
  assert (Hlb : log_stepsdec <> 0%Z ->
                ln (Rpower 10 (1 / IZR log_stepsdec)) <> 0).
  { intros Hn. rewrite ln_Rpower. pose proof ln_10_pos.
    apply Rmult_integral_contrapositive_currified; [|lra].
    unfold Rdiv. rewrite Rmult_1_l. apply Rinv_neq_0_compat.
    apply not_0_IZR. exact Hn. }
  unfold g, freqresp_iter. rewrite Hmode. split; [|split].
  - intros Hzero. unfold log_freqs, Py.truediv.
    destruct (Req_dec_T (IZR log_stepsdec) 0) as [_|Hn]; [reflexivity|].
    simpl. destruct Hzero as [-> | ->]; [contradiction|].
    destruct (Req_dec_T 0 0) as [_|H]; [reflexivity|contradiction].
  - intros Hn Hneg. specialize (Hlb Hn).
    unfold log_freqs, Py.truediv, Py.log.
    destruct (Req_dec_T (IZR log_stepsdec) 0) as [H|_];
      [apply eq_IZR in H; contradiction|]. simpl.
    destruct (Req_dec_T freq_min 0) as [H|Hmin]; [lra|]. simpl.
    destruct (Rlt_dec 0 (freq_max / freq_min)) as [Hr|_]; [|reflexivity].
    simpl.
    destruct (Rlt_dec 0 (Rpower 10 (1 / IZR log_stepsdec))) as [_|H];
      [|exfalso; apply H; apply Hbase]. simpl.
    destruct (Req_dec_T (ln (Rpower 10 (1 / IZR log_stepsdec))) 0) as [H|_];
      [contradiction|]. simpl.
    destruct (Rlt_dec 0 freq_min) as [Hpos|_]; [|reflexivity].
    exfalso. destruct Hneg as [Hneg|[_ Hmax]]; [lra|].
    assert (0 < freq_max / freq_min * freq_min)
      by (apply Rmult_lt_0_compat; assumption).
    replace (freq_max / freq_min * freq_min) with freq_max in * by
      (field; lra).
    lra.
  - intros Hn Hmin Hmax.
    rewrite (log_freqs_spec sigfig_round freq_min freq_max log_stepsdec
                            Hmin Hmax Hn).
    eexists. split; reflexivity.
Qed.

(** A logarithmic sweep from 0 Hz: no row, ZeroDivisionError, and the
    measurement is never called. *)
Lemma log_sweep_parameter_errors_witness :
  let g := freqresp_iter sigfig_half_even (list R) stub_measure 0 1000 10
                         None [] in
  (10%Z = 0%Z \/ 0 = 0 -> g = Throw ZeroDivisionError []) /\
  (10%Z <> 0%Z -> 0 < 0 \/ (0 < 0 /\ 1000 <= 0) ->
   g = Throw ValueError_math_domain []) /\
  (10%Z <> 0%Z -> 0 < 0 -> 0 < 1000 ->
   exists freqs,
     sweep_freqs sigfig_half_even 0 1000 10 None = Ok freqs /\
     g = sweep_rows (list R) stub_measure freqs []).
Proof.
  apply (log_sweep_parameter_errors sigfig_half_even stub_measure 0 1000 10
                                    None []).
  left. reflexivity.
Defined.

(** ** A linear sweep that starts at 0 Hz *)

Lemma sweep_number_linear (step freq : R) :
  step <> 0 -> sweep_number (Some step) freq = NpFloat64 freq.
Proof.
  intros Hs. unfold sweep_number.
  destruct (Req_dec_T step 0); [contradiction|reflexivity].
Qed.

(** X16: a linear sweep from 0 Hz with the default measurement yields no
    row.  The first point is the numpy.float64 0.0 of [numpy.arange], so
    that [1.0 / freq] and [40.0 / freq] are infinite instead of raising:
    the generator sets the signal generator to 0 Hz, starts the
    oscilloscope, sets the memory depth, requests the first time base of
    the list, 2e-9, sends the provisional scales when auto-ranging and
    forces the trigger; then [time.sleep] raises OverflowError for the
    infinite delay, and the acquisition is never stopped. *)
Theorem sweep_from_zero_hertz (sigfig_round : R -> Z -> R) (sc : scope)
        (delay freq_max step : R) (autorange : bool) (log_stepsdec : Z)
        (tr : trace) :
  0 < step -> 0 < freq_max ->
  let g := freqresp_iter_x sigfig_round trace
             (default_measure sc (Some step) delay autorange)
             0 freq_max log_stepsdec (Some step) tr in
  rows_of g = [] /\
  error_of g = Some OverflowError_sleep /\
  final_of g
  = tr ++ [AwgSetFrequency 1 0; Write RUN; Write (ACQ_MDEPTH 120000);
           Write (TIM_SCAL 2e-9)]
       ++ (if autorange
           then [Write (CHAN_SCAL 1 1); Write (CHAN_SCAL 2 1)] else [])
       ++ [Write TFORCE].
Proof.
  intros Hstep Hmax g.
  assert (Hfreqs : exists rest,
             sweep_freqs sigfig_round 0 freq_max log_stepsdec (Some step)
             = Ok (0 :: rest)).
  { unfold sweep_freqs. destruct (Req_dec_T step 0); [lra|].
    unfold Np.arange.
    pose proof (Zceil_bound ((freq_max - 0) / step)) as [Hc1 Hc2].
    set (c := Zceil ((freq_max - 0) / step)) in *.
    assert (Hc0 : (0 < c)%Z).
    { apply lt_IZR.
      assert (0 < (freq_max - 0) / step) by (apply Rdiv_lt_0_compat; lra).
      lra. }
    replace (Z.to_nat c) with (S (Z.to_nat (c - 1))) by lia.
    simpl seq. simpl map. eexists. f_equal. f_equal. simpl. lra. }
  destruct Hfreqs as [rest Hfreqs].
  unfold g, freqresp_iter_x. rewrite Hfreqs.
  cbn [sweep_rows_x].
  assert (Hm : default_measure sc (Some step) delay autorange 0 tr
               = measure_response sc (NpFloat64 0) delay autorange
                                  default_memdepth tr)
    by (unfold default_measure; rewrite sweep_number_linear by lra;
        reflexivity).
  rewrite Hm, measure_response_numpy_zero.
  repeat split.
Qed.

(** A sweep 0, 100, ..., 900 Hz on the flat oscilloscope. *)
Lemma sweep_from_zero_hertz_witness :
  let g := freqresp_iter_x sigfig_half_even trace
             (default_measure flat_scope (Some 100) 1 false)
             0 1000 10 (Some 100) [] in
  rows_of g = [] /\
  error_of g = Some OverflowError_sleep /\
  final_of g
  = [] ++ [AwgSetFrequency 1 0; Write RUN; Write (ACQ_MDEPTH 120000);
           Write (TIM_SCAL 2e-9)]
       ++ [] ++ [Write TFORCE].
Proof.
  apply (sweep_from_zero_hertz sigfig_half_even flat_scope 1 1000 100 false
                               10 []); lra.
Defined.

(** ** The table of freqresp and the output of freqresp_cli *)

Lemma collect_rows_spec {W} (g : gen row W) :
  forall data,
    collect_rows g data
    = (match error_of g with
       | None => Ok (data ++ rows_of g)
       | Some e => Raise e
       end, final_of g).
Proof.
  induction g as [r rest IH|w|e w]; intros data; simpl.
  - rewrite IH, <- app_assoc. reflexivity.
  - now rewrite app_nil_r.
  - reflexivity.
Qed.

Lemma echo_rows_spec {W} (g : gen xrow W) :
  forall out,
    echo_rows g out
    = (match error_of g with
       | None => Ok tt
       | Some e => Raise e
       end, final_of g, out ++ map line_of (rows_of g)).
Proof.
  induction g as [r rest IH|w|e w]; intros out; simpl.
  - rewrite IH, <- app_assoc. reflexivity.
  - now rewrite app_nil_r.
  - now rewrite app_nil_r.
Qed.

Lemma sweep_rows_failed {W} (measure : R -> M W (R * R)) (freqs : list R) :
  forall w e,
    error_of (sweep_rows W measure freqs w) = Some e ->
    (length (rows_of (sweep_rows W measure freqs w)) < length freqs)%nat.
Proof.
  induction freqs as [|freq rest IH]; intros w e; simpl; [discriminate|].
  destruct (measure freq w) as [[[a p]|e'] w'] eqn:Hm; simpl; [|lia].
  unfold Py.log10. destruct (Rlt_dec 0 a) as [Ha|Ha]; simpl; [|lia].
  intros H. apply IH in H. lia.
Qed.

(** X17: [freqresp] returns a table only when the whole sweep completed:
    then the table holds exactly one row per frequency, in the order of
    the sweep, each with the answer of the measurement for its
    frequency.  When a measurement or the dB conversion raises, the
    exception leaves [freqresp] and the rows measured so far (fewer than
    there are frequencies) are not returned. *)
Theorem freqresp_table {W : Type} (sigfig_round : R -> Z -> R)
        (measure : R -> R -> bool -> M W (R * R)) (freq_min freq_max : R)
        (log_stepsdec : Z) (lin_interval : option R) (delay : R)
        (autorange : bool) (freqs : list R) (w : W) :
  sweep_freqs sigfig_round freq_min freq_max log_stepsdec lin_interval
  = Ok freqs ->
  let call := fun freq => measure freq delay autorange in
  let g := freqresp_iter sigfig_round W call freq_min freq_max log_stepsdec
                         lin_interval w in
  match fst (freqresp sigfig_round measure freq_min freq_max log_stepsdec
                      lin_interval delay autorange w) with
  | Ok table =>
      table = rows_of g /\ error_of g = None /\
      Forall2 (row_for call) freqs table
  | Raise e =>
      error_of g = Some e /\ (length (rows_of g) < length freqs)%nat
  end.
Proof.
  intros Hfreqs call g. unfold freqresp. fold call. fold g.
  rewrite collect_rows_spec. simpl.
  assert (Hg : g = sweep_rows W call freqs w)
    by (apply freqresp_iter_sweeps; exact Hfreqs).
  destruct (error_of g) as [e|] eqn:He.
  - split; [reflexivity|]. rewrite Hg in *.
    apply (sweep_rows_failed call freqs w e He).
  - split; [reflexivity|]. split; [reflexivity|]. rewrite Hg in *.
    pose proof (sweep_rows_prefix call freqs w) as Hp.
    rewrite (sweep_rows_complete call freqs w He), firstn_all in Hp.
    exact Hp.
Qed.

(** The stub measurement on the linear sweep 100, 200. *)
Lemma freqresp_table_witness :
  let call := fun freq => stub_measure freq in
  let g := freqresp_iter sigfig_half_even (list R) call 100 300 10
                         (Some 100) [] in
  match fst (freqresp sigfig_half_even (fun freq _ _ => stub_measure freq)
                      100 300 10 (Some 100) 1 false []) with
  | Ok table =>
      table = rows_of g /\ error_of g = None /\
      Forall2 (row_for call) (Np.arange 100 300 100) table
  | Raise e =>
      error_of g = Some e /\
      (length (rows_of g) < length (Np.arange 100 300 100))%nat
  end.
Proof.
  apply (freqresp_table sigfig_half_even (fun freq _ _ => stub_measure freq)
                        100 300 10 (Some 100) 1 false
                        (Np.arange 100 300 100) []).
  unfold sweep_freqs. destruct (Req_dec_T 100 0); [lra|reflexivity].
Defined.

Lemma freqresp_iter_x_sweeps {W : Type} (sigfig_round : R -> Z -> R)
      (measure : R -> M W (xfloat * R)) (freq_min freq_max : R)
      (log_stepsdec : Z) (lin_interval : option R) (freqs : list R) (w : W) :
  sweep_freqs sigfig_round freq_min freq_max log_stepsdec lin_interval
  = Ok freqs ->
  freqresp_iter_x sigfig_round W measure freq_min freq_max log_stepsdec
                  lin_interval w
  = sweep_rows_x W measure freqs w.
Proof. intros H. unfold freqresp_iter_x. now rewrite H. Qed.

(** The rows of a sweep carry the frequencies of the list, in order. *)
Lemma sweep_rows_x_frequencies {W : Type} (measure : R -> M W (xfloat * R))
      (freqs : list R) :
  forall w,
    map xrow_freq (rows_of (sweep_rows_x W measure freqs w))
    = firstn (length (rows_of (sweep_rows_x W measure freqs w))) freqs.
Proof.
  induction freqs as [|freq rest IH]; intros w; simpl; [reflexivity|].
  destruct (measure freq w) as [[[a p]|e] w']; simpl; [|reflexivity].
  destruct (Py.log10x a) as [l|e]; simpl; [|reflexivity].
  f_equal. apply IH.
Qed.

Lemma sweep_rows_x_complete {W : Type} (measure : R -> M W (xfloat * R))
      (freqs : list R) :
  forall w,
    error_of (sweep_rows_x W measure freqs w) = None ->
    length (rows_of (sweep_rows_x W measure freqs w)) = length freqs.
Proof.
  induction freqs as [|freq rest IH]; intros w; simpl; [reflexivity|].
  destruct (measure freq w) as [[[a p]|e] w']; simpl; [|discriminate].
  destruct (Py.log10x a) as [l|e]; simpl; [|discriminate].
  intros H. f_equal. apply IH. exact H.
Qed.

(** On a callback with finite results the two renderings of the loop
    agree. *)
Lemma sweep_rows_x_finite {W : Type} (measure : R -> M W (R * R))
      (freqs : list R) :
  forall w,
    rows_of (sweep_rows_x W (finite_measure measure) freqs w)
    = map finite_row (rows_of (sweep_rows W measure freqs w)) /\
    error_of (sweep_rows_x W (finite_measure measure) freqs w)
    = error_of (sweep_rows W measure freqs w) /\
    final_of (sweep_rows_x W (finite_measure measure) freqs w)
    = final_of (sweep_rows W measure freqs w).
Proof.
  induction freqs as [|freq rest IH]; intros w; simpl; [repeat split|].
  unfold finite_measure at 1 3 5.
  destruct (measure freq w) as [[[a p]|e] w']; simpl; [|repeat split].
  destruct (Py.log10 a) as [l|e]; simpl; [|repeat split].
  destruct (IH w') as (H1 & H2 & H3). rewrite H1, H2, H3. repeat split.
Qed.

(** X18: [freqresp_cli] prints the header and then one line per row the
    sweep yields, in order, with the four values of the row; the lines of
    the points measured before a failure are printed too, and the
    exception that ended the sweep leaves the command. *)
Theorem freqresp_cli_output (sigfig_round : R -> Z -> R) (sc : scope)
        (freq_min freq_max : R) (log_stepsdec : Z) (lin_interval : option R)
        (delay : R) (autorange : bool) (tr : trace) :
  let g := freqresp_iter_x sigfig_round trace
             (default_measure sc lin_interval delay autorange)
             freq_min freq_max log_stepsdec lin_interval tr in
  let run := freqresp_cli sigfig_round sc freq_min freq_max log_stepsdec
                          lin_interval delay autorange tr in
  snd run = Header :: map line_of (rows_of g) /\
  snd (fst run) = final_of g /\
  (forall e, fst (fst run) = Raise e <-> error_of g = Some e) /\
  (fst (fst run) = Ok tt <-> error_of g = None) /\
  (forall freqs,
      sweep_freqs sigfig_round freq_min freq_max log_stepsdec lin_interval
      = Ok freqs ->
      (length (snd run) <= S (length freqs))%nat /\
      (error_of g = None -> length (snd run) = S (length freqs)) /\
      map xrow_freq (rows_of g) = firstn (length (rows_of g)) freqs).
Proof.
  intros g run. unfold run, freqresp_cli. fold g.
  rewrite echo_rows_spec. simpl.
  split; [reflexivity|]. split; [reflexivity|].
  split; [|split].
  - intros e. destruct (error_of g); split; congruence.
  - destruct (error_of g); split; congruence.
  - intros freqs Hfreqs. rewrite length_map.
    assert (Hg : g = sweep_rows_x trace
                   (default_measure sc lin_interval delay autorange)
                   freqs tr)
      by (apply freqresp_iter_x_sweeps; exact Hfreqs).
    pose proof (sweep_rows_x_frequencies
                  (default_measure sc lin_interval delay autorange)
                  freqs tr) as Hp.
    rewrite <- Hg in Hp.
    pose proof (f_equal (@length R) Hp) as Hl.
    rewrite length_map, length_firstn in Hl.
    split; [lia|]. split; [|exact Hp].
    intros He. rewrite Hg in *.
    rewrite (sweep_rows_x_complete _ freqs tr He). reflexivity.
Qed.

(** ** The polling loops (autoscale, wait_stopped) *)

Lemma poll_spec (q : poll_event) (ready : list poll_event -> bool) (n : nat) :
  forall tr, exists k,
    (k <= n)%nat /\
    poll q ready n tr
    = tr ++ cycles q k ++ (if (k <? n)%nat then [q] else []) /\
    (forall i, (i < k)%nat -> ready (tr ++ cycles q i) = false) /\
    ((k < n)%nat -> ready (tr ++ cycles q k) = true).
Proof.
  induction n as [|m IH]; intros tr.
  - exists 0%nat. simpl. rewrite app_nil_r. repeat split; intros; lia.
  - simpl poll. destruct (ready tr) eqn:Hr.
    + exists 0%nat. simpl. rewrite app_nil_r.
      repeat split; [lia|intros; lia|intros _; exact Hr].
    + destruct (IH ((tr ++ [q]) ++ [PollSleep 0.5])) as (k & Hk & E & Hno & Hyes).
      exists (S k). split; [lia|]. split; [|split].
      * rewrite E. change (S k <? S m)%nat with (k <? m)%nat.
        simpl cycles. repeat rewrite <- app_assoc. reflexivity.
      * intros [|j] Hj; simpl.
        -- rewrite app_nil_r. exact Hr.
        -- specialize (Hno j ltac:(lia)).
           repeat rewrite <- app_assoc in Hno. exact Hno.
      * intros Hlt. specialize (Hyes ltac:(lia)).
        simpl. repeat rewrite <- app_assoc in Hyes. exact Hyes.
Qed.

Lemma slept_app (l1 l2 : list poll_event) :
  slept (l1 ++ l2) = slept l1 + slept l2.
Proof.
  induction l1 as [|e l1 IH]; simpl; [lra|].
  destruct e; rewrite IH; lra.
Qed.

Lemma slept_cycles (q : poll_event) (k : nat) :
  q = QueryOpc \/ q = QueryTrigStat -> slept (cycles q k) = 0.5 * INR k.
Proof.
  intros Hq. induction k as [|j IH].
  - simpl. lra.
  - rewrite S_INR. simpl cycles.
    destruct Hq as [-> | ->]; simpl; simpl in IH; rewrite IH; lra.
Qed.

(** X19: [wait_stopped] asks "TRIG:STAT?" until the answer contains
    "STOP", sleeping 0.5 s after each other answer, and gives up after 20
    answers.  It sends [k + 1] queries when the [(k+1)]-th answer is the
    first with "STOP" ([k < 20]), and 20 otherwise; it sleeps [0.5 k]
    seconds, at most 10; and it returns in both cases, so that a caller
    cannot tell a stopped oscilloscope from a timeout. *)
Theorem wait_stopped_polling (stat_has_stop : list poll_event -> bool)
        (tr : list poll_event) :
  exists k evs,
    (k <= 20)%nat /\
    wait_stopped stat_has_stop tr = tr ++ evs /\
    evs = cycles QueryTrigStat k
          ++ (if (k <? 20)%nat then [QueryTrigStat] else []) /\
    (forall i, (i < k)%nat ->
               stat_has_stop (tr ++ cycles QueryTrigStat i) = false) /\
    ((k < 20)%nat -> stat_has_stop (tr ++ cycles QueryTrigStat k) = true) /\
    slept evs = 0.5 * INR k /\ slept evs <= 10.
Proof.
  destruct (poll_spec QueryTrigStat stat_has_stop 20 tr)
    as (k & Hk & E & Hno & Hyes).
  exists k. eexists. split; [exact Hk|]. split; [exact E|].
  split; [reflexivity|]. split; [exact Hno|]. split; [exact Hyes|].
  assert (Hs : slept (cycles QueryTrigStat k
                      ++ (if (k <? 20)%nat then [QueryTrigStat] else []))
               = 0.5 * INR k).
  { rewrite slept_app, slept_cycles by auto.
    destruct (k <? 20)%nat; simpl; lra. }
  split; [exact Hs|]. rewrite Hs.
  apply le_INR in Hk. simpl in Hk. lra.
Qed.

(** X20: [autoscale] sends "AUTOSCALE", asks "*OPC?" until the answer
    contains "1", sleeping 0.5 s after each other answer, gives up after
    20 answers, and always ends with a sleep of 1 s: it sleeps
    [0.5 k + 1] seconds, between 1 and 11, and returns whether or not the
    operation completed. *)
Theorem autoscale_polling (opc_has_1 : list poll_event -> bool)
        (tr : list poll_event) :
  exists k evs,
    (k <= 20)%nat /\
    autoscale opc_has_1 tr = tr ++ evs /\
    evs = [WriteAutoscale] ++ cycles QueryOpc k
          ++ (if (k <? 20)%nat then [QueryOpc] else []) ++ [PollSleep 1] /\
    (forall i, (i < k)%nat ->
               opc_has_1 (tr ++ [WriteAutoscale] ++ cycles QueryOpc i)
               = false) /\
    ((k < 20)%nat ->
     opc_has_1 (tr ++ [WriteAutoscale] ++ cycles QueryOpc k) = true) /\
    slept evs = 0.5 * INR k + 1 /\ 1 <= slept evs <= 11.
Proof.
  destruct (poll_spec QueryOpc opc_has_1 20 (tr ++ [WriteAutoscale]))
    as (k & Hk & E & Hno & Hyes).
  exists k. eexists. split; [exact Hk|]. split; [|split; [reflexivity|]].
  - unfold autoscale. rewrite E. repeat rewrite <- app_assoc. reflexivity.
  - split; [|split].
    + intros i Hi. rewrite app_assoc. apply Hno. exact Hi.
    + intros Hlt. rewrite app_assoc. apply Hyes. exact Hlt.
    + assert (Hs : slept ([WriteAutoscale] ++ cycles QueryOpc k
                          ++ (if (k <? 20)%nat then [QueryOpc] else [])
                          ++ [PollSleep 1])
                   = 0.5 * INR k + 1).
      { rewrite !slept_app, slept_cycles by auto.
        destruct (k <? 20)%nat; simpl; lra. }
      split; [exact Hs|]. rewrite Hs.
      pose proof (pos_INR k). apply le_INR in Hk. simpl in Hk. lra.
Qed.

(** ** The phase difference as a representative of an angle *)

Lemma phase_delta_unique (p1 p2 v : R) (m : Z) :
  -180 <= v < 180 -> v = p1 - p2 + 360 * IZR m -> phase_delta p1 p2 = v.
Proof.
  intros Hv E. unfold phase_delta.
  rewrite (fmod_eq (p1 - p2 + 180) 360 (- m)%Z); rewrite ?opp_IZR; lra.
Qed.

Lemma phase_delta_range (p1 p2 : R) : -180 <= phase_delta p1 p2 < 180.
Proof.
  pose proof (fmod_bounds (p1 - p2 + 180) 360 ltac:(lra)).
  unfold phase_delta. lra.
Qed.

Lemma phase_delta_turns (p1 p2 : R) :
  exists k : Z, phase_delta p1 p2 = p1 - p2 + 360 * IZR k.
Proof.
  exists (- Zfloor ((p1 - p2 + 180) / 360))%Z.
  unfold phase_delta, Py.fmod. rewrite opp_IZR. lra.
Qed.

(** X21: the phase difference depends on the two phases only up to whole
    turns of either; it is [p1 - p2] itself when that lies in
    [-180, 180); exchanging the channels negates it, except at -180,
    which stays -180; and wrapping a wrapped difference changes
    nothing. *)
Theorem phase_delta_representative (p1 p2 : R) :
  (forall k m : Z,
      phase_delta (p1 + 360 * IZR k) (p2 + 360 * IZR m) = phase_delta p1 p2) /\
  (-180 <= p1 - p2 < 180 -> phase_delta p1 p2 = p1 - p2) /\
  (phase_delta p1 p2 <> -180 -> phase_delta p2 p1 = - phase_delta p1 p2) /\
  (phase_delta p1 p2 = -180 -> phase_delta p2 p1 = -180) /\
  phase_delta (phase_delta p1 p2) 0 = phase_delta p1 p2.
Proof.
  pose proof (phase_delta_range p1 p2) as Hr.
  destruct (phase_delta_turns p1 p2) as [k0 Hk0].
  split; [|split; [|split; [|split]]].
  - intros k m. apply (phase_delta_unique _ _ _ (k0 - k + m)%Z); [exact Hr|].
    rewrite plus_IZR, minus_IZR. lra.
  - intros H. apply (phase_delta_unique _ _ _ 0%Z); lra.
  - intros Hne. apply (phase_delta_unique _ _ _ (- k0)%Z); [lra|].
    rewrite opp_IZR. lra.
  - intros He. apply (phase_delta_unique _ _ _ (- k0 - 1)%Z); [lra|].
    rewrite minus_IZR, opp_IZR. lra.
  - apply (phase_delta_unique _ _ _ 0%Z); lra.
Qed.

(** ** The response of two sinusoidal channels *)

Lemma sinusoid_measured (len : nat) (sample_interval freq A phi d : R) :
  0 < sample_interval -> 0 < freq -> 0 < A ->
  (5 <= Py.round (1 / (freq * sample_interval)))%Z ->
  (1 <= Z.of_nat len / Py.round (1 / (freq * sample_interval)))%Z ->
  exists (ph : R) (k : Z),
    dft_calc (window (sinusoid
                        (Z.to_nat (Py.round (1 / (freq * sample_interval))))
                        A phi d) 0 len)
             sample_interval freq = Ok (2 * A, ph) /\
    ph = - Np.degrees phi + 360 * IZR k.
Proof.
  intros Hsi Hf HA H5 H1.
  set (spp := Py.round (1 / (freq * sample_interval))) in *.
  assert (Hspp : samples_per_period freq sample_interval = Ok spp)
    by (apply samples_per_period_defined; lra).
  set (data := window (sinusoid (Z.to_nat spp) A phi d) 0 len).
  set (c := spec_coefficient data spp).
  assert (Hc : c = (A / 2 * cos phi, - (A / 2 * sin phi)))
    by (apply sinusoid_coefficient; [lia|assumption]).
  assert (Habs : Cx.abs c = A / 2).
  { rewrite Hc. unfold Cx.abs, Cx.re, Cx.im. cbn [fst snd].
    pose proof (sin2_cos2 phi) as H. unfold Rsqr in H.
    replace (A / 2 * cos phi * (A / 2 * cos phi)
             + - (A / 2 * sin phi) * - (A / 2 * sin phi))
      with ((sin phi * sin phi + cos phi * cos phi) * (A / 2 * (A / 2)))
      by ring.
    rewrite H, Rmult_1_l. apply sqrt_square. lra. }
  pose proof (phase_polar c) as Hpol. rewrite Habs in Hpol.
  rewrite Hc in Hpol at 1. injection Hpol as Hre Him.
  set (psi := Cx.phase c) in *.
  assert (Hcos : cos psi = cos (- phi)).
  { rewrite cos_neg. apply Rmult_eq_reg_l with (A / 2); lra. }
  assert (Hsin : sin psi = sin (- phi)).
  { rewrite sin_neg. apply Rmult_eq_reg_l with (A / 2); lra. }
  destruct (angles_congruent _ _ Hcos Hsin) as [k Hk].
  pose proof PI_RGT_0 as HPI.
  exists (Np.degrees psi), k. split.
  - replace (2 * A) with (4 * Cx.abs c) by (rewrite Habs; field).
    apply dft_calc_ok; unfold data; rewrite ?window_length; assumption.
  - rewrite Hk. unfold Np.degrees. field. lra.
Qed.

(** X22: when channel 1 carries [d1 + A1 cos(w t + phi1)] and channel 2
    [d2 + A2 cos(w t + phi2)] at the measured frequency, both DFTs
    succeed and the response computed from them is exact: the amplitude
    ratio is [A1 / A2], whatever the offsets, and the phase difference
    is [phi2 - phi1] in degrees, reduced to [-180, 180).  A measurement
    channel that lags the reference by an angle is thus reported with
    that angle as a positive phase. *)
Theorem response_of_two_sinusoids (len1 len2 : nat)
        (sample_interval freq A1 phi1 d1 A2 phi2 d2 : R) :
  0 < sample_interval -> 0 < freq -> 0 < A1 -> 0 < A2 ->
  let spp := Py.round (1 / (freq * sample_interval)) in
  (5 <= spp)%Z ->
  (1 <= Z.of_nat len1 / spp)%Z -> (1 <= Z.of_nat len2 / spp)%Z ->
  exists a1 p1 a2 p2,
    dft_calc (window (sinusoid (Z.to_nat spp) A1 phi1 d1) 0 len1)
             sample_interval freq = Ok (a1, p1) /\
    dft_calc (window (sinusoid (Z.to_nat spp) A2 phi2 d2) 0 len2)
             sample_interval freq = Ok (a2, p2) /\
    a1 / a2 = A1 / A2 /\
    (exists k : Z,
        phase_delta p1 p2 = Np.degrees (phi2 - phi1) + 360 * IZR k) /\
    -180 <= phase_delta p1 p2 < 180 /\
    (- PI <= phi2 - phi1 < PI ->
     phase_delta p1 p2 = Np.degrees (phi2 - phi1)).
Proof.
  intros Hsi Hf HA1 HA2 spp H5 Hl1 Hl2.
  destruct (sinusoid_measured len1 sample_interval freq A1 phi1 d1
              Hsi Hf HA1 H5 Hl1) as (p1 & k1 & Hd1 & Hp1).
  destruct (sinusoid_measured len2 sample_interval freq A2 phi2 d2
              Hsi Hf HA2 H5 Hl2) as (p2 & k2 & Hd2 & Hp2).
  exists (2 * A1), p1, (2 * A2), p2.
  pose proof PI_RGT_0 as HPI.
  assert (Hdeg : Np.degrees (phi2 - phi1)
                 = Np.degrees phi2 - Np.degrees phi1)
    by (unfold Np.degrees; field; lra).
  split; [exact Hd1|]. split; [exact Hd2|].
  split; [field; lra|].
  destruct (phase_delta_turns p1 p2) as [k0 Hk0].
  split; [|split].
  - exists (k0 + k1 - k2)%Z. rewrite Hk0, Hp1, Hp2, Hdeg.
    rewrite minus_IZR, plus_IZR. lra.
  - apply phase_delta_range.
  - intros [Hlo Hhi].
    apply (phase_delta_unique _ _ _ (k2 - k1)%Z).
    + unfold Np.degrees. split.
      * apply Rmult_le_reg_r with PI; [lra|].
        replace ((phi2 - phi1) * 180 / PI * PI) with ((phi2 - phi1) * 180)
          by (field; lra).
        lra.
      * apply Rmult_lt_reg_r with PI; [lra|].
        replace ((phi2 - phi1) * 180 / PI * PI) with ((phi2 - phi1) * 180)
          by (field; lra).
        lra.
    + rewrite Hdeg, Hp1, Hp2, minus_IZR. lra.
Qed.

(** Amplitudes 3 and 1 on different offsets, in phase, at 5 samples per
    period: the ratio is 3. *)
Lemma response_of_two_sinusoids_witness :
  exists a1 p1 a2 p2,
    dft_calc (window (sinusoid 5 3 0 7) 0 10) 1 (1 / 5) = Ok (a1, p1) /\
    dft_calc (window (sinusoid 5 1 0 2) 0 15) 1 (1 / 5) = Ok (a2, p2) /\
    a1 / a2 = 3 / 1 /\
    phase_delta p1 p2 = Np.degrees (0 - 0).
Proof.
  destruct (response_of_two_sinusoids 10 15 1 (1 / 5) 3 0 7 1 0 2)
    as (a1 & p1 & a2 & p2 & H1 & H2 & Hr & _ & _ & Hp); try lra.
  - rewrite round_five. lia.
  - rewrite round_five. now vm_compute.
  - rewrite round_five. now vm_compute.
  - rewrite round_five in H1, H2. exists a1, p1, a2, p2.
    split; [exact H1|]. split; [exact H2|]. split; [exact Hr|].
    apply Hp. pose proof PI_RGT_0. lra.
Defined.

(** ** How far the rounded scale is from the requested one *)

Lemma last_cons_default (rest : list R) :
  forall y x, last (y :: rest) x = last rest y.
Proof.
  induction rest as [|z rest IH]; intros y x; [reflexivity|].
  change (last (y :: z :: rest) x) with (last (z :: rest) x).
  rewrite !IH. reflexivity.
Qed.

Lemma steps_125_bracket (tl : list R) :
  forall x t,
    0 < x -> steps_125 x tl -> x <= t <= last tl x ->
    exists s u, In s (x :: tl) /\ In u (x :: tl) /\
                0 < s /\ s <= t <= u /\ u <= 2.5 * s.
Proof.
  induction tl as [|y rest IH]; intros x t Hx Hsteps Ht.
  - simpl in Ht. exists x, x. simpl. repeat split; auto; lra.
  - destruct Hsteps as [Hxy Hrest].
    destruct (Rle_dec t y) as [Hty|Hty].
    + exists x, y. simpl. repeat split; auto; lra.
    + rewrite last_cons_default in Ht.
      destruct (IH y t ltac:(lra) Hrest ltac:(lra))
        as (s & u & Hs & Hu & H).
      exists s, u. split; [now right|]. split; [now right|]. exact H.
Qed.

Lemma nearest_within_ratio (x : R) (tl : list R) (t v : R) :
  0 < x -> steps_125 x tl -> x <= t <= last tl x ->
  DS1054Z.nearest (x :: tl) t = Ok v ->
  4 / 7 * t <= v <= 10 / 7 * t.
Proof.
  intros Hx Hsteps Ht Hv.
  destruct (steps_125_bracket tl x t Hx Hsteps Ht)
    as (s & u & Hs & Hu & Hs0 & Hsu & Hr).
  destruct (nearest_spec _ _ _ Hv) as [_ Hmin].
  pose proof (Hmin s Hs) as H1. pose proof (Hmin u Hu) as H2.
  rewrite (Rabs_left1 (s - t)) in H1 by lra.
  rewrite (Rabs_right (u - t)) in H2 by lra.
  unfold Rabs in H1, H2. destruct (Rcase_abs (v - t)); lra.
Qed.

Lemma vertical_scales_steps :
  exists x tl, DS1054Z.vertical_scales = x :: tl /\ x = 0.01 /\
               last tl x = 100 /\ steps_125 x tl.
Proof.
  unfold DS1054Z.vertical_scales. do 2 eexists.
  split; [reflexivity|]. split; [lra|]. split; [simpl; lra|].
  simpl. repeat split; lra.
Qed.

Lemma timebases_steps :
  exists x tl, DS1054Z.timebases = x :: tl /\ x = 2e-9 /\
               last tl x = 50 /\ steps_125 x tl.
Proof.
  unfold DS1054Z.timebases. do 2 eexists.
  split; [reflexivity|]. split; [lra|]. split; [simpl; lra|].
  simpl. repeat split; lra.
Qed.

(** X23: the auto-ranging asks for a quarter of the captured peak per
    division and gets the nearest supported scale.  For a peak between
    0.04 and 400 the scale sent lies between peak / 7 and peak / 2.8: the
    peak then spans between 2.8 and 7 divisions of the new scale, so it
    may exceed the 4 divisions asked for. *)
Theorem autorange_scale_ratio (channel : Z) (peak : R) (tr : trace) :
  0.04 <= peak <= 400 ->
  exists v,
    DS1054Z.set_channel_scale channel (peak / 4) true tr
    = (Ok tt, tr ++ [Write (CHAN_SCAL channel v)]) /\
    In v DS1054Z.vertical_scales /\
    peak / 7 <= v <= peak / 2.8 /\
    2.8 * v <= peak <= 7 * v.
Proof.
  intros Hp.
  destruct (set_channel_scale_rounds channel (peak / 4) tr) as [v [Hv Hrun]].
  exists v. split; [exact Hrun|].
  split; [apply (nearest_spec _ _ _ Hv)|].
  destruct vertical_scales_steps as (x & tl & E & Hx & Hl & Hs).
  rewrite E in Hv.
  pose proof (nearest_within_ratio x tl (peak / 4) v ltac:(lra) Hs
                ltac:(lra) Hv) as [H1 H2].
  split; lra.
Qed.

(** A peak of 5 V: the scale sent is 1 V per division, and the peak is
    5 divisions away from the centre. *)
Lemma autorange_scale_ratio_witness :
  DS1054Z.set_channel_scale 1 (5 / 4) true []
  = (Ok tt, [Write (CHAN_SCAL 1 1)]).
Proof.
  destruct (autorange_scale_ratio 1 5 []) as (v & Hrun & Hin & _ & Hv);
    [lra|].
  assert (E : v = 1).
  { unfold DS1054Z.vertical_scales in Hin. simpl in Hin.
    repeat (destruct Hin as [<-|Hin]; [lra|]). destruct Hin. }
  rewrite E in Hrun. exact Hrun.
Defined.

(** X24: a measurement asks for a time base of one period per division
    and gets the nearest supported one.  For a frequency between 0.02 Hz
    and 500 MHz the time base sent covers between 4/7 and 10/7 of a
    period per division. *)
Theorem measurement_timebase_ratio (freq : R) (tr : trace) :
  0.02 <= freq <= 5e8 ->
  exists tb,
    DS1054Z.set_timebase (1 / freq) true tr
    = (Ok tt, tr ++ [Write (TIM_SCAL tb)]) /\
    In tb DS1054Z.timebases /\
    4 / 7 <= tb * freq <= 10 / 7.
Proof.
  intros Hf.
  destruct (set_timebase_rounds (1 / freq) tr) as [tb [Htb Hrun]].
  exists tb. split; [exact Hrun|].
  split; [apply (nearest_spec _ _ _ Htb)|].
  destruct timebases_steps as (x & tl & E & Hx & Hl & Hs).
  rewrite E in Htb.
  assert (Hinv : 2e-9 <= 1 / freq <= 50).
  { split.
    - apply Rmult_le_reg_r with freq; [lra|].
      replace (1 / freq * freq) with 1 by (field; lra). lra.
    - apply Rmult_le_reg_r with freq; [lra|].
      replace (1 / freq * freq) with 1 by (field; lra). lra. }
  pose proof (nearest_within_ratio x tl (1 / freq) tb ltac:(lra) Hs
                ltac:(lra) Htb) as [H1 H2].
  split.
  - apply Rmult_le_compat_r with (r := freq) in H1; [|lra].
    replace (4 / 7 * (1 / freq) * freq) with (4 / 7) in H1 by (field; lra).
    exact H1.
  - apply Rmult_le_compat_r with (r := freq) in H2; [|lra].
    replace (10 / 7 * (1 / freq) * freq) with (10 / 7) in H2 by (field; lra).
    exact H2.
Qed.

(** At 1 kHz. *)
Lemma measurement_timebase_ratio_witness :
  exists tb,
    DS1054Z.set_timebase (1 / 1000) true []
    = (Ok tt, [] ++ [Write (TIM_SCAL tb)]) /\
    In tb DS1054Z.timebases /\
    4 / 7 <= tb * 1000 <= 10 / 7.
Proof. apply (measurement_timebase_ratio 1000 []). lra. Defined.

(** ** The frequencies set during a sweep *)

Lemma awg_frequencies_app (l1 l2 : trace) :
  awg_frequencies (l1 ++ l2) = awg_frequencies l1 ++ awg_frequencies l2.
Proof.
  induction l1 as [|e l1 IH]; [reflexivity|].
  destruct e; simpl; rewrite IH; reflexivity.
Qed.

Lemma awg_frequencies_none (evs : trace) :
  Forall no_awg_command evs -> awg_frequencies evs = [].
Proof.
  induction 1 as [|e evs He _ IH]; [reflexivity|].
  destruct e as [ch f| | | | |]; simpl; try exact IH.
  exfalso. exact (He ch f eq_refl).
Qed.

Lemma measure_response_awg (sc : scope) (freq : number) (delay : R)
      (autorange : bool) (memdepth : option Z) (tr : trace) :
  awg_frequencies (snd (measure_response sc freq delay autorange memdepth tr))
  = awg_frequencies tr ++ [float_of freq].
Proof.
  assert (Hw : forall c, no_awg_command (Write c))
    by (intros c ch f; discriminate).
  assert (Hrest : forall dl,
             emits no_awg_command
                   (measure_capture sc (float_of freq) dl autorange)).
  { intros dl. apply emits_measure_capture; auto;
      intros; intros ch f; discriminate. }
  unfold measure_response.
  erewrite bind_ok by reflexivity.
  match goal with
  | |- context [snd (?c (tr ++ [?e]))] =>
      assert (He : emits no_awg_command c)
  end.
  { unfold DS1054Z.run.
    emits_with ltac:(idtac; match goal with
                     | |- emits _ (DS1054Z.set_memdepth _) =>
                         apply emits_set_memdepth
                     | |- emits _ (DS1054Z.set_timebase_x _) =>
                         apply emits_set_timebase_x
                     | |- emits _ (measure_capture _ _ _ _) => apply Hrest
                     end);
      auto. }
  destruct (He (tr ++ [AwgSetFrequency 1 (float_of freq)]))
    as [evs [E Hevs]].
  rewrite E, !awg_frequencies_app, (awg_frequencies_none evs Hevs).
  simpl. now rewrite app_nil_r.
Qed.

Lemma float_of_sweep_number (lin_interval : option R) (freq : R) :
  float_of (sweep_number lin_interval freq) = freq.
Proof.
  unfold sweep_number. destruct lin_interval as [step|]; [|reflexivity].
  destruct (Req_dec_T step 0); reflexivity.
Qed.

(** X25: during a sweep with the default measurement the signal
    generator is set to the frequencies of the sweep, one after the
    other, each once: to those of the rows yielded and, when the sweep
    fails, to the one at which it failed, and to no other.  The rows
    carry these frequencies in the same order. *)
Theorem sweep_sets_each_frequency_once (sc : scope) (delay : R)
        (autorange : bool) (memdepth : option Z) (lin_interval : option R)
        (freqs : list R) (tr : trace) :
  let g := sweep_rows_x trace
             (fun freq => measure_response sc (sweep_number lin_interval freq)
                                           delay autorange memdepth)
             freqs tr in
  let attempted := (length (rows_of g)
                    + match error_of g with Some _ => 1 | None => 0 end)%nat in
  awg_frequencies (final_of g) = awg_frequencies tr ++ firstn attempted freqs /\
  (attempted <= length freqs)%nat /\
  map xrow_freq (rows_of g) = firstn (length (rows_of g)) freqs.
Proof.
  revert tr. induction freqs as [|freq rest IH]; intros tr; simpl.
  - rewrite app_nil_r. repeat split. lia.
  - pose proof (measure_response_awg sc (sweep_number lin_interval freq)
                  delay autorange memdepth tr) as Hawg.
    rewrite float_of_sweep_number in Hawg.
    destruct (measure_response sc (sweep_number lin_interval freq) delay
                               autorange memdepth tr)
      as [[[a p]|e] tr'] eqn:Hm; simpl in Hawg |- *.
    + destruct (Py.log10x a) as [l|e]; simpl.
      * destruct (IH tr') as (H1 & H2 & H3). simpl in H1, H2, H3.
        rewrite H1, Hawg, <- app_assoc, H3. simpl.
        repeat split. lia.
      * rewrite Hawg. repeat split. lia.
    + rewrite Hawg. repeat split. lia.
Qed.

(** ** A linear sweep with a negative interval *)

(** X26: in linear mode with a negative interval the sweep descends from
    [freq_min] in steps of the interval and stops before [freq_max]:
    every frequency lies in [(freq_max, freq_min]]; when
    [freq_min <= freq_max] the list is empty, so that the generator
    ends without a row, without an exception and without calling the
    measurement. *)
Theorem descending_linear_sweep {W : Type} (sigfig_round : R -> Z -> R)
        (measure : R -> M W (R * R)) (freq_min freq_max step : R)
        (log_stepsdec : Z) (w : W) :
  step < 0 ->
  exists freqs,
    sweep_freqs sigfig_round freq_min freq_max log_stepsdec (Some step)
    = Ok freqs /\
    length freqs = Z.to_nat (Zceil ((freq_max - freq_min) / step)) /\
    (forall i, (i < length freqs)%nat ->
               nth i freqs 0 = freq_min + INR i * step /\
               freq_max < nth i freqs 0 <= freq_min) /\
    (freq_min <= freq_max ->
     freqs = [] /\
     freqresp_iter sigfig_round W measure freq_min freq_max log_stepsdec
                   (Some step) w = Return w).
Proof.
  intros Hstep. exists (Np.arange freq_min freq_max step).
  pose proof (Zceil_bound ((freq_max - freq_min) / step)) as [Hc1 Hc2].
  set (c := Zceil ((freq_max - freq_min) / step)) in *.
  assert (Hlen : length (Np.arange freq_min freq_max step) = Z.to_nat c).
  { unfold Np.arange. fold c. now rewrite length_map, length_seq. }
  assert (Hmode : sweep_freqs sigfig_round freq_min freq_max log_stepsdec
                              (Some step)
                  = Ok (Np.arange freq_min freq_max step)).
  { unfold sweep_freqs. destruct (Req_dec_T step 0); [lra|reflexivity]. }
  split; [exact Hmode|]. split; [exact Hlen|]. split.
  - intros i Hi. rewrite Hlen in Hi. unfold Np.arange. fold c.
    rewrite nth_map_seq by exact Hi. simpl (0 + i)%nat.
    split; [reflexivity|].
    pose proof (pos_INR i) as Hi0.
    assert (Hic : INR i <= IZR c - 1).
    { rewrite INR_IZR_INZ, <- minus_IZR. apply IZR_le. lia. }
    split; [|nra].
    assert (Hlt : (freq_max - freq_min) / step * step < INR i * step)
      by (apply Rmult_lt_gt_compat_neg_l with (r := step) in Hc1;
          [nra|lra]).
    replace ((freq_max - freq_min) / step * step) with (freq_max - freq_min)
      in Hlt by (field; lra).
    lra.
  - intros Hle.
    assert (Hnil : Np.arange freq_min freq_max step = []).
    { unfold Np.arange. fold c.
      assert (Hc0 : (c <= 0)%Z).
      { apply le_IZR.
        assert ((freq_max - freq_min) / step <= 0).
        { apply Rmult_le_reg_r with (- step); [lra|].
          replace ((freq_max - freq_min) / step * - step)
            with (- (freq_max - freq_min)) by (field; lra).
          lra. }
        assert (Hz : IZR (c - 1) < IZR 0) by (rewrite minus_IZR; lra).
        apply lt_IZR in Hz. apply IZR_le. lia. }
      replace (Z.to_nat c) with 0%nat by lia. reflexivity. }
    split; [exact Hnil|].
    unfold freqresp_iter. rewrite Hmode, Hnil. reflexivity.
Qed.

(** A sweep from 1000 Hz down to 100 Hz in steps of -100 Hz. *)
Lemma descending_linear_sweep_witness :
  exists freqs,
    sweep_freqs sigfig_half_even 1000 100 10 (Some (-100)) = Ok freqs /\
    length freqs = Z.to_nat (Zceil ((100 - 1000) / -100)).
Proof.
  destruct (descending_linear_sweep sigfig_half_even stub_measure
              1000 100 (-100) 10 []) as (freqs & H1 & H2 & _); [lra|].
  exists freqs. split; assumption.
Defined.
